(** * Grid-Watcher: a shallow embedding of the packet decision engine

  The development follows the C++ sources of the repository:

  - [Statistics]        monitor/statistics.hpp  (cache-aligned counters)
  - [LatencyTracker]    monitor/metrics.hpp     (min/max/avg latency)
  - [ThroughputTracker] monitor/metrics.hpp     (60 one-second slots)
  - [Logger]            monitor/logger.hpp      (asynchronous log writer)
  - [GridWatcher]       grid_watcher.hpp        (the hot path)
  - [PacketQueue], [PacketProcessor]
                        processing/packet_processor.hpp
  - [JSON]              web/web_server.hpp      (string escaping)

  Unsigned 64-bit counters are integers in [Z] reduced modulo [2^64];
  atomics are plain fields, one method call being one atomic step of the
  model.  Clock readings are inputs of the operations that read a clock. *)

From Stdlib Require Import ZArith List Bool Lia Floats Ascii String.
From stdpp Require Import base option list gmap.

Local Open Scope Z_scope.

(** ** Machine integers *)

Module U64.

Definition modulus : Z := 2 ^ 64.
Definition UINT64_MAX : Z := modulus - 1.

(** Reduction of an integer to [uint64_t]. *)
Definition wrap (z : Z) : Z := z mod modulus.

(** [static_cast<intptr_t>] of a [uint64_t] on a 64-bit target. *)
Definition to_signed (z : Z) : Z :=
  let w := wrap z in if w <? 2 ^ 63 then w else w - modulus.

(** [fetch_add] on a [std::atomic<uint64_t>]: the stored value wraps. *)
Definition fetch_add (cell delta : Z) : Z := wrap (cell + delta).

(** [fetch_sub] on a [std::atomic<uint64_t>]: below zero the stored value
    wraps to the top of the range. *)
Definition fetch_sub (cell delta : Z) : Z := wrap (cell - delta).

(** [static_cast<double>] of a [uint64_t]: round to nearest binary64. *)
Definition to_double (z : Z) : float :=
  SF2Prim (binary_normalize prec emax z 0 false).

End U64.

(** ** monitor/statistics.hpp *)

Module Statistics.

Record t : Type := mk {
  packets_processed_ : Z;
  packets_allowed_   : Z;
  packets_dropped_   : Z;
  bytes_processed_   : Z;
  threats_detected_  : Z;
  threats_mitigated_ : Z;
  total_blocks_      : Z;
  active_blocks_     : Z;
  start_time_        : Z
}.

(** [Statistics()] : every counter starts at zero. *)
Definition new (now : Z) : t := mk 0 0 0 0 0 0 0 0 now.

Definition incrementPacketsProcessed (s : t) : t :=
  mk (U64.fetch_add (packets_processed_ s) 1) (packets_allowed_ s)
     (packets_dropped_ s) (bytes_processed_ s) (threats_detected_ s)
     (threats_mitigated_ s) (total_blocks_ s) (active_blocks_ s)
     (start_time_ s).

Definition incrementPacketsAllowed (s : t) : t :=
  mk (packets_processed_ s) (U64.fetch_add (packets_allowed_ s) 1)
     (packets_dropped_ s) (bytes_processed_ s) (threats_detected_ s)
     (threats_mitigated_ s) (total_blocks_ s) (active_blocks_ s)
     (start_time_ s).

Definition incrementPacketsDropped (s : t) : t :=
  mk (packets_processed_ s) (packets_allowed_ s)
     (U64.fetch_add (packets_dropped_ s) 1) (bytes_processed_ s)
     (threats_detected_ s) (threats_mitigated_ s) (total_blocks_ s)
     (active_blocks_ s) (start_time_ s).

Definition incrementThreatsDetected (s : t) : t :=
  mk (packets_processed_ s) (packets_allowed_ s) (packets_dropped_ s)
     (bytes_processed_ s) (U64.fetch_add (threats_detected_ s) 1)
     (threats_mitigated_ s) (total_blocks_ s) (active_blocks_ s)
     (start_time_ s).

Definition addBytesProcessed (nbytes : Z) (s : t) : t :=
  mk (packets_processed_ s) (packets_allowed_ s) (packets_dropped_ s)
     (U64.fetch_add (bytes_processed_ s) nbytes) (threats_detected_ s)
     (threats_mitigated_ s) (total_blocks_ s) (active_blocks_ s)
     (start_time_ s).

Definition incrementThreatsMitigated (s : t) : t :=
  mk (packets_processed_ s) (packets_allowed_ s) (packets_dropped_ s)
     (bytes_processed_ s) (threats_detected_ s)
     (U64.fetch_add (threats_mitigated_ s) 1) (total_blocks_ s)
     (active_blocks_ s) (start_time_ s).

Definition incrementTotalBlocks (s : t) : t :=
  mk (packets_processed_ s) (packets_allowed_ s) (packets_dropped_ s)
     (bytes_processed_ s) (threats_detected_ s) (threats_mitigated_ s)
     (U64.fetch_add (total_blocks_ s) 1)
     (U64.fetch_add (active_blocks_ s) 1) (start_time_ s).

Definition decrementActiveBlocks (s : t) : t :=
  mk (packets_processed_ s) (packets_allowed_ s) (packets_dropped_ s)
     (bytes_processed_ s) (threats_detected_ s) (threats_mitigated_ s)
     (total_blocks_ s) (U64.fetch_sub (active_blocks_ s) 1) (start_time_ s).

Definition reset (now : Z) (s : t) : t := mk 0 0 0 0 0 0 0 0 now.

Record Snapshot : Type := mkSnapshot {
  packets_processed      : Z;
  packets_allowed        : Z;
  packets_dropped        : Z;
  bytes_processed        : Z;
  threats_detected       : Z;
  threats_mitigated      : Z;
  total_blocks           : Z;
  active_blocks          : Z;
  packets_per_second     : float;
  bytes_per_second       : float;
  threat_rate_per_minute : float;
  drop_rate_percent      : float;
  allow_rate_percent     : float;
  uptime                 : Z
}.

(** [getSnapshot], read at wall-clock tick [now]; the clock ticks in
    nanoseconds and [duration_cast<seconds>] truncates towards zero.
    [U64.to_double] rounds any integer to the nearest binary64, which is
    also the conversion of the signed [uptime.count()]. *)
Definition getSnapshot (now : Z) (s : t) : Snapshot :=
  let uptime := Z.quot (now - start_time_ s) 1000000000 in
  let uptime_seconds := U64.to_double uptime in
  let has_uptime := PrimFloat.ltb 0%float uptime_seconds in
  let has_packets := 0 <? packets_processed_ s in
  mkSnapshot
    (packets_processed_ s) (packets_allowed_ s) (packets_dropped_ s)
    (bytes_processed_ s) (threats_detected_ s) (threats_mitigated_ s)
    (total_blocks_ s) (active_blocks_ s)
    (if has_uptime
     then PrimFloat.div (U64.to_double (packets_processed_ s)) uptime_seconds
     else 0%float)
    (if has_uptime
     then PrimFloat.div (U64.to_double (bytes_processed_ s)) uptime_seconds
     else 0%float)
    (if has_uptime
     then PrimFloat.mul
            (PrimFloat.div (U64.to_double (threats_detected_ s))
                           uptime_seconds)
            60%float
     else 0%float)
    (if has_packets
     then PrimFloat.div
            (PrimFloat.mul (U64.to_double (packets_dropped_ s)) 100%float)
            (U64.to_double (packets_processed_ s))
     else 0%float)
    (if has_packets
     then PrimFloat.div
            (PrimFloat.mul (U64.to_double (packets_allowed_ s)) 100%float)
            (U64.to_double (packets_processed_ s))
     else 0%float)
    uptime.

End Statistics.

(** ** monitor/metrics.hpp : LatencyTracker *)

Module LatencyTracker.

Definition HISTOGRAM_SIZE : Z := 32.

Record t : Type := mk {
  total_samples_    : Z;
  total_latency_ns_ : Z;
  min_latency_ns_   : Z;
  max_latency_ns_   : Z;
  histogram_        : list Z
}.

(** The constructor: the minimum starts at the [UINT64_MAX] sentinel. *)
Definition new : t :=
  mk 0 0 U64.UINT64_MAX 0 (replicate (Z.to_nat HISTOGRAM_SIZE) 0).

(** [63 - __builtin_clzll(ns | 1)] is the index of the highest set bit. *)
Definition bucket_of (ns : Z) : Z :=
  Z.min (Z.log2 (Z.lor ns 1) / 2) (HISTOGRAM_SIZE - 1).

(** [record(latency)].  [latency.count()] is a signed 64-bit tick count,
    converted to [uint64_t].  Each compare-and-swap loop, run without
    interference, stores [ns] exactly when the comparison holds. *)
Definition record (latency_count : Z) (l : t) : t :=
  let ns := U64.wrap latency_count in
  let current_min := min_latency_ns_ l in
  let current_max := max_latency_ns_ l in
  let bucket := Z.to_nat (bucket_of ns) in
  mk (U64.fetch_add (total_samples_ l) 1)
     (U64.fetch_add (total_latency_ns_ l) ns)
     (if ns <? current_min then ns else current_min)
     (if current_max <? ns then ns else current_max)
     (alter (fun c => U64.fetch_add c 1) bucket (histogram_ l)).

Record Stats : Type := mkStats {
  samples : Z;
  min_ns  : Z;
  max_ns  : Z;
  avg_ns  : float;
  avg_us  : float;
  avg_ms  : float
}.

Definition getStats (l : t) : Stats :=
  let samples := total_samples_ l in
  if 0 <? samples then
    let total := total_latency_ns_ l in
    let avg_ns := (U64.to_double total / U64.to_double samples)%float in
    let avg_us := (avg_ns / 1000)%float in
    let avg_ms := (avg_us / 1000)%float in
    mkStats samples (min_latency_ns_ l) (max_latency_ns_ l)
            avg_ns avg_us avg_ms
  else
    mkStats samples 0 0 0%float 0%float 0%float.

Definition reset (l : t) : t :=
  mk 0 0 U64.UINT64_MAX 0 (map (fun _ => 0) (histogram_ l)).

(** The value a caller sees when nothing has been sampled. *)
Definition no_samples : Stats := mkStats 0 0 0 0%float 0%float 0%float.

End LatencyTracker.

(** ** monitor/metrics.hpp : ThroughputTracker and MetricsManager *)

Module ThroughputTracker.

Definition WINDOW_SIZE : Z := 60.

Record Window : Type := mkWindow {
  packets       : Z;
  bytes         : Z;
  timestamp_sec : Z
}.

Record t : Type := mk {
  windows_     : list Window;
  current_idx_ : Z
}.

Definition new : t :=
  mk (replicate (Z.to_nat WINDOW_SIZE) (mkWindow 0 0 0)) 0.

(** [record(bytes)]; [now_count] is
    [system_clock::now().time_since_epoch().count()]. *)
Definition record (now_count : Z) (nbytes : Z) (tr : t) : t :=
  let now_sec := now_count / 1000000000 in
  let idx := Z.to_nat (now_sec mod WINDOW_SIZE) in
  let touch (w : Window) : Window :=
    let w1 :=
      if negb (timestamp_sec w =? now_sec)
      then mkWindow 0 0 now_sec
      else w in
    mkWindow (U64.fetch_add (packets w1) 1)
             (U64.fetch_add (bytes w1) nbytes)
             (timestamp_sec w1) in
  mk (alter touch idx (windows_ tr)) (current_idx_ tr).

Record Stats : Type := mkStats {
  packets_per_sec : float;
  bytes_per_sec   : float;
  mbps            : float
}.

(** One pass of the loop of [getStats].  [now_sec - i] and
    [now_sec - window_sec] are unsigned subtractions. *)
Definition tally_step (now_sec window_sec : Z) (tr : t)
    (acc : Z * Z * Z) (i : nat) : Z * Z * Z :=
  let '(total_packets, total_bytes, valid_windows) := acc in
  let idx := Z.to_nat (U64.wrap (now_sec - Z.of_nat i) mod WINDOW_SIZE) in
  match windows_ tr !! idx with
  | Some w =>
      if U64.wrap (now_sec - window_sec) <=? timestamp_sec w
      then (U64.wrap (total_packets + packets w),
            U64.wrap (total_bytes + bytes w),
            U64.wrap (valid_windows + 1))
      else acc
  | None => acc
  end.

(** The loop of [getStats]: the packets and bytes of the slots that are
    counted, and the number of those slots.  The tick count of the clock
    is signed; the division by [1000000000ULL] converts it to
    [unsigned long long] first.  [window_sec] is a [size_t]. *)
Definition tally (now_count window_sec : Z) (tr : t) : Z * Z * Z :=
  let now_sec := U64.wrap now_count / 1000000000 in
  fold_left (tally_step now_sec window_sec tr)
            (seq 0 (Z.to_nat (Z.min window_sec WINDOW_SIZE)))
            (0, 0, 0).

(** [getStats(window_sec)], read at wall-clock tick [now_count]. *)
Definition getStats (now_count window_sec : Z) (tr : t) : Stats :=
  let '(total_packets, total_bytes, valid_windows) :=
    tally now_count window_sec tr in
  if 0 <? valid_windows then
    let pps :=
      PrimFloat.div (U64.to_double total_packets)
                    (U64.to_double valid_windows) in
    let bps :=
      PrimFloat.div (U64.to_double total_bytes)
                    (U64.to_double valid_windows) in
    mkStats pps bps (PrimFloat.div (PrimFloat.mul bps 8%float)
                                   1000000%float)
  else mkStats 0%float 0%float 0%float.

End ThroughputTracker.

Module MetricsManager.

Record t : Type := mk {
  packet_processing_latency_ : LatencyTracker.t;
  threat_detection_latency_  : LatencyTracker.t;
  throughput_                : ThroughputTracker.t
}.

Definition new : t :=
  mk LatencyTracker.new LatencyTracker.new ThroughputTracker.new.

Definition record_packet_latency (ns : Z) (m : t) : t :=
  mk (LatencyTracker.record ns (packet_processing_latency_ m))
     (threat_detection_latency_ m) (throughput_ m).

Definition record_threat_latency (ns : Z) (m : t) : t :=
  mk (packet_processing_latency_ m)
     (LatencyTracker.record ns (threat_detection_latency_ m))
     (throughput_ m).

Definition record_throughput (now_count nbytes : Z) (m : t) : t :=
  mk (packet_processing_latency_ m) (threat_detection_latency_ m)
     (ThroughputTracker.record now_count nbytes (throughput_ m)).

End MetricsManager.

(** ** performance/bloom_filter.hpp *)

Module BloomFilter.

(** Modelled from the spec: the header [performance/bloom_filter.hpp] is
    absent.  Section 4.A gives a fixed-size filter of 8192 bits probed by
    3 hash functions derived from one 64-bit hash by rotation, with [add]
    and a membership test and no removal; section 5 says that a write is a
    [fetch_or] of bit words.  The 64-bit hash and the rotation step are
    not given and stay parameters. *)
Section Filter.

Variable hash64 : Z -> Z.
Variable rotation : Z.

Definition Bits : Z := 8192.
Definition Hashes : nat := 3.

Record t : Type := mk { bits_ : Z }.

Definition new : t := mk 0.

Definition rotl64 (h k : Z) : Z :=
  let k := k mod 64 in
  U64.wrap (Z.lor (Z.shiftl h k) (Z.shiftr h (64 - k))).

(** The bit probed by the [i]-th hash function for [key]. *)
Definition probe (key : Z) (i : nat) : Z :=
  rotl64 (U64.wrap (hash64 key)) (Z.of_nat i * rotation) mod Bits.

Definition probes (key : Z) : list Z := map (probe key) (seq 0 Hashes).

Definition add (key : Z) (f : t) : t :=
  mk (fold_left (fun acc b => Z.lor acc (Z.shiftl 1 b)) (probes key)
                (bits_ f)).

Definition contains (key : Z) (f : t) : bool :=
  forallb (fun b => Z.testbit (bits_ f) b) (probes key).

End Filter.

End BloomFilter.

(** ** scada/types.hpp, as documented in the API reference *)

Inductive ProtocolType : Type :=
  MODBUS_TCP | DNP3 | IEC_104 | OPC_UA | UNKNOWN.

Inductive AttackType : Type :=
  | NONE | PORT_SCAN | DOS_FLOOD | MODBUS_COMMAND_INJECTION
  | UNAUTHORIZED_WRITE | ABNORMAL_TRAFFIC_PATTERN | SUSPICIOUS_FUNCTION_CODE
  | MALFORMED_PACKET | REPLAY_ATTACK | MAN_IN_THE_MIDDLE | BRUTE_FORCE.

Inductive ThreatLevel : Type :=
  | INFO | LOW | MEDIUM | HIGH | CRITICAL.

Definition ThreatLevel_rank (l : ThreatLevel) : Z :=
  match l with
  | INFO => 0 | LOW => 1 | MEDIUM => 2 | HIGH => 3 | CRITICAL => 4
  end.

(** The two enumerators [processPacket] compares against, and the
    no-action outcome of the mitigation policy. *)
Inductive MitigationAction : Type :=
  | LOG_ONLY | DROP_PACKET | BLOCK_IP.

Record PacketMetadata : Type := mkPacketMetadata {
  timestamp        : Z;
  source_ip        : Z;
  dest_ip          : Z;
  source_port      : Z;
  dest_port        : Z;
  protocol         : ProtocolType;
  packet_size      : Z;
  transaction_id   : Z;
  unit_id          : Z;
  function_code    : Z;
  register_address : Z;
  register_count   : Z;
  is_response      : bool;
  has_exception    : bool;
  is_malformed     : bool
}.

Record ThreatAlert : Type := mkThreatAlert {
  alert_timestamp   : Z;
  alert_source_ip   : Z;
  alert_dest_ip     : Z;
  attack_type       : AttackType;
  severity          : ThreatLevel;
  description       : string;
  confidence_score  : float;
  auto_mitigated    : bool
}.

(** ** scada/config.hpp *)

Module DetectionConfig.

Record t : Type := mk {
  port_scan_threshold             : Z;
  port_scan_window                : Z;       (* seconds *)
  dos_packet_threshold            : Z;
  dos_byte_threshold              : Z;
  dos_window                      : Z;       (* seconds *)
  write_read_ratio_threshold      : float;
  exception_rate_threshold        : Z;
  packet_size_deviation_threshold : float;
  whitelisted_ips                 : list Z;
  blacklisted_ips                 : list Z;
  monitored_ports                 : list Z;
  auto_block_enabled              : bool;
  auto_block_duration             : Z;       (* minutes *)
  max_concurrent_blocks           : Z;
  packet_buffer_size              : Z;
  log_queue_size                  : Z;
  worker_threads                  : Z
}.

Definition createDefault : t :=
  mk 10 10 1000 10000000 5 5%float 10 3%float [] [] [502; 20000]
     true 60 1000 4096 8192 4.

Definition isValid (c : t) : bool :=
  (0 <? dos_packet_threshold c)
  && (0 <? dos_byte_threshold c)
  && (0 <? port_scan_threshold c)
  && (0 <? max_concurrent_blocks c).

End DetectionConfig.

(** ** scada/mitigation_engine.hpp *)

Module MitigationEngine.

(** [BlockedIP], as documented in the API reference. *)
Record BlockedIP : Type := mkBlockedIP {
  ip              : Z;
  blocked_at      : Z;
  expires_at      : Z;
  reason          : AttackType;
  violation_count : Z;
  permanent       : bool
}.

(** Modelled from the spec: the header [scada/mitigation_engine.hpp] is
    absent.  Section 4.B gives the authoritative table from source address
    to block record together with the whitelist set, and the operations
    below; instants are nanoseconds of the wall clock. *)
Record t : Type := mk {
  config_      : DetectionConfig.t;
  blocked_ips_ : gmap Z BlockedIP;
  whitelist_   : gset Z
}.

Definition new (c : DetectionConfig.t) : t :=
  mk c ∅ (list_to_set (DetectionConfig.whitelisted_ips c)).

Definition minutes_ns (m : Z) : Z := m * 60 * 1000000000.

(** Section 3: a record with [now > expires_at] that is not permanent is
    logically absent. *)
Definition isExpired (now : Z) (b : BlockedIP) : bool :=
  negb (permanent b) && (expires_at b <? now).

(** [is_blocked(addr, now)]: true iff a non-expired record exists. *)
Definition isBlocked (addr now : Z) (m : t) : bool :=
  match blocked_ips_ m !! addr with
  | Some b => negb (isExpired now b)
  | None => false
  end.

(** The record with the earliest [expires_at] that is not permanent. *)
Definition earliest_expiring (tbl : gmap Z BlockedIP) : option BlockedIP :=
  fold_right
    (fun (kv : Z * BlockedIP) (best : option BlockedIP) =>
       if permanent kv.2 then best
       else match best with
            | Some b => if expires_at kv.2 <? expires_at b
                        then Some kv.2 else best
            | None => Some kv.2
            end)
    None (map_to_list tbl).

(** [block(addr, reason, duration, now)]: insert or extend; extension takes
    the later expiry and counts one more violation; a full table evicts the
    earliest-expiring record that is not permanent, or refuses silently. *)
Definition blockIP (addr : Z) (why : AttackType) (duration_min now : Z)
    (m : t) : t :=
  let until := now + minutes_ns duration_min in
  match blocked_ips_ m !! addr with
  | Some b =>
      let b' := mkBlockedIP (ip b) (blocked_at b)
                  (Z.max (expires_at b) until) (reason b)
                  (violation_count b + 1) (permanent b) in
      mk (config_ m) (<[addr := b']> (blocked_ips_ m)) (whitelist_ m)
  | None =>
      let fresh := mkBlockedIP addr now until why 1 false in
      if Z.of_nat (size (blocked_ips_ m))
         <? DetectionConfig.max_concurrent_blocks (config_ m)
      then mk (config_ m) (<[addr := fresh]> (blocked_ips_ m)) (whitelist_ m)
      else match earliest_expiring (blocked_ips_ m) with
           | Some victim =>
               mk (config_ m)
                  (<[addr := fresh]> (delete (ip victim) (blocked_ips_ m)))
                  (whitelist_ m)
           | None => m
           end
  end.

Definition unblockIP (addr : Z) (m : t) : bool * t :=
  match blocked_ips_ m !! addr with
  | Some _ => (true, mk (config_ m) (delete addr (blocked_ips_ m))
                        (whitelist_ m))
  | None => (false, m)
  end.

(** [cleanup(now)]: removes expired records. *)
Definition cleanup (now : Z) (m : t) : t :=
  mk (config_ m)
     (filter (fun kv : Z * BlockedIP => isExpired now kv.2 = false)
             (blocked_ips_ m))
     (whitelist_ m).

Definition getBlockedIPs (m : t) : list BlockedIP :=
  map snd (map_to_list (blocked_ips_ m)).

Definition addWhitelist (addr : Z) (m : t) : t :=
  mk (config_ m) (blocked_ips_ m) ({[addr]} ∪ whitelist_ m).

Definition removeWhitelist (addr : Z) (m : t) : t :=
  mk (config_ m) (blocked_ips_ m) (whitelist_ m ∖ {[addr]}).

Definition isWhitelisted (addr : Z) (m : t) : bool :=
  bool_decide (addr ∈ whitelist_ m).

(** Modelled from the spec: the mitigation policy of section 4.F step 8.
    Severity HIGH or above with [auto_block_enabled] blocks the source for
    [auto_block_duration]; severity MEDIUM drops the current packet only;
    anything else is logged only. *)
Definition mitigate (alert : ThreatAlert) (now : Z) (m : t)
    : MitigationAction * t :=
  if (ThreatLevel_rank HIGH <=? ThreatLevel_rank (severity alert))
     && DetectionConfig.auto_block_enabled (config_ m)
  then (BLOCK_IP,
        blockIP (alert_source_ip alert) (attack_type alert)
                (DetectionConfig.auto_block_duration (config_ m)) now m)
  else if ThreatLevel_rank (severity alert) =? ThreatLevel_rank MEDIUM
  then (DROP_PACKET, m)
  else (LOG_ONLY, m).

End MitigationEngine.

(** ** performance/lock_free.hpp *)

Module LockFreeRingBuffer.

(** Modelled from the spec: the header [performance/lock_free.hpp] is
    absent.  Section 4.H gives a bounded ring of records: a push on a full
    ring fails without blocking, a pop takes the oldest record.  The ring
    is the list of the records it holds, oldest first. *)
Section Ring.

Context {T : Type}.
Variable Capacity : Z.

Definition push (x : T) (q : list T) : option (list T) :=
  if Z.of_nat (length q) <? Capacity then Some (q ++ [x]) else None.

Definition pop (q : list T) : option (T * list T) :=
  match q with
  | [] => None
  | x :: q' => Some (x, q')
  end.

End Ring.

End LockFreeRingBuffer.

(** ** monitor/logger.hpp *)

Inductive Exception : Type :=
  | runtime_error (what : string).

Module LogEntry.

Inductive Level : Type :=
  | TRACE | DEBUG | INFO | WARNING | ERROR | CRITICAL.

Definition rank (l : Level) : Z :=
  match l with
  | TRACE => 0 | DEBUG => 1 | INFO => 2
  | WARNING => 3 | ERROR => 4 | CRITICAL => 5
  end.

Record t : Type := mk {
  timestamp : Z;
  level     : Level;
  source    : string;
  message   : string;
  threat    : option ThreatAlert
}.

End LogEntry.

Module Logger.

Definition QueueCapacity : Z := 8192.

(** [log_file_] is the sequence of records appended to the sink, and
    [console_] the sequence echoed to standard output. *)
Record t : Type := mk {
  log_queue_      : list LogEntry.t;
  writer_thread_  : bool;               (* joinable *)
  running_        : bool;
  log_file_open_  : bool;
  log_file_       : list LogEntry.t;
  console_        : list LogEntry.t;
  filename_       : string;
  min_level_      : LogEntry.Level;
  console_output_ : bool;
  logs_written_   : Z;
  logs_dropped_   : Z
}.

(** The constructor throws when the file cannot be opened; [opens] is the
    outcome of [log_file_.open]. *)
Definition opened (filename : string) : t :=
  mk [] false false true [] [] filename LogEntry.INFO true 0 0.

Definition new (filename : string) (opens : bool) : Exception + t :=
  if opens
  then inr (opened filename)
  else inl (runtime_error
              (String.append "Failed to open log file: " filename)).

Definition set_queue (q : list LogEntry.t) (l : t) : t :=
  mk q (writer_thread_ l) (running_ l) (log_file_open_ l) (log_file_ l)
     (console_ l) (filename_ l) (min_level_ l) (console_output_ l)
     (logs_written_ l) (logs_dropped_ l).

Definition start (l : t) : t :=
  if running_ l then l
  else mk (log_queue_ l) true true (log_file_open_ l) (log_file_ l)
          (console_ l) (filename_ l) (min_level_ l) (console_output_ l)
          (logs_written_ l) (logs_dropped_ l).

(** [writeLog]: a closed stream ignores the insertion. *)
Definition writeLog (entry : LogEntry.t) (l : t) : t :=
  mk (log_queue_ l) (writer_thread_ l) (running_ l) (log_file_open_ l)
     (if log_file_open_ l then log_file_ l ++ [entry] else log_file_ l)
     (if console_output_ l then console_ l ++ [entry] else console_ l)
     (filename_ l) (min_level_ l) (console_output_ l)
     (U64.fetch_add (logs_written_ l) 1) (logs_dropped_ l).

(** One pass through the body of [writerLoop], taken by the writer thread
    while [running_] holds. *)
Definition writerLoop_iteration (l : t) : t :=
  if running_ l then
    match LockFreeRingBuffer.pop (log_queue_ l) with
    | Some (entry, q) => writeLog entry (set_queue q l)
    | None => l
    end
  else l.

(** [while (log_queue_.pop(entry)) writeLog(entry);] *)
Fixpoint flush (pending : list LogEntry.t) (l : t) : t :=
  match pending with
  | [] => set_queue [] l
  | entry :: rest => flush rest (writeLog entry (set_queue rest l))
  end.

Definition stop (l : t) : t :=
  if negb (running_ l) then l
  else
    let joined :=
      mk (log_queue_ l) false false (log_file_open_ l) (log_file_ l)
         (console_ l) (filename_ l) (min_level_ l) (console_output_ l)
         (logs_written_ l) (logs_dropped_ l) in
    let flushed := flush (log_queue_ joined) joined in
    mk (log_queue_ flushed) (writer_thread_ flushed) (running_ flushed)
       false (log_file_ flushed) (console_ flushed) (filename_ flushed)
       (min_level_ flushed) (console_output_ flushed)
       (logs_written_ flushed) (logs_dropped_ flushed).

Definition log (now : Z) (lvl : LogEntry.Level) (src msg : string)
    (thr : option ThreatAlert) (l : t) : t :=
  if LogEntry.rank lvl <? LogEntry.rank (min_level_ l) then l
  else
    let entry := LogEntry.mk now lvl src msg thr in
    match LockFreeRingBuffer.push QueueCapacity entry (log_queue_ l) with
    | Some q => set_queue q l
    | None =>
        mk (log_queue_ l) (writer_thread_ l) (running_ l)
           (log_file_open_ l) (log_file_ l) (console_ l) (filename_ l)
           (min_level_ l) (console_output_ l) (logs_written_ l)
           (U64.fetch_add (logs_dropped_ l) 1)
    end.

Definition info (now : Z) (src msg : string) : t -> t :=
  log now LogEntry.INFO src msg None.

Definition warning (now : Z) (src msg : string) : t -> t :=
  log now LogEntry.WARNING src msg None.

Definition critical (now : Z) (src msg : string) (thr : ThreatAlert)
    : t -> t :=
  log now LogEntry.CRITICAL src msg (Some thr).

Definition trace (now : Z) (src msg : string) : t -> t :=
  log now LogEntry.TRACE src msg None.

Definition debug (now : Z) (src msg : string) : t -> t :=
  log now LogEntry.DEBUG src msg None.

Definition error (now : Z) (src msg : string) : t -> t :=
  log now LogEntry.ERROR src msg None.

Definition setMinLevel (lvl : LogEntry.Level) (l : t) : t :=
  mk (log_queue_ l) (writer_thread_ l) (running_ l) (log_file_open_ l)
     (log_file_ l) (console_ l) (filename_ l) lvl (console_output_ l)
     (logs_written_ l) (logs_dropped_ l).

Definition setConsoleOutput (enable : bool) (l : t) : t :=
  mk (log_queue_ l) (writer_thread_ l) (running_ l) (log_file_open_ l)
     (log_file_ l) (console_ l) (filename_ l) (min_level_ l) enable
     (logs_written_ l) (logs_dropped_ l).

Definition getLogsWritten (l : t) : Z := logs_written_ l.

Definition getLogsDropped (l : t) : Z := logs_dropped_ l.

(** What the clients of a logger and its writer thread do, one atomic
    step at a time. *)
Inductive Op : Type :=
  | Log (now : Z) (lvl : LogEntry.Level) (src msg : string)
        (thr : option ThreatAlert)
  | WriterPass
  | StartLogger
  | StopLogger
  | SetMinLevel (lvl : LogEntry.Level)
  | SetConsoleOutput (enable : bool).

Definition op (o : Op) (l : t) : t :=
  match o with
  | Log now lvl src msg thr => log now lvl src msg thr l
  | WriterPass => writerLoop_iteration l
  | StartLogger => start l
  | StopLogger => stop l
  | SetMinLevel lvl => setMinLevel lvl l
  | SetConsoleOutput enable => setConsoleOutput enable l
  end.

Definition run (ops : list Op) (l : t) : t :=
  fold_left (fun l o => op o l) ops l.

(** The steps that carry records: a [log] call or a pass of the writer. *)
Definition is_traffic (o : Op) : bool :=
  match o with
  | Log _ _ _ _ _ | WriterPass => true
  | _ => false
  end.

(** The records the [log] calls among [ops] build, in the order of the
    calls, for those at or above the level [min_level]. *)
Definition requested (min_level : LogEntry.Level) (ops : list Op)
    : list LogEntry.t :=
  flat_map
    (fun o =>
       match o with
       | Log now lvl src msg thr =>
           if LogEntry.rank lvl <? LogEntry.rank min_level then []
           else [LogEntry.mk now lvl src msg thr]
       | _ => []
       end)
    ops.

End Logger.

(** ** grid_watcher.hpp *)

(** The parts of the repository the engine calls whose sources are absent:
    they are parameters of the engine.  [analyze] threads the analyzer's
    per-source state; [shouldDropPacket] is the rate pre-check of the
    mitigation engine. *)
Class Collaborators : Type := {
  hash64                 : Z -> Z;
  rotation               : Z;
  BehavioralAnalyzer     : Type;
  BehavioralAnalyzer_new : DetectionConfig.t -> BehavioralAnalyzer;
  analyze                : PacketMetadata -> BehavioralAnalyzer ->
                           list ThreatAlert * BehavioralAnalyzer;
  isModbusTCP            : list Byte.byte -> bool;
  ModbusParser_parse     : list Byte.byte -> option PacketMetadata;
  shouldDropPacket       : PacketMetadata -> Z -> MitigationEngine.t -> bool;
  ipv4_toString          : Z -> string;
  AttackType_to_string   : AttackType -> string;
  MitigationAction_to_string : MitigationAction -> string
}.

(** The clock readings of one call: the wall clock in nanoseconds, the
    time the analyzer took and the time the whole call took, as the
    steady clock measured them. *)
Record Clock : Type := mkClock {
  wall_ns      : Z;
  analysis_ns  : Z;
  elapsed_ns   : Z
}.

(** Calls into the protocol parser, in the order they are made. *)
Inductive ParserCall : Type :=
  | Call_isModbusTCP (data : list Byte.byte)
  | Call_ModbusParser_parse (data : list Byte.byte).

Module GridWatcher.

Section Engine.

Context `{Collaborators}.

Record t : Type := mk {
  config_                : DetectionConfig.t;
  analyzer_              : BehavioralAnalyzer;
  mitigation_            : MitigationEngine.t;
  logger_                : Logger.t;
  stats_                 : Statistics.t;
  metrics_               : MetricsManager.t;
  blocked_ips_cache_     : BloomFilter.t;
  whitelisted_ips_cache_ : BloomFilter.t;
  running_               : bool
}.

Definition with_logger (f : Logger.t -> Logger.t) (e : t) : t :=
  mk (config_ e) (analyzer_ e) (mitigation_ e) (f (logger_ e)) (stats_ e)
     (metrics_ e) (blocked_ips_cache_ e) (whitelisted_ips_cache_ e)
     (running_ e).

Definition with_stats (f : Statistics.t -> Statistics.t) (e : t) : t :=
  mk (config_ e) (analyzer_ e) (mitigation_ e) (logger_ e) (f (stats_ e))
     (metrics_ e) (blocked_ips_cache_ e) (whitelisted_ips_cache_ e)
     (running_ e).

Definition with_metrics (f : MetricsManager.t -> MetricsManager.t) (e : t)
    : t :=
  mk (config_ e) (analyzer_ e) (mitigation_ e) (logger_ e) (stats_ e)
     (f (metrics_ e)) (blocked_ips_cache_ e) (whitelisted_ips_cache_ e)
     (running_ e).

Definition with_mitigation (f : MitigationEngine.t -> MitigationEngine.t)
    (e : t) : t :=
  mk (config_ e) (analyzer_ e) (f (mitigation_ e)) (logger_ e) (stats_ e)
     (metrics_ e) (blocked_ips_cache_ e) (whitelisted_ips_cache_ e)
     (running_ e).

Definition with_analyzer (a : BehavioralAnalyzer) (e : t) : t :=
  mk (config_ e) a (mitigation_ e) (logger_ e) (stats_ e)
     (metrics_ e) (blocked_ips_cache_ e) (whitelisted_ips_cache_ e)
     (running_ e).

Definition with_blocked_cache (f : BloomFilter.t -> BloomFilter.t) (e : t)
    : t :=
  mk (config_ e) (analyzer_ e) (mitigation_ e) (logger_ e) (stats_ e)
     (metrics_ e) (f (blocked_ips_cache_ e)) (whitelisted_ips_cache_ e)
     (running_ e).

Definition with_whitelisted_cache (f : BloomFilter.t -> BloomFilter.t)
    (e : t) : t :=
  mk (config_ e) (analyzer_ e) (mitigation_ e) (logger_ e) (stats_ e)
     (metrics_ e) (blocked_ips_cache_ e) (f (whitelisted_ips_cache_ e))
     (running_ e).

Definition with_running (b : bool) (e : t) : t :=
  mk (config_ e) (analyzer_ e) (mitigation_ e) (logger_ e) (stats_ e)
     (metrics_ e) (blocked_ips_cache_ e) (whitelisted_ips_cache_ e) b.

Definition cache_add : Z -> BloomFilter.t -> BloomFilter.t :=
  BloomFilter.add hash64 rotation.

Definition cache_contains : Z -> BloomFilter.t -> bool :=
  BloomFilter.contains hash64 rotation.

(** The constructor, once [logger_] is built: the member initialisers,
    then the body, which fills the whitelist cache, starts the logger and
    logs. *)
Definition construct (config : DetectionConfig.t) (logger : Logger.t)
    (now : Z) : t :=
  let e0 :=
    mk config (BehavioralAnalyzer_new config)
       (MitigationEngine.new config) logger (Statistics.new now)
       MetricsManager.new BloomFilter.new BloomFilter.new false in
  let e1 :=
    fold_left (fun e addr => with_whitelisted_cache (cache_add addr) e)
              (DetectionConfig.whitelisted_ips config) e0 in
  let e2 := with_logger Logger.start e1 in
  with_logger
    (Logger.info now "GridWatcher" "Grid-Watcher initialized successfully")
    e2.

(** The constructor.  Building [logger_] throws when the log file cannot
    be opened; [log_opens] is whether it can. *)
Definition new (config : DetectionConfig.t) (log_file : string)
    (log_opens : bool) (now : Z) : Exception + t :=
  match Logger.new log_file log_opens with
  | inl exn => inl exn
  | inr logger => inr (construct config logger now)
  end.

Definition start (now : Z) (e : t) : t :=
  if running_ e
  then with_logger (Logger.warning now "GridWatcher" "Already running") e
  else with_logger
         (Logger.info now "GridWatcher"
            "Grid-Watcher started - Monitoring SCADA network")
         (with_running true e).

Definition stop (now : Z) (e : t) : t :=
  if negb (running_ e) then e
  else
    let e1 := with_running false e in
    let e2 := with_logger
                (Logger.info now "GridWatcher" "Stopping Grid-Watcher...")
                e1 in
    with_logger Logger.stop e2.

(** [getStatistics], read at wall-clock tick [now]. *)
Definition getStatistics (now : Z) (e : t) : Statistics.Snapshot :=
  Statistics.getSnapshot now (stats_ e).

(** The metadata [buildPacketMetadata] starts from: addresses, ports,
    size and timestamp filled in, every other field default-initialised. *)
Definition minimal_metadata (size src dst sport dport now : Z)
    : PacketMetadata :=
  mkPacketMetadata now src dst sport dport UNKNOWN size
                   0 0 0 0 0 false false false.

Definition set_malformed (m : PacketMetadata) : PacketMetadata :=
  mkPacketMetadata (timestamp m) (source_ip m) (dest_ip m) (source_port m)
    (dest_port m) (protocol m) (packet_size m) (transaction_id m)
    (unit_id m) (function_code m) (register_address m) (register_count m)
    (is_response m) (has_exception m) true.

Definition set_protocol (p : ProtocolType) (m : PacketMetadata)
    : PacketMetadata :=
  mkPacketMetadata (timestamp m) (source_ip m) (dest_ip m) (source_port m)
    (dest_port m) p (packet_size m) (transaction_id m)
    (unit_id m) (function_code m) (register_address m) (register_count m)
    (is_response m) (has_exception m) (is_malformed m).

Definition set_endpoints (src dst sport dport : Z) (m : PacketMetadata)
    : PacketMetadata :=
  mkPacketMetadata (timestamp m) src dst sport dport (protocol m)
    (packet_size m) (transaction_id m)
    (unit_id m) (function_code m) (register_address m) (register_count m)
    (is_response m) (has_exception m) (is_malformed m).

(** [buildPacketMetadata], returning the metadata together with the calls
    it made into the protocol parser. *)
Definition buildPacketMetadata (e : t) (packet_data : list Byte.byte)
    (src dst sport dport now : Z) : PacketMetadata * list ParserCall :=
  let meta :=
    minimal_metadata (Z.of_nat (length packet_data)) src dst sport dport now
  in
  if (dport =? 502) || (sport =? 502) then
    if isModbusTCP packet_data then
      match ModbusParser_parse packet_data with
      | Some parsed =>
          (set_protocol MODBUS_TCP (set_endpoints src dst sport dport parsed),
           [Call_isModbusTCP packet_data;
            Call_ModbusParser_parse packet_data])
      | None =>
          (set_protocol MODBUS_TCP (set_malformed meta),
           [Call_isModbusTCP packet_data;
            Call_ModbusParser_parse packet_data])
      end
    else
      (set_protocol MODBUS_TCP (set_malformed meta),
       [Call_isModbusTCP packet_data])
  else (meta, []).

Definition recordLatency (c : Clock) (e : t) : t :=
  with_metrics (MetricsManager.record_packet_latency (elapsed_ns c)) e.

(** The callback registered in the constructor. *)
Definition handleMitigationAction (now : Z) (alert : ThreatAlert)
    (action : MitigationAction) (e : t) : t :=
  let msg :=
    String.append "Mitigation: "
      (String.append (MitigationAction_to_string action)
         (String.append " for "
            (String.append (ipv4_toString (alert_source_ip alert))
               (String.append " due to "
                  (AttackType_to_string (attack_type alert)))))) in
  match action with
  | BLOCK_IP => with_logger (Logger.warning now "Mitigation" msg) e
  | _ => with_logger (Logger.info now "Mitigation" msg) e
  end.

(** [mitigation_.mitigate(threat)]: the policy decides; the mitigation
    engine, whose source is absent, is taken to invoke the callback
    registered in the constructor once for the alert and its action. *)
Definition mitigate (now : Z) (alert : ThreatAlert) (e : t)
    : MitigationAction * t :=
  let '(action, m) := MitigationEngine.mitigate alert now (mitigation_ e) in
  (action, handleMitigationAction now alert action
             (with_mitigation (fun _ => m) e)).

(** The body of the loop over the detected threats. *)
Definition process_threat (now src_ip_int : Z)
    (acc : bool * t) (alert : ThreatAlert) : bool * t :=
  let '(should_drop, e) := acc in
  let e1 := with_stats Statistics.incrementThreatsDetected e in
  let e2 := with_logger
              (Logger.critical now "ThreatDetector" (description alert)
                               alert) e1 in
  let '(action, e3) := mitigate now alert e2 in
  let e4 :=
    match action with
    | BLOCK_IP => with_blocked_cache (cache_add src_ip_int) e3
    | _ => e3
    end in
  let should_drop' :=
    match action with
    | DROP_PACKET | BLOCK_IP => true
    | _ => should_drop
    end in
  (should_drop', e4).

(** The hot path.  The result is [true] for ALLOW, [false] for DROP. *)
Definition processPacket (c : Clock) (packet_data : list Byte.byte)
    (source_ip dest_ip source_port dest_port : Z) (e : t) : bool * t :=
  let now := wall_ns c in
  let size := Z.of_nat (length packet_data) in
  let e := with_stats Statistics.incrementPacketsProcessed e in
  let src_ip_int := source_ip in
  if cache_contains src_ip_int (whitelisted_ips_cache_ e) then
    let e := with_stats Statistics.incrementPacketsAllowed e in
    let e := with_metrics (MetricsManager.record_throughput now size) e in
    (true, e)
  else if cache_contains src_ip_int (blocked_ips_cache_ e)
          && MitigationEngine.isBlocked source_ip now (mitigation_ e) then
    let e := with_stats Statistics.incrementPacketsDropped e in
    (false, recordLatency c e)
  else
    let meta :=
      fst (buildPacketMetadata e packet_data source_ip dest_ip
                               source_port dest_port now) in
    if shouldDropPacket meta now (mitigation_ e) then
      let e := with_stats Statistics.incrementPacketsDropped e in
      (false, recordLatency c e)
    else
      let '(threats, a) := analyze meta (analyzer_ e) in
      let e := with_analyzer a e in
      let e :=
        with_metrics (MetricsManager.record_threat_latency (analysis_ns c))
                     e in
      let '(should_drop, e) :=
        fold_left (process_threat now src_ip_int) threats (false, e) in
      let e :=
        if should_drop
        then with_stats Statistics.incrementPacketsDropped e
        else with_metrics (MetricsManager.record_throughput now size)
               (with_stats Statistics.incrementPacketsAllowed e) in
      (negb should_drop, recordLatency c e).

(** The state the whitelist fast path leaves: the packet counted as
    processed and allowed, its size recorded in the throughput tracker,
    nothing else touched. *)
Definition allowed_on_fast_path (c : Clock) (packet_data : list Byte.byte)
    (e : t) : t :=
  with_metrics
    (MetricsManager.record_throughput (wall_ns c)
       (Z.of_nat (length packet_data)))
    (with_stats Statistics.incrementPacketsAllowed
       (with_stats Statistics.incrementPacketsProcessed e)).

(** Manual IP management. *)
Definition blockIP (now : Z) (addr : Z) (why : AttackType) (e : t) : t :=
  let e := with_mitigation
             (MitigationEngine.blockIP addr why
                (DetectionConfig.auto_block_duration (config_ e)) now) e in
  let e := with_blocked_cache (cache_add addr) e in
  with_logger
    (Logger.warning now "ManualControl"
       (String.append "IP manually blocked: " (ipv4_toString addr))) e.

Definition unblockIP (now : Z) (addr : Z) (e : t) : t :=
  let '(removed, m) := MitigationEngine.unblockIP addr (mitigation_ e) in
  let e := with_mitigation (fun _ => m) e in
  if removed
  then with_logger
         (Logger.info now "ManualControl"
            (String.append "IP manually unblocked: " (ipv4_toString addr))) e
  else e.

Definition addWhitelist (now : Z) (addr : Z) (e : t) : t :=
  let e := with_mitigation (MitigationEngine.addWhitelist addr) e in
  let e := with_whitelisted_cache (cache_add addr) e in
  with_logger
    (Logger.info now "ManualControl"
       (String.append "IP added to whitelist: " (ipv4_toString addr))) e.

Definition removeWhitelist (now : Z) (addr : Z) (e : t) : t :=
  let e := with_mitigation (MitigationEngine.removeWhitelist addr) e in
  with_logger
    (Logger.info now "ManualControl"
       (String.append "IP removed from whitelist: " (ipv4_toString addr))) e.

(** One wake-up of [cleanupLoop] while the engine runs. *)
Definition cleanup_tick (now : Z) (e : t) : t :=
  if running_ e then
    with_logger (Logger.info now "Cleanup" "Periodic cleanup completed")
      (with_mitigation (MitigationEngine.cleanup now) e)
  else e.

(** One wake-up of [monitorLoop]; [report] is the rendered statistics
    line. *)
Definition monitor_tick (now : Z) (report : string) (e : t) : t :=
  if running_ e then with_logger (Logger.info now "Monitor" report) e
  else e.

(** The calls a client, a worker or a background thread makes on a
    constructed engine. *)
Inductive Call : Type :=
  | Start (now : Z)
  | Stop (now : Z)
  | ProcessPacket (c : Clock) (packet_data : list Byte.byte)
                  (source_ip dest_ip source_port dest_port : Z)
  | BlockIP (now addr : Z) (why : AttackType)
  | UnblockIP (now addr : Z)
  | AddWhitelist (now addr : Z)
  | RemoveWhitelist (now addr : Z)
  | CleanupTick (now : Z)
  | MonitorTick (now : Z) (report : string).

Definition call (k : Call) (e : t) : t :=
  match k with
  | Start now => start now e
  | Stop now => stop now e
  | ProcessPacket c d s dst sp dp => snd (processPacket c d s dst sp dp e)
  | BlockIP now a why => blockIP now a why e
  | UnblockIP now a => unblockIP now a e
  | AddWhitelist now a => addWhitelist now a e
  | RemoveWhitelist now a => removeWhitelist now a e
  | CleanupTick now => cleanup_tick now e
  | MonitorTick now r => monitor_tick now r e
  end.

Definition calls (ks : list Call) (e : t) : t :=
  fold_left (fun e k => call k e) ks e.

(** Every address that has a record in the block table hits the blocked
    cache: [blockIP] and the loop over the threats add to the cache what
    they block. *)
Definition blocks_are_cached (e : t) : Prop :=
  forall addr b,
    MitigationEngine.blocked_ips_ (mitigation_ e) !! addr = Some b ->
    cache_contains addr (blocked_ips_cache_ e) = true.

(** What happens around an engine, one atomic step at a time: one of the
    calls above, or a pass of the writer thread of its logger. *)
Inductive Event : Type :=
  | Client (k : Call)
  | LogWriterPass.

Definition event (ev : Event) (e : t) : t :=
  match ev with
  | Client k => call k e
  | LogWriterPass => with_logger Logger.writerLoop_iteration e
  end.

Definition events (evs : list Event) (e : t) : t :=
  fold_left (fun e ev => event ev e) evs e.

End Engine.

End GridWatcher.

(** ** processing/packet_processor.hpp *)

Record PacketJob : Type := mkPacketJob {
  received_at     : Z;
  job_data        : list Byte.byte;
  job_source_ip   : Z;
  job_dest_ip     : Z;
  job_source_port : Z;
  job_dest_port   : Z;
  processed       : bool;
  allowed         : bool
}.

(** A default-constructed job. *)
Definition PacketJob_default : PacketJob :=
  mkPacketJob 0 [] 0 0 0 0 false true.

Module PacketQueue.

Record Slot : Type := mkSlot {
  sequence : Z;
  job      : PacketJob
}.

Record t : Type := mk {
  slots_       : list Slot;
  enqueue_pos_ : Z;
  dequeue_pos_ : Z
}.

Section Queue.

(** The template parameter. *)
Variable Capacity : Z.

(** [n] default-constructed slots, numbered from [i]. *)
Fixpoint numbered_slots (n : nat) (i : Z) : list Slot :=
  match n with
  | O => []
  | S n' => mkSlot i PacketJob_default :: numbered_slots n' (i + 1)
  end.

(** The constructor: slot [i] starts with sequence [i]. *)
Definition new : t := mk (numbered_slots (Z.to_nat Capacity) 0) 0 0.

Definition slot_index (pos : Z) : nat := Z.to_nat (pos mod Capacity).

(** The retry loop of [enqueue].  Without a concurrent producer the
    compare-and-swap on [enqueue_pos_] succeeds; [fuel] bounds the number
    of passes and [None] stands for a loop still turning when it runs
    out, or for an index outside [slots_]. *)
Fixpoint enqueue_loop (fuel : nat) (pos : Z) (j : PacketJob) (q : t)
    : option (bool * t) :=
  match fuel with
  | O => None
  | S fuel' =>
      match slots_ q !! slot_index pos with
      | None => None
      | Some slot =>
          let seq := sequence slot in
          let diff := U64.to_signed seq - U64.to_signed pos in
          if diff =? 0 then
            Some (true,
                  mk (<[slot_index pos := mkSlot (U64.wrap (pos + 1)) j]>
                        (slots_ q))
                     (U64.wrap (pos + 1)) (dequeue_pos_ q))
          else if diff <? 0 then Some (false, q)
          else enqueue_loop fuel' (enqueue_pos_ q) j q
      end
  end.

Definition enqueue (fuel : nat) (j : PacketJob) (q : t)
    : option (bool * t) :=
  enqueue_loop fuel (enqueue_pos_ q) j q.

(** The retry loop of [dequeue]; the job moved out is returned with the
    queue. *)
Fixpoint dequeue_loop (fuel : nat) (pos : Z) (q : t)
    : option (option PacketJob * t) :=
  match fuel with
  | O => None
  | S fuel' =>
      match slots_ q !! slot_index pos with
      | None => None
      | Some slot =>
          let seq := sequence slot in
          let diff :=
            U64.to_signed seq - U64.to_signed (U64.wrap (pos + 1)) in
          if diff =? 0 then
            Some (Some (job slot),
                  mk (<[slot_index pos :=
                          mkSlot (U64.wrap (pos + Capacity)) (job slot)]>
                        (slots_ q))
                     (enqueue_pos_ q) (U64.wrap (pos + 1)))
          else if diff <? 0 then Some (None, q)
          else dequeue_loop fuel' (dequeue_pos_ q) q
      end
  end.

Definition dequeue (fuel : nat) (q : t) : option (option PacketJob * t) :=
  dequeue_loop fuel (dequeue_pos_ q) q.

(** The number of jobs enqueued and not yet dequeued. *)
Definition depth (q : t) : Z := enqueue_pos_ q - dequeue_pos_ q.

Definition is_full (q : t) : bool := depth q =? Capacity.

(** The jobs held, oldest first. *)
Definition contents (q : t) : list PacketJob :=
  omap (fun k => job <$> (slots_ q !! slot_index (dequeue_pos_ q + Z.of_nat k)))
       (seq 0 (Z.to_nat (depth q))).

(** The sequence number the protocol keeps in the slot of position [p]:
    [p + 1] once the job of position [p] is published, [p] while the slot
    is free for it. *)
Definition expected_sequence (q : t) (p : Z) : Z :=
  if p <? enqueue_pos_ q then p + 1 else p.

(** The queue an accepted [enqueue] leaves. *)
Definition enqueued (j : PacketJob) (q : t) : t :=
  mk (<[slot_index (enqueue_pos_ q)
        := mkSlot (enqueue_pos_ q + 1) j]> (slots_ q))
     (enqueue_pos_ q + 1) (dequeue_pos_ q).

(** The position in [dequeue_pos_, dequeue_pos_ + Capacity) that maps to
    slot [i]. *)
Definition position_of (q : t) (i : Z) : Z :=
  dequeue_pos_ q + (i - dequeue_pos_ q) mod Capacity.

(** Every slot of [slots], the first of which has index [i], carries the
    sequence number of the position that maps to it. *)
Fixpoint sequences_ok (q : t) (i : Z) (slots : list Slot) : bool :=
  match slots with
  | [] => true
  | s :: rest =>
      (sequence s =? expected_sequence q (position_of q i))
      && sequences_ok q (i + 1) rest
  end.

(** The representation invariant of a queue no thread is operating on:
    the positions are in order and at most [Capacity] apart, and every
    slot carries the sequence number of the position that maps to it. *)
Definition invariant (q : t) : Prop :=
  2 <= Capacity
  /\ Z.of_nat (length (slots_ q)) = Capacity
  /\ 0 <= dequeue_pos_ q <= enqueue_pos_ q
  /\ enqueue_pos_ q <= dequeue_pos_ q + Capacity
  /\ forall p, dequeue_pos_ q <= p < dequeue_pos_ q + Capacity ->
       exists s, slots_ q !! slot_index p = Some s
                 /\ sequence s = expected_sequence q p.

(** The invariant as a check that can be run, together with the bound
    that keeps the positions clear of the 64-bit wrap-around. *)
Definition well_formed (q : t) : bool :=
  (2 <=? Capacity)
  && (Z.of_nat (length (slots_ q)) =? Capacity)
  && (0 <=? dequeue_pos_ q)
  && (dequeue_pos_ q <=? enqueue_pos_ q)
  && (enqueue_pos_ q <=? dequeue_pos_ q + Capacity)
  && (enqueue_pos_ q + Capacity <? 2 ^ 63)
  && sequences_ok q 0 (slots_ q).

End Queue.

End PacketQueue.

Module PacketProcessor.

(** [PacketQueue<32768> queue_]. *)
Definition QueueCapacity : Z := 32768.

(** A worker thread: the job object local to [workerThread] and whether
    the thread has left its loop. *)
Record Worker : Type := mkWorker {
  worker_job : PacketJob;
  exited     : bool
}.

Section Processor.

Context `{Collaborators}.

(** [watcher_] is a reference: the processor's record carries the state
    of the engine it refers to. *)
Record t : Type := mk {
  watcher_                    : GridWatcher.t;
  queue_                      : PacketQueue.t;
  workers_                    : list Worker;
  running_                    : bool;
  num_threads_                : nat;
  packets_queued_             : Z;
  packets_processed_          : Z;
  packets_dropped_queue_full_ : Z
}.

Definition new (watcher : GridWatcher.t) (num_threads : nat) : t :=
  mk watcher (PacketQueue.new QueueCapacity) [] false num_threads 0 0 0.

Definition start (p : t) : t :=
  if running_ p then p
  else mk (watcher_ p) (queue_ p)
          (workers_ p
           ++ replicate (num_threads_ p) (mkWorker PacketJob_default false))
          true (num_threads_ p) (packets_queued_ p) (packets_processed_ p)
          (packets_dropped_queue_full_ p).

(** [submitPacket]; [None] only if the queue's retry loop does not end
    within [fuel] passes. *)
Definition submitPacket (fuel : nat) (now : Z) (data : list Byte.byte)
    (src_ip dst_ip src_port dst_port : Z) (p : t) : option (bool * t) :=
  let j := mkPacketJob now data src_ip dst_ip src_port dst_port false true in
  match PacketQueue.enqueue QueueCapacity fuel j (queue_ p) with
  | None => None
  | Some (true, q) =>
      Some (true,
            mk (watcher_ p) q (workers_ p) (running_ p) (num_threads_ p)
               (U64.fetch_add (packets_queued_ p) 1) (packets_processed_ p)
               (packets_dropped_queue_full_ p))
  | Some (false, q) =>
      Some (false,
            mk (watcher_ p) q (workers_ p) (running_ p) (num_threads_ p)
               (packets_queued_ p) (packets_processed_ p)
               (U64.fetch_add (packets_dropped_queue_full_ p) 1))
  end.

(** The body of the loop of [workerThread], run by worker [w] whose local
    job object is in [wk]. *)
Definition workerThread_body (fuel : nat) (c : Clock) (w : nat)
    (wk : Worker) (p : t) : option t :=
  match PacketQueue.dequeue QueueCapacity fuel (queue_ p) with
  | None => None
  | Some (Some j, q) =>
      let '(verdict, e) :=
        GridWatcher.processPacket c (job_data j) (job_source_ip j)
          (job_dest_ip j) (job_source_port j) (job_dest_port j)
          (watcher_ p) in
      let j' :=
        mkPacketJob (received_at j) (job_data j) (job_source_ip j)
          (job_dest_ip j) (job_source_port j) (job_dest_port j)
          true verdict in
      Some (mk e q (<[w := mkWorker j' false]> (workers_ p))
               (running_ p) (num_threads_ p) (packets_queued_ p)
               (U64.fetch_add (packets_processed_ p) 1)
               (packets_dropped_queue_full_ p))
  | Some (None, q) =>
      Some (mk (watcher_ p) q (workers_ p) (running_ p)
               (num_threads_ p) (packets_queued_ p)
               (packets_processed_ p) (packets_dropped_queue_full_ p))
  end.

(** Worker [w] leaves the loop and returns. *)
Definition workerThread_return (w : nat) (wk : Worker) (p : t) : t :=
  mk (watcher_ p) (queue_ p)
     (<[w := mkWorker (worker_job wk) true]> (workers_ p))
     (running_ p) (num_threads_ p) (packets_queued_ p)
     (packets_processed_ p) (packets_dropped_queue_full_ p).

(** One evaluation of the loop condition of [workerThread] by worker [w],
    followed by the loop body when [running_] holds and by the return
    when it does not. *)
Definition workerThread_iteration (fuel : nat) (c : Clock) (w : nat)
    (p : t) : option t :=
  match workers_ p !! w with
  | None => Some p
  | Some wk =>
      if exited wk then Some p
      else if running_ p then workerThread_body fuel c w wk p
      else Some (workerThread_return w wk p)
  end.

(** The workers at their loop condition read the cleared flag and
    return. *)
Definition return_workers (p : t) : t :=
  fold_left
    (fun acc w =>
       match workers_ acc !! w with
       | Some wk => if exited wk then acc else workerThread_return w wk acc
       | None => acc
       end)
    (seq 0 (length (workers_ p))) p.

(** A worker that had passed its loop condition before [running_] was
    cleared is in the body of the loop.  It runs that pass to its end
    (the dequeue and, if it took a job, [processPacket] and the counter),
    then reads the cleared flag and returns; [c] holds the clock readings
    of its call of [processPacket].  A worker that has returned makes no
    pass. *)
Definition finish_pass (fuel : nat) (wc : nat * Clock) (p : t)
    : option t :=
  match workers_ p !! wc.1 with
  | None => Some p
  | Some wk =>
      if exited wk then Some p
      else
        match workerThread_body fuel wc.2 wc.1 wk p with
        | None => None
        | Some p' =>
            match workers_ p' !! wc.1 with
            | Some wk' => Some (workerThread_return wc.1 wk' p')
            | None => Some p'
            end
        end
  end.

Fixpoint finish_passes (fuel : nat) (in_flight : list (nat * Clock))
    (p : t) : option t :=
  match in_flight with
  | [] => Some p
  | wc :: rest =>
      match finish_pass fuel wc p with
      | Some p' => finish_passes fuel rest p'
      | None => None
      end
  end.

(** [worker.join()] for each worker, [running_] being cleared.  Which
    workers are past their loop condition at that moment is the
    scheduler's choice, not a function of the state: [in_flight] lists
    them, in the order in which their passes end.  [join] waits for
    these passes; every other worker reads the flag at its loop condition
    and returns. *)
Definition join_workers (fuel : nat) (in_flight : list (nat * Clock))
    (p : t) : option t :=
  match finish_passes fuel in_flight p with
  | Some p' => Some (return_workers p')
  | None => None
  end.

(** [stop]; [None] only if a retry loop of the queue does not end within
    [fuel] passes. *)
Definition stop (fuel : nat) (in_flight : list (nat * Clock)) (p : t)
    : option t :=
  if negb (running_ p) then Some p
  else
    let cleared :=
      mk (watcher_ p) (queue_ p) (workers_ p) false (num_threads_ p)
         (packets_queued_ p) (packets_processed_ p)
         (packets_dropped_queue_full_ p) in
    match join_workers fuel in_flight cleared with
    | None => None
    | Some joined =>
        Some (mk (watcher_ joined) (queue_ joined) [] (running_ joined)
                 (num_threads_ joined) (packets_queued_ joined)
                 (packets_processed_ joined)
                 (packets_dropped_queue_full_ joined))
    end.

(** Whether a worker is still in its loop. *)
Definition live (wk : Worker) : bool := negb (exited wk).

(** The number of rejected submissions in a list of verdicts. *)
Definition rejections (oks : list bool) : Z :=
  Z.of_nat (length (List.filter negb oks)).

(** Submitting a list of packets one after the other, no worker running
    in between: the verdicts, oldest first, and the final state. *)
Fixpoint submit_all (fuel : nat) (now : Z)
    (packets : list (list Byte.byte * Z * Z * Z * Z)) (p : t)
    : option (list bool * t) :=
  match packets with
  | [] => Some ([], p)
  | (data, src, dst, sp, dp) :: rest =>
      match submitPacket fuel now data src dst sp dp p with
      | None => None
      | Some (ok, p') =>
          match submit_all fuel now rest p' with
          | None => None
          | Some (oks, p'') => Some (ok :: oks, p'')
          end
      end
  end.

(** What the threads around a processor do, one atomic step at a time: a
    producer calls [submitPacket], or worker [w] evaluates its loop
    condition and runs one pass of [workerThread]. *)
Inductive Step : Type :=
  | Submit (now : Z) (data : list Byte.byte)
           (src_ip dst_ip src_port dst_port : Z)
  | Work (c : Clock) (w : nat).

Definition step (fuel : nat) (s : Step) (p : t) : option t :=
  match s with
  | Submit now data src dst sp dp =>
      match submitPacket fuel now data src dst sp dp p with
      | Some (_, p') => Some p'
      | None => None
      end
  | Work c w => workerThread_iteration fuel c w p
  end.

(** An interleaving of producers and workers. *)
Fixpoint steps (fuel : nat) (ss : list Step) (p : t) : option t :=
  match ss with
  | [] => Some p
  | s :: rest =>
      match step fuel s p with
      | Some p' => steps fuel rest p'
      | None => None
      end
  end.

(** What a step keeps: the queue's invariant; the distance [room] of
    the positions from the 64-bit wrap-around; the difference of
    [packets_queued_] and [packets_processed_], which is the backlog plus
    a constant [surplus]; and the difference [offset] of the engine's
    count of processed packets and the processor's.  The counters are
    compared modulo 2^64. *)
Definition accounted (room surplus offset : Z) (p : t) : Prop :=
  PacketQueue.invariant QueueCapacity (queue_ p)
  /\ PacketQueue.enqueue_pos_ (queue_ p) + room + QueueCapacity < 2 ^ 63
  /\ U64.wrap (packets_queued_ p)
     = U64.wrap (packets_processed_ p + PacketQueue.depth (queue_ p)
                 + surplus)
  /\ U64.wrap (Statistics.packets_processed_
                 (GridWatcher.stats_ (watcher_ p)))
     = U64.wrap (packets_processed_ p + offset).

End Processor.

End PacketProcessor.

(** ** web/web_server.hpp : the JSON helper *)

Module JSON.

(** A [std::string] is the list of its characters. *)
Definition QUOTE     : ascii := "034"%char.
Definition BACKSLASH : ascii := "092"%char.
Definition BACKSPACE : ascii := "008"%char.
Definition FORMFEED  : ascii := "012"%char.
Definition NEWLINE   : ascii := "010"%char.
Definition RETURN    : ascii := "013"%char.
Definition TAB       : ascii := "009"%char.

(** The [switch] of [escape]: what one character adds to [result]. *)
Definition escape_char (c : ascii) : list ascii :=
  if Ascii.eqb c QUOTE then [BACKSLASH; QUOTE]
  else if Ascii.eqb c BACKSLASH then [BACKSLASH; BACKSLASH]
  else if Ascii.eqb c BACKSPACE then [BACKSLASH; "b"%char]
  else if Ascii.eqb c FORMFEED then [BACKSLASH; "f"%char]
  else if Ascii.eqb c NEWLINE then [BACKSLASH; "n"%char]
  else if Ascii.eqb c RETURN then [BACKSLASH; "r"%char]
  else if Ascii.eqb c TAB then [BACKSLASH; "t"%char]
  else [c].

(** The loop of [escape], [result] being what it has built so far. *)
Fixpoint escape_loop (result : list ascii) (str : list ascii)
    : list ascii :=
  match str with
  | [] => result
  | c :: rest => escape_loop (result ++ escape_char c) rest
  end.

Definition escape (str : list ascii) : list ascii := escape_loop [] str.

(** [JSON::string]. *)
Definition string (value : list ascii) : list ascii :=
  [QUOTE] ++ escape value ++ [QUOTE].

(** [JSON::boolean]. *)
Definition boolean (value : bool) : list ascii :=
  if value then list_ascii_of_string "true"
  else list_ascii_of_string "false".

End JSON.

(** The slot of one-second [s] after [record] found [w] there: the counts
    of [w] when [w] belongs to [s], zero otherwise, plus this packet. *)
Definition slot_after_record (s nbytes : Z) (w : ThroughputTracker.Window)
    : ThroughputTracker.Window :=
  if ThroughputTracker.timestamp_sec w =? s
  then ThroughputTracker.mkWindow
         (U64.wrap (ThroughputTracker.packets w + 1))
         (U64.wrap (ThroughputTracker.bytes w + nbytes)) s
  else ThroughputTracker.mkWindow (U64.wrap (0 + 1)) (U64.wrap (0 + nbytes)) s.

(** ** A stand-in for the absent collaborators

    Concrete inputs need concrete collaborators.  The stand-in hashes an
    address by a multiplicative mix, has an analyzer that reports a
    malformed packet and nothing else, accepts a buffer as Modbus/TCP when
    it holds the 12 bytes of section 4.C and never drops at the rate
    pre-check.  The general theorems below hold for every instance. *)

Definition stand_in_alert (m : PacketMetadata) : ThreatAlert :=
  mkThreatAlert (timestamp m) (source_ip m) (dest_ip m) MALFORMED_PACKET
                HIGH "Malformed packet" 1%float false.

#[local] Instance stand_in : Collaborators := {|
  hash64 := fun a => a * 11400714819323198485;
  rotation := 21;
  BehavioralAnalyzer := unit;
  BehavioralAnalyzer_new := fun _ => tt;
  analyze := fun m a =>
    (if is_malformed m then [stand_in_alert m] else [], a);
  isModbusTCP := fun d => 12 <=? Z.of_nat (length d);
  ModbusParser_parse := fun _ => None;
  shouldDropPacket := fun _ _ _ => false;
  ipv4_toString := fun _ => "a.b.c.d"%string;
  AttackType_to_string := fun _ => "attack"%string;
  MitigationAction_to_string := fun _ => "action"%string
|}.

(** 192.168.1.10, 10.0.0.66 and 192.168.1.100 as 32-bit values. *)
Definition ip_master : Z := 3232235786.
Definition ip_attacker : Z := 167772226.
Definition ip_plc : Z := 3232235876.

Definition noon : Clock := mkClock 1000000000000 250 340.

(** The stand-in with another analyzer: it blames 10.0.0.66 for every
    malformed packet it sees, whatever the source of the packet. *)
Definition accuser : Collaborators := {|
  hash64 := fun a => a * 11400714819323198485;
  rotation := 21;
  BehavioralAnalyzer := unit;
  BehavioralAnalyzer_new := fun _ => tt;
  analyze := fun m a =>
    (if is_malformed m
     then [mkThreatAlert (timestamp m) ip_attacker (dest_ip m)
             MALFORMED_PACKET HIGH "Malformed packet" 1%float false]
     else [], a);
  isModbusTCP := fun d => 12 <=? Z.of_nat (length d);
  ModbusParser_parse := fun _ => None;
  shouldDropPacket := fun _ _ _ => false;
  ipv4_toString := fun _ => "a.b.c.d"%string;
  AttackType_to_string := fun _ => "attack"%string;
  MitigationAction_to_string := fun _ => "action"%string
|}.

(** The engine the constructor builds from the default configuration,
    and the engine reached from it by a sequence of calls. *)
Definition fresh : GridWatcher.t :=
  GridWatcher.construct DetectionConfig.createDefault
    (Logger.opened "grid_watcher.log") (wall_ns noon).

Definition after (ks : list GridWatcher.Call) : GridWatcher.t :=
  GridWatcher.calls ks fresh.

(** The default configuration with one validated field zeroed. *)
Definition zero_packet_threshold : DetectionConfig.t :=
  DetectionConfig.mk 10 10 0 10000000 5 5%float 10 3%float [] []
    [502; 20000] true 60 1000 4096 8192 4.

(** A buffer of the 12 bytes section 4.C asks of a Modbus/TCP frame. *)
Definition twelve_bytes : list Byte.byte := replicate 12 Byte.x00.

(** A logger on an opened file, and the record [info 1 "Engine" "up"]
    leaves in its queue. *)
Definition quiet_logger : Logger.t := Logger.opened "grid_watcher.log".

Definition record_up : LogEntry.t :=
  LogEntry.mk 1 LogEntry.INFO "Engine" "up" None.

(** A processor on the fresh engine with two workers, and a packet from
    192.168.1.10 to port 502. *)
Definition fresh_processor : PacketProcessor.t :=
  PacketProcessor.new fresh 2.

Definition read_request : list Byte.byte * Z * Z * Z * Z :=
  (twelve_bytes, ip_master, ip_plc, 5000, 502).

Definition read_job : PacketJob :=
  mkPacketJob 9 twelve_bytes ip_master ip_plc 5000 502 false true.

(** The processor started and holding one submitted packet, and one
    packet more than the queue can hold. *)
Definition busy_processor : PacketProcessor.t :=
  match PacketProcessor.submitPacket 1 9 twelve_bytes ip_master ip_plc
          5000 502 (PacketProcessor.start fresh_processor) with
  | Some (_, p) => p
  | None => PacketProcessor.start fresh_processor
  end.

Definition flood : list (list Byte.byte * Z * Z * Z * Z) :=
  replicate (Z.to_nat (PacketProcessor.QueueCapacity + 1)) read_request.

(** The busy processor after two more submissions: three jobs are
    queued for its two workers. *)
Definition third_job : PacketJob :=
  mkPacketJob 11 twelve_bytes ip_master ip_plc 5002 502 false true.

Definition crowded_processor : PacketProcessor.t :=
  match PacketProcessor.steps 1
          [PacketProcessor.Submit 10 twelve_bytes ip_attacker ip_plc 5001 502;
           PacketProcessor.Submit 11 twelve_bytes ip_master ip_plc 5002 502]
          busy_processor with
  | Some p => p
  | None => busy_processor
  end.

(** A queue of four slots as constructed, and the same queue holding
    two jobs. *)
Definition small_queue : PacketQueue.t := PacketQueue.new 4.

Definition write_job : PacketJob :=
  mkPacketJob 10 twelve_bytes ip_attacker ip_plc 5001 502 false true.

Definition held_queue : PacketQueue.t :=
  PacketQueue.enqueued 4 write_job (PacketQueue.enqueued 4 read_job small_queue).

(** * Properties *)

(** ** Machine integers *)

Lemma wrap_small z : 0 <= z < U64.modulus -> U64.wrap z = z.
Proof. intros Hz. unfold U64.wrap. now apply Z.mod_small. Qed.

Lemma wrap_range z : 0 <= U64.wrap z < U64.modulus.
Proof. unfold U64.wrap. apply Z.mod_pos_bound. reflexivity. Qed.

Lemma to_signed_small z : 0 <= z < 2 ^ 63 -> U64.to_signed z = z.
Proof.
  intros Hz. unfold U64.to_signed.
  rewrite wrap_small by (unfold U64.modulus; lia).
  destruct (Z.ltb_spec z (2 ^ 63)); lia.
Qed.

(** ** LatencyTracker *)

(** C10.  A tracker that holds no sample reports [samples = 0] and a zero
    minimum, maximum and averages: the [UINT64_MAX] sentinel kept in
    [min_latency_ns_] before the first [record] does not reach the
    caller. *)
Theorem getStats_without_samples (l : LatencyTracker.t) :
  LatencyTracker.total_samples_ l = 0 ->
  LatencyTracker.getStats l
  = LatencyTracker.mkStats 0 0 0 0%float 0%float 0%float.
Proof.
  intros Hnone. unfold LatencyTracker.getStats.
  rewrite Hnone. reflexivity.
Qed.

Lemma getStats_without_samples_new :
  LatencyTracker.total_samples_ LatencyTracker.new = 0
  /\ LatencyTracker.min_latency_ns_ LatencyTracker.new = U64.UINT64_MAX
  /\ LatencyTracker.getStats LatencyTracker.new
     = LatencyTracker.mkStats 0 0 0 0%float 0%float 0%float.
Proof.
  split; [reflexivity | split; [reflexivity |]].
  apply (getStats_without_samples LatencyTracker.new). reflexivity.
Defined.

Lemma getStats_after_reset (l : LatencyTracker.t) :
  LatencyTracker.getStats (LatencyTracker.reset l) = LatencyTracker.no_samples.
Proof. reflexivity. Qed.

(** Once a sample is in, the minimum reported is the smallest sample the
    tracker has seen since it was constructed or reset. *)
Lemma record_min (ns : Z) (l : LatencyTracker.t) :
  LatencyTracker.min_latency_ns_ (LatencyTracker.record ns l)
  = Z.min (U64.wrap ns) (LatencyTracker.min_latency_ns_ l).
Proof.
  unfold LatencyTracker.record; simpl.
  destruct (Z.ltb_spec (U64.wrap ns) (LatencyTracker.min_latency_ns_ l)); lia.
Qed.

(** ** BloomFilter *)

Section BloomFacts.

Variable hash64 : Z -> Z.
Variable rotation : Z.

Lemma probe_nonneg key i : 0 <= BloomFilter.probe hash64 rotation key i.
Proof.
  unfold BloomFilter.probe.
  apply Z.mod_pos_bound. reflexivity.
Qed.

Lemma set_bits_keeps (bs : list Z) (acc i : Z) :
  Z.testbit acc i = true ->
  Z.testbit (fold_left (fun a b => Z.lor a (Z.shiftl 1 b)) bs acc) i = true.
Proof.
  revert acc. induction bs as [| b bs IH]; intros acc Hset; simpl.
  - exact Hset.
  - apply IH. rewrite Z.lor_spec, Hset. reflexivity.
Qed.

Lemma set_bits_sets (bs : list Z) (acc b : Z) :
  In b bs -> 0 <= b ->
  Z.testbit (fold_left (fun a b => Z.lor a (Z.shiftl 1 b)) bs acc) b = true.
Proof.
  revert acc. induction bs as [| b' bs IH]; intros acc Hin Hb; simpl.
  - destruct Hin.
  - destruct Hin as [-> | Hin].
    + apply set_bits_keeps.
      rewrite Z.lor_spec, Z.shiftl_spec by exact Hb.
      rewrite Z.sub_diag. simpl. apply orb_true_r.
    + now apply IH.
Qed.

(** P8 of the spec: an added key is found. *)
Lemma contains_add key f :
  BloomFilter.contains hash64 rotation key
    (BloomFilter.add hash64 rotation key f) = true.
Proof.
  unfold BloomFilter.contains, BloomFilter.add; cbn [BloomFilter.bits_].
  apply forallb_forall. intros b Hb.
  apply set_bits_sets; [exact Hb |].
  unfold BloomFilter.probes in Hb. apply in_map_iff in Hb.
  destruct Hb as (i & <- & _). apply probe_nonneg.
Qed.

(** No bit is ever cleared: a key found stays found. *)
Lemma contains_add_other key key' f :
  BloomFilter.contains hash64 rotation key f = true ->
  BloomFilter.contains hash64 rotation key
    (BloomFilter.add hash64 rotation key' f) = true.
Proof.
  unfold BloomFilter.contains, BloomFilter.add; cbn [BloomFilter.bits_].
  rewrite !forallb_forall. intros Hall b Hb.
  apply set_bits_keeps. now apply Hall.
Qed.

Lemma contains_new key :
  BloomFilter.contains hash64 rotation key BloomFilter.new = false.
Proof.
  unfold BloomFilter.contains, BloomFilter.probes; simpl.
  now rewrite Z.bits_0.
Qed.

End BloomFacts.

(** ** The hot path *)

Section EngineFacts.

Context `{Collaborators}.

Import GridWatcher.

(** A threat changes the statistics by one detected threat, nothing else. *)
Lemma process_threat_stats now src d e alert :
  stats_ (process_threat now src (d, e) alert).2
  = Statistics.incrementThreatsDetected (stats_ e).
Proof.
  unfold process_threat, mitigate.
  destruct (MitigationEngine.mitigate _ _ _) as [action m].
  destruct action; reflexivity.
Qed.

Lemma process_threat_whitelisted_cache now src d e alert :
  whitelisted_ips_cache_ (process_threat now src (d, e) alert).2
  = whitelisted_ips_cache_ e.
Proof.
  unfold process_threat, mitigate.
  destruct (MitigationEngine.mitigate _ _ _) as [action m].
  destruct action; reflexivity.
Qed.

(** The packet counters are out of reach of the loop over the threats. *)
Lemma threats_keep_packet_counters now src threats d e :
  let s := stats_ e in
  let s' := stats_ (fold_left (process_threat now src) threats (d, e)).2 in
  Statistics.packets_processed_ s' = Statistics.packets_processed_ s
  /\ Statistics.packets_allowed_ s' = Statistics.packets_allowed_ s
  /\ Statistics.packets_dropped_ s' = Statistics.packets_dropped_ s.
Proof.
  revert d e. induction threats as [| alert threats IH]; intros d e;
    cbn [fold_left].
  - auto.
  - destruct (process_threat now src (d, e) alert) as [d1 e1] eqn:Hstep.
    specialize (IH d1 e1). simpl in IH.
    pose proof (process_threat_stats now src d e alert) as Hs.
    rewrite Hstep in Hs. simpl in Hs. rewrite Hs in IH.
    unfold Statistics.incrementThreatsDetected in IH.
    cbn [Statistics.packets_processed_ Statistics.packets_allowed_
         Statistics.packets_dropped_] in IH.
    exact IH.
Qed.

Lemma threats_keep_whitelisted_cache now src threats d e :
  whitelisted_ips_cache_ (fold_left (process_threat now src) threats (d, e)).2
  = whitelisted_ips_cache_ e.
Proof.
  revert d e. induction threats as [| alert threats IH]; intros d e;
    cbn [fold_left].
  - reflexivity.
  - destruct (process_threat now src (d, e) alert) as [d1 e1] eqn:Hstep.
    rewrite IH.
    pose proof (process_threat_whitelisted_cache now src d e alert) as Hc.
    now rewrite Hstep in Hc.
Qed.

(** C3.  Every call of [processPacket] returns ALLOW or DROP, adds one to
    [packets_processed] and adds one to exactly one of [packets_allowed]
    and [packets_dropped], the one that matches the verdict, leaving the
    other as it was; the additions are those of a 64-bit counter.  This
    holds on the whitelist fast path, on the block short-circuit, on the
    drop of the rate pre-check and after analysis. *)
Theorem processPacket_counts_once c packet_data src dst sport dport e :
  let r := processPacket c packet_data src dst sport dport e in
  let s := stats_ e in
  let s' := stats_ r.2 in
  Statistics.packets_processed_ s'
  = U64.wrap (Statistics.packets_processed_ s + 1)
  /\ ((r.1 = true
       /\ Statistics.packets_allowed_ s'
          = U64.wrap (Statistics.packets_allowed_ s + 1)
       /\ Statistics.packets_dropped_ s' = Statistics.packets_dropped_ s)
      \/ (r.1 = false
          /\ Statistics.packets_dropped_ s'
             = U64.wrap (Statistics.packets_dropped_ s + 1)
          /\ Statistics.packets_allowed_ s'
             = Statistics.packets_allowed_ s)).
Proof.
  unfold processPacket; simpl.
  destruct (cache_contains src _).
  { simpl. split; [reflexivity | left; auto]. }
  destruct (cache_contains src _ && _).
  { simpl. split; [reflexivity | right; auto]. }
  destruct (shouldDropPacket _ _ _).
  { simpl. split; [reflexivity | right; auto]. }
  destruct (analyze _ _) as [threats a].
  match goal with
  | |- context [fold_left (process_threat ?now ?s) threats (false, ?e0)] =>
      pose proof (threats_keep_packet_counters now s threats false e0)
        as (Hp & Ha & Hd);
      destruct (fold_left (process_threat now s) threats (false, e0))
        as [should_drop e1]
  end.
  simpl in Hp, Ha, Hd.
  destruct should_drop; simpl.
  - rewrite Hp, Ha, Hd. split; [reflexivity | right; auto].
  - rewrite Hp, Ha, Hd. split; [reflexivity | left; auto].
Qed.

(** No path of [processPacket] writes the whitelist cache. *)
Lemma processPacket_whitelisted_cache c packet_data src dst sport dport e :
  whitelisted_ips_cache_ (processPacket c packet_data src dst sport dport e).2
  = whitelisted_ips_cache_ e.
Proof.
  unfold processPacket; simpl.
  destruct (cache_contains src _); [reflexivity |].
  destruct (cache_contains src _ && _); [reflexivity |].
  destruct (shouldDropPacket _ _ _); [reflexivity |].
  destruct (analyze _ _) as [threats a].
  match goal with
  | |- context [fold_left (process_threat ?now ?s) threats (false, ?e0)] =>
      pose proof (threats_keep_whitelisted_cache now s threats false e0)
        as Hc;
      destruct (fold_left (process_threat now s) threats (false, e0))
        as [should_drop e1]
  end.
  simpl in Hc. destruct should_drop; simpl; exact Hc.
Qed.

(** A hit in the whitelist cache is an ALLOW, whatever the authoritative
    whitelist and the block table hold. *)
Lemma whitelist_cache_hit_allows c packet_data src dst sport dport e :
  cache_contains src (whitelisted_ips_cache_ e) = true ->
  processPacket c packet_data src dst sport dport e
  = (true, allowed_on_fast_path c packet_data e).
Proof.
  intros Hhit. unfold processPacket; simpl. rewrite Hhit. reflexivity.
Qed.

Lemma call_keeps_whitelist_hit addr k e :
  cache_contains addr (whitelisted_ips_cache_ e) = true ->
  cache_contains addr (whitelisted_ips_cache_ (call k e)) = true.
Proof.
  intros Hhit. destruct k; simpl.
  - unfold start. destruct (running_ e); exact Hhit.
  - unfold stop. destruct (running_ e); exact Hhit.
  - rewrite processPacket_whitelisted_cache. exact Hhit.
  - exact Hhit.
  - unfold unblockIP.
    destruct (MitigationEngine.unblockIP _ _) as [[] m]; exact Hhit.
  - apply contains_add_other. exact Hhit.
  - exact Hhit.
  - unfold cleanup_tick. destruct (running_ e); exact Hhit.
  - unfold monitor_tick. destruct (running_ e); exact Hhit.
Qed.

Lemma calls_keep_whitelist_hit addr ks e :
  cache_contains addr (whitelisted_ips_cache_ e) = true ->
  cache_contains addr (whitelisted_ips_cache_ (calls ks e)) = true.
Proof.
  revert e. induction ks as [| k ks IH]; intros e Hhit.
  - exact Hhit.
  - apply IH. now apply call_keeps_whitelist_hit.
Qed.

Lemma calls_app ks1 ks2 e : calls (ks1 ++ ks2) e = calls ks2 (calls ks1 e).
Proof. unfold calls. apply fold_left_app. Qed.

Lemma addWhitelist_call_hits now addr ks e :
  In (AddWhitelist now addr) ks ->
  cache_contains addr (whitelisted_ips_cache_ (calls ks e)) = true.
Proof.
  intros Hin. apply in_split in Hin. destruct Hin as (ks1 & ks2 & ->).
  rewrite calls_app. change (calls (AddWhitelist now addr :: ks2) (calls ks1 e))
    with (calls ks2 (addWhitelist now addr (calls ks1 e))).
  apply calls_keep_whitelist_hit. apply contains_add.
Qed.

Lemma fill_whitelist_cache addr addrs e :
  In addr addrs \/ cache_contains addr (whitelisted_ips_cache_ e) = true ->
  cache_contains addr
    (whitelisted_ips_cache_
       (fold_left (fun e a => with_whitelisted_cache (cache_add a) e)
                  addrs e)) = true.
Proof.
  revert e. induction addrs as [| a addrs IH]; intros e Hor; simpl.
  - destruct Hor as [[] | Hhit]. exact Hhit.
  - apply IH. destruct Hor as [[-> | Hin] | Hhit].
    + right. apply contains_add.
    + now left.
    + right. now apply contains_add_other.
Qed.

Lemma construct_hits_configured cfg logger now addr :
  In addr (DetectionConfig.whitelisted_ips cfg) ->
  cache_contains addr (whitelisted_ips_cache_ (construct cfg logger now))
  = true.
Proof.
  intros Hin. unfold construct. simpl.
  apply fill_whitelist_cache. now left.
Qed.

(** C9.  [removeWhitelist] leaves the whitelist cache as it was, so an
    address that was whitelisted in the configuration or by a call of
    [addWhitelist] is still allowed by every later [processPacket], also
    after [removeWhitelist] has returned for it and whatever other calls
    were made in between. *)
Theorem removeWhitelist_keeps_fast_path
    cfg log_file now0 e0 history addr now later c packet_data dst sport dport :
  new cfg log_file true now0 = inr e0 ->
  In addr (DetectionConfig.whitelisted_ips cfg)
  \/ (exists t, In (AddWhitelist t addr) history) ->
  let e := calls history e0 in
  let e' := calls later (removeWhitelist now addr e) in
  whitelisted_ips_cache_ (removeWhitelist now addr e)
  = whitelisted_ips_cache_ e
  /\ processPacket c packet_data addr dst sport dport e'
     = (true, allowed_on_fast_path c packet_data e').
Proof.
  intros Hnew Hadded e e'. split; [reflexivity |].
  apply whitelist_cache_hit_allows. subst e'.
  apply calls_keep_whitelist_hit.
  change (whitelisted_ips_cache_ (removeWhitelist now addr e))
    with (whitelisted_ips_cache_ e).
  subst e. destruct Hadded as [Hcfg | [t Hin]].
  - apply calls_keep_whitelist_hit.
    unfold new in Hnew. simpl in Hnew. injection Hnew as <-.
    now apply construct_hits_configured.
  - now apply addWhitelist_call_hits with (now := t).
Qed.

(** [blockIP] records the address in the blocked cache. *)
Lemma blockIP_fills_cache now addr why e :
  cache_contains addr (blocked_ips_cache_ (blockIP now addr why e)) = true.
Proof. unfold blockIP; simpl. apply contains_add. Qed.

End EngineFacts.

(** ** The block short-circuit *)

Section BlockedCache.

Context `{Collaborators}.

Import GridWatcher.

(** The analyzer, whose source is absent, is taken to raise its alerts
    about the source of the packet it analyses: the mitigation engine
    blocks the source an alert names, [processPacket] caches the source
    of the packet. *)
Hypothesis alerts_name_the_source :
  forall meta a alert,
    In alert (analyze meta a).1 -> alert_source_ip alert = source_ip meta.

Lemma buildPacketMetadata_source e data src dst sport dport now :
  source_ip (buildPacketMetadata e data src dst sport dport now).1 = src.
Proof.
  unfold buildPacketMetadata.
  destruct ((dport =? 502) || (sport =? 502)); [| reflexivity].
  destruct (isModbusTCP data); [| reflexivity].
  destruct (ModbusParser_parse data); reflexivity.
Qed.

(** A record in the table after a block is the record of the address
    blocked or of an address that had one before. *)
Lemma blockIP_records addr why duration now m a b :
  MitigationEngine.blocked_ips_
    (MitigationEngine.blockIP addr why duration now m) !! a = Some b ->
  a = addr \/ exists b', MitigationEngine.blocked_ips_ m !! a = Some b'.
Proof.
  unfold MitigationEngine.blockIP.
  destruct (MitigationEngine.blocked_ips_ m !! addr) as [old |] eqn:Hold;
    cbn [MitigationEngine.blocked_ips_].
  - intros Hlook. apply lookup_insert_Some in Hlook.
    destruct Hlook as [[-> _] | [_ Hlook]]; eauto.
  - destruct (_ <? _); cbn [MitigationEngine.blocked_ips_].
    + intros Hlook. apply lookup_insert_Some in Hlook.
      destruct Hlook as [[-> _] | [_ Hlook]]; eauto.
    + destruct (MitigationEngine.earliest_expiring _) as [victim |];
        cbn [MitigationEngine.blocked_ips_]; [| eauto].
      intros Hlook. apply lookup_insert_Some in Hlook.
      destruct Hlook as [[-> _] | [_ Hlook]]; [now left |].
      apply lookup_delete_Some in Hlook as [_ Hlook]. eauto.
Qed.

(** The loop over the threats keeps the table within the cache: an alert
    that blocks names the source of the packet, which the loop adds to
    the cache. *)
Lemma process_threat_blocks_cached now src d e alert :
  alert_source_ip alert = src ->
  blocks_are_cached e ->
  blocks_are_cached (process_threat now src (d, e) alert).2.
Proof.
  intros Hsrc Hinv. unfold process_threat, mitigate.
  unfold MitigationEngine.mitigate. cbn.
  destruct (_ && _).
  - cbn. intros a b Hlook. apply blockIP_records in Hlook.
    destruct Hlook as [-> | [b' Hlook]].
    + rewrite Hsrc. apply contains_add.
    + apply contains_add_other. eapply Hinv. exact Hlook.
  - destruct (_ =? _); cbn; exact Hinv.
Qed.

Lemma threats_blocks_cached now src threats d e :
  (forall alert, In alert threats -> alert_source_ip alert = src) ->
  blocks_are_cached e ->
  blocks_are_cached (fold_left (process_threat now src) threats (d, e)).2.
Proof.
  revert d e. induction threats as [| alert threats IH];
    intros d e Hsrc Hinv; cbn [fold_left].
  - exact Hinv.
  - destruct (process_threat now src (d, e) alert) as [d1 e1] eqn:Hstep.
    apply IH; [intros a Ha; apply Hsrc; now right |].
    pose proof (process_threat_blocks_cached now src d e alert) as Hone.
    rewrite Hstep in Hone. apply Hone; [apply Hsrc; now left | exact Hinv].
Qed.

Lemma processPacket_blocks_cached c data src dst sport dport e :
  blocks_are_cached e ->
  blocks_are_cached (processPacket c data src dst sport dport e).2.
Proof.
  intros Hinv. unfold processPacket; simpl.
  destruct (cache_contains src _); [exact Hinv |].
  destruct (cache_contains src _ && _); [exact Hinv |].
  destruct (shouldDropPacket _ _ _); [exact Hinv |].
  match goal with
  | |- context [analyze ?m ?a] =>
      pose proof (alerts_name_the_source m a) as Hsrc;
      assert (Hmeta : source_ip m = src)
        by apply buildPacketMetadata_source;
      destruct (analyze m a) as [threats a']
  end.
  cbn [fst] in Hsrc. rewrite Hmeta in Hsrc.
  match goal with
  | |- context [fold_left (process_threat ?n ?s) threats (false, ?e0)] =>
      pose proof (threats_blocks_cached n s threats false e0 Hsrc Hinv)
        as Hloop;
      destruct (fold_left (process_threat n s) threats (false, e0))
        as [should_drop e1]
  end.
  cbn [snd] in Hloop. destruct should_drop; exact Hloop.
Qed.

Lemma call_blocks_cached k e :
  blocks_are_cached e -> blocks_are_cached (call k e).
Proof.
  intros Hinv.
  destruct k as [? | ? | c data src dst sp dp | now addr why | now addr
                 | now addr | now addr | now | now report];
    cbn [call].
  - unfold start. destruct (running_ e); exact Hinv.
  - unfold stop. destruct (running_ e); exact Hinv.
  - now apply processPacket_blocks_cached.
  - unfold blockIP. cbn. intros a b Hlook.
    apply blockIP_records in Hlook. destruct Hlook as [-> | [b' Hlook]].
    + apply contains_add.
    + apply contains_add_other. eapply Hinv. exact Hlook.
  - unfold unblockIP, MitigationEngine.unblockIP.
    destruct (MitigationEngine.blocked_ips_ (mitigation_ e) !! addr)
      as [old |]; cbn; [| exact Hinv].
    intros a b Hlook. cbn in Hlook.
    apply lookup_delete_Some in Hlook as [_ Hlook]. eapply Hinv. exact Hlook.
  - unfold addWhitelist. cbn. exact Hinv.
  - unfold removeWhitelist. cbn. exact Hinv.
  - unfold cleanup_tick. destruct (running_ e); [| exact Hinv].
    cbn. intros a b Hlook. cbn in Hlook.
    apply map_lookup_filter_Some in Hlook as [Hlook _].
    eapply Hinv. exact Hlook.
  - unfold monitor_tick. destruct (running_ e); exact Hinv.
Qed.

Lemma calls_blocks_cached ks e :
  blocks_are_cached e -> blocks_are_cached (calls ks e).
Proof.
  revert e. induction ks as [| k ks IH]; intros e Hinv; [exact Hinv |].
  apply IH. now apply call_blocks_cached.
Qed.

Lemma construct_blocks_cached cfg logger now :
  blocks_are_cached (construct cfg logger now).
Proof.
  assert (Hfold : forall addrs e,
            mitigation_ (fold_left
                           (fun e a => with_whitelisted_cache (cache_add a) e)
                           addrs e) = mitigation_ e).
  { induction addrs as [| a addrs IH]; intros e; simpl;
      [reflexivity | now rewrite IH]. }
  intros a b Hlook. unfold construct in Hlook. simpl in Hlook.
  rewrite Hfold in Hlook. cbn in Hlook.
  rewrite lookup_empty in Hlook. discriminate.
Qed.

(** C2, amended.  In an engine reached from its construction by any
    sequence of calls, a packet whose source misses the whitelist cache
    and has a block record that has not expired is dropped by the block
    short-circuit: the record was made by [blockIP] or by the loop over
    the threats, which put the address into the blocked cache, so the
    cache hits; the verdict is DROP and [packets_dropped] goes up by
    one. *)
Theorem blocked_source_is_dropped cfg logger t0 ks c packet_data src dst
    sport dport :
  let e := calls ks (construct cfg logger t0) in
  cache_contains src (whitelisted_ips_cache_ e) = false ->
  MitigationEngine.isBlocked src (wall_ns c) (mitigation_ e) = true ->
  let r := processPacket c packet_data src dst sport dport e in
  cache_contains src (blocked_ips_cache_ e) = true
  /\ r.1 = false
  /\ Statistics.packets_dropped_ (stats_ r.2)
     = U64.wrap (Statistics.packets_dropped_ (stats_ e) + 1)
  /\ Statistics.packets_allowed_ (stats_ r.2)
     = Statistics.packets_allowed_ (stats_ e)
  /\ mitigation_ r.2 = mitigation_ e.
Proof.
  intros e Hwhite Hblocked.
  assert (Hcache : cache_contains src (blocked_ips_cache_ e) = true).
  { unfold MitigationEngine.isBlocked in Hblocked.
    destruct (MitigationEngine.blocked_ips_ (mitigation_ e) !! src)
      as [b |] eqn:Hlook; [| discriminate].
    apply (calls_blocks_cached ks (construct cfg logger t0)
             (construct_blocks_cached cfg logger t0) src b).
    exact Hlook. }
  clearbody e. cbn zeta. split; [exact Hcache |].
  unfold processPacket; simpl.
  rewrite Hwhite, Hcache, Hblocked. simpl. auto.
Qed.

End BlockedCache.

(** ** The hot path on concrete inputs *)

Import GridWatcher.

(** C1, on the code.  192.168.1.10 is whitelisted, then removed from the
    whitelist, then blocked.  The whitelist cache still answers yes, the
    authoritative whitelist says no and the block table says blocked; the
    fast path allows the packet without asking either, where the claim has
    the false positive fall through to the block short-circuit. *)
Lemma whitelist_fast_path_asks_nobody :
  let e := after [AddWhitelist 1 ip_master; RemoveWhitelist 2 ip_master;
                  BlockIP 3 ip_master DOS_FLOOD] in
  cache_contains ip_master (whitelisted_ips_cache_ e) = true
  /\ MitigationEngine.isWhitelisted ip_master (mitigation_ e) = false
  /\ MitigationEngine.isBlocked ip_master (wall_ns noon) (mitigation_ e)
     = true
  /\ (processPacket noon [] ip_master ip_plc 5000 502 e).1 = true.
Proof. vm_compute. auto. Qed.

(** C2, as stated, fails: 10.0.0.66 is blocked, then whitelisted.  Its
    block record is active, yet the whitelist fast path comes first and
    the packet is allowed; [packets_dropped] stays at zero. *)
Lemma blocked_then_whitelisted_is_allowed :
  let e := after [BlockIP 3 ip_attacker DOS_FLOOD;
                  AddWhitelist 4 ip_attacker] in
  let r := processPacket noon [] ip_attacker ip_plc 5000 502 e in
  MitigationEngine.isBlocked ip_attacker (wall_ns noon) (mitigation_ e)
  = true
  /\ cache_contains ip_attacker (blocked_ips_cache_ e) = true
  /\ r.1 = true
  /\ Statistics.packets_dropped_ (stats_ r.2) = 0
  /\ Statistics.packets_allowed_ (stats_ r.2) = 1.
Proof. vm_compute. auto. Qed.

Lemma blocked_source_is_dropped_attacker :
  let e := after [ProcessPacket noon [] ip_attacker ip_plc 5000 502;
                  BlockIP 3 ip_master DOS_FLOOD] in
  (cache_contains ip_attacker (whitelisted_ips_cache_ e) = false
   /\ MitigationEngine.isBlocked ip_attacker (wall_ns noon) (mitigation_ e)
      = true
   /\ cache_contains ip_master (whitelisted_ips_cache_ e) = false
   /\ MitigationEngine.isBlocked ip_master (wall_ns noon) (mitigation_ e)
      = true)
  /\ (cache_contains ip_attacker (blocked_ips_cache_ e) = true
      /\ (processPacket noon [] ip_attacker ip_plc 5000 502 e).1 = false)
  /\ (cache_contains ip_master (blocked_ips_cache_ e) = true
      /\ (processPacket noon [] ip_master ip_plc 5000 502 e).1 = false).
Proof.
  intros e.
  assert (Halerts : forall meta a alert,
            In alert (analyze meta a).1 ->
            alert_source_ip alert = source_ip meta).
  { intros meta a alert. simpl. destruct (is_malformed meta); simpl.
    - intros [<- | []]. reflexivity.
    - intros []. }
  assert (Hpre :
    cache_contains ip_attacker (whitelisted_ips_cache_ e) = false
    /\ MitigationEngine.isBlocked ip_attacker (wall_ns noon) (mitigation_ e)
       = true
    /\ cache_contains ip_master (whitelisted_ips_cache_ e) = false
    /\ MitigationEngine.isBlocked ip_master (wall_ns noon) (mitigation_ e)
       = true) by (vm_compute; auto).
  destruct Hpre as (Hw1 & Hb1 & Hw2 & Hb2).
  split; [auto |]. split.
  - destruct (blocked_source_is_dropped Halerts DetectionConfig.createDefault
                (Logger.opened "grid_watcher.log") (wall_ns noon)
                [ProcessPacket noon [] ip_attacker ip_plc 5000 502;
                 BlockIP 3 ip_master DOS_FLOOD]
                noon [] ip_attacker ip_plc 5000 502 Hw1 Hb1)
      as (Hc & Hr & _).
    split; [exact Hc | exact Hr].
  - destruct (blocked_source_is_dropped Halerts DetectionConfig.createDefault
                (Logger.opened "grid_watcher.log") (wall_ns noon)
                [ProcessPacket noon [] ip_attacker ip_plc 5000 502;
                 BlockIP 3 ip_master DOS_FLOOD]
                noon [] ip_master ip_plc 5000 502 Hw2 Hb2)
      as (Hc & Hr & _).
    split; [exact Hc | exact Hr].
Defined.

(** The assumption on the alerts is needed.  With an analyzer that names
    10.0.0.66 in the alert it raises for a malformed packet of
    192.168.1.10, the mitigation engine blocks 10.0.0.66 and the loop
    caches 192.168.1.10: the block record of 10.0.0.66 is active, the
    blocked cache misses it, and its next packet is allowed. *)
Lemma alert_about_another_source_escapes_the_cache :
  let e :=
    GridWatcher.calls (H := accuser)
      [ProcessPacket noon [] ip_master ip_plc 5000 502]
      (GridWatcher.construct (H := accuser) DetectionConfig.createDefault
         (Logger.opened "grid_watcher.log") (wall_ns noon)) in
  MitigationEngine.isBlocked ip_attacker (wall_ns noon)
    (GridWatcher.mitigation_ (H := accuser) e) = true
  /\ GridWatcher.cache_contains (H := accuser) ip_attacker
       (GridWatcher.blocked_ips_cache_ (H := accuser) e) = false
  /\ GridWatcher.cache_contains (H := accuser) ip_attacker
       (GridWatcher.whitelisted_ips_cache_ (H := accuser) e) = false
  /\ (GridWatcher.processPacket (H := accuser) noon twelve_bytes
        ip_attacker ip_plc 5000 80 e).1 = true.
Proof. vm_compute. auto. Qed.

Lemma removeWhitelist_keeps_fast_path_master :
  let e := after [AddWhitelist 1 ip_master] in
  let e' := calls [BlockIP 3 ip_master DOS_FLOOD]
                  (removeWhitelist 2 ip_master e) in
  whitelisted_ips_cache_ (removeWhitelist 2 ip_master e)
  = whitelisted_ips_cache_ e
  /\ processPacket noon [] ip_master ip_plc 5000 502 e'
     = (true, allowed_on_fast_path noon [] e').
Proof.
  apply (removeWhitelist_keeps_fast_path
           DetectionConfig.createDefault "grid_watcher.log" (wall_ns noon)
           fresh [AddWhitelist 1 ip_master] ip_master 2
           [BlockIP 3 ip_master DOS_FLOOD] noon [] ip_plc 5000 502).
  - reflexivity.
  - right. exists 1. simpl. left. reflexivity.
Defined.

(** ** Construction *)

Lemma construct_config `{Collaborators} cfg logger now :
  config_ (construct cfg logger now) = cfg.
Proof.
  assert (Hfold : forall addrs e,
            config_ (fold_left
                       (fun e a => with_whitelisted_cache (cache_add a) e)
                       addrs e) = config_ e).
  { induction addrs as [| a addrs IH]; intros e; simpl;
      [reflexivity | now rewrite IH]. }
  unfold construct; simpl. now rewrite Hfold.
Qed.

(** C4, amended.  A configuration with a zero [dos_packet_threshold],
    [dos_byte_threshold], [port_scan_threshold] or
    [max_concurrent_blocks] is told apart by [isValid], which returns
    [false]; the constructor does not call [isValid]: it completes,
    keeping the configuration, whenever the log file opens, and throws
    [runtime_error] only when the log file does not open. *)
Theorem constructor_ignores_isValid `{Collaborators} cfg log_file now :
  DetectionConfig.dos_packet_threshold cfg = 0
  \/ DetectionConfig.dos_byte_threshold cfg = 0
  \/ DetectionConfig.port_scan_threshold cfg = 0
  \/ DetectionConfig.max_concurrent_blocks cfg = 0 ->
  DetectionConfig.isValid cfg = false
  /\ new cfg log_file true now
     = inr (construct cfg (Logger.opened log_file) now)
  /\ config_ (construct cfg (Logger.opened log_file) now) = cfg
  /\ new cfg log_file false now
     = inl (runtime_error
              (String.append "Failed to open log file: " log_file)).
Proof.
  intros Hzero. split; [| split; [reflexivity | split; [| reflexivity]]].
  - unfold DetectionConfig.isValid.
    destruct Hzero as [-> | [-> | [-> | ->]]]; simpl;
      rewrite ?andb_false_r; reflexivity.
  - apply construct_config.
Qed.

(** C4, as stated, fails: with [dos_packet_threshold = 0] the
    configuration is invalid and the constructor still returns an
    engine. *)
Lemma invalid_configuration_is_accepted :
  DetectionConfig.isValid zero_packet_threshold = false
  /\ new zero_packet_threshold "grid_watcher.log" true 0
     = inr (construct zero_packet_threshold
              (Logger.opened "grid_watcher.log") 0).
Proof. split; reflexivity. Qed.

Lemma constructor_ignores_isValid_zero_threshold :
  DetectionConfig.dos_packet_threshold zero_packet_threshold = 0
  /\ DetectionConfig.isValid zero_packet_threshold = false
  /\ new zero_packet_threshold "grid_watcher.log" true 0
     = inr (construct zero_packet_threshold
              (Logger.opened "grid_watcher.log") 0)
  /\ config_ (construct zero_packet_threshold
                (Logger.opened "grid_watcher.log") 0)
     = zero_packet_threshold
  /\ new zero_packet_threshold "grid_watcher.log" false 0
     = inl (runtime_error
              (String.append "Failed to open log file: "
                             "grid_watcher.log")).
Proof.
  split; [reflexivity |].
  apply (constructor_ignores_isValid zero_packet_threshold
           "grid_watcher.log" 0).
  left. reflexivity.
Defined.

(** ** Metadata *)

Section MetadataFacts.

Context `{Collaborators}.

(** C5, amended.  The protocol parser is entered exactly when the
    destination or the source port is 502: [isModbusTCP] is called then
    and only then, and [ModbusParser::parse] exactly when moreover
    [isModbusTCP] accepts the buffer.  On every other port, 20000
    included, the metadata is the minimal one (addresses, ports, size,
    timestamp) and no parser call is made.  The engine and its
    configuration, [monitored_ports] included, have no part in it. *)
Theorem parser_runs_on_port_502_only
    e e' packet_data src dst sport dport now :
  let r := buildPacketMetadata e packet_data src dst sport dport now in
  (In (Call_isModbusTCP packet_data) r.2 <-> dport = 502 \/ sport = 502)
  /\ (In (Call_ModbusParser_parse packet_data) r.2
      <-> (dport = 502 \/ sport = 502) /\ isModbusTCP packet_data = true)
  /\ (r = (minimal_metadata (Z.of_nat (length packet_data))
                            src dst sport dport now, [])
      <-> dport <> 502 /\ sport <> 502)
  /\ buildPacketMetadata e' packet_data src dst sport dport now = r.
Proof.
  unfold buildPacketMetadata.
  destruct (Z.eqb_spec dport 502) as [Hd | Hd];
    destruct (Z.eqb_spec sport 502) as [Hs | Hs]; simpl;
    try (destruct (isModbusTCP packet_data) eqn:Hmod;
         [destruct (ModbusParser_parse packet_data) |]; simpl);
    repeat split; try tauto; try congruence; intros;
    try (intuition congruence); auto.
Qed.

End MetadataFacts.

(** C5, as stated, fails: 20000 is in the default [monitored_ports], yet
    a frame to port 20000 that [isModbusTCP] would accept gets the minimal
    metadata and no parser call, while the same frame to port 502 is
    handed to the parser. *)
Lemma monitored_port_20000_is_not_parsed :
  In 20000 (DetectionConfig.monitored_ports (config_ fresh))
  /\ isModbusTCP twelve_bytes = true
  /\ buildPacketMetadata fresh twelve_bytes ip_master ip_plc 5000 20000 7
     = (minimal_metadata 12 ip_master ip_plc 5000 20000 7, [])
  /\ (buildPacketMetadata fresh twelve_bytes ip_master ip_plc 5000 502 7).2
     = [Call_isModbusTCP twelve_bytes; Call_ModbusParser_parse twelve_bytes].
Proof. vm_compute. auto. Qed.

(** ** Logger *)

(** The flush loop appends what the ring holds to an open file, oldest
    first, and leaves the ring empty. *)
Lemma flush_writes_pending pending l :
  Logger.log_file_open_ l = true ->
  let l' := Logger.flush pending l in
  Logger.log_file_ l' = Logger.log_file_ l ++ pending
  /\ Logger.log_queue_ l' = []
  /\ Logger.log_file_open_ l' = true
  /\ Logger.running_ l' = Logger.running_ l.
Proof.
  revert l. induction pending as [| entry rest IH]; intros l Hopen; simpl.
  - rewrite app_nil_r. auto.
  - specialize (IH (Logger.writeLog entry (Logger.set_queue rest l))).
    simpl in IH. rewrite Hopen in IH. specialize (IH eq_refl).
    destruct IH as (Hfile & Hqueue & Hstill & Hrun).
    rewrite Hfile, <- app_assoc. auto.
Qed.

(** C7, amended.  When the logger is running and its file is open, that
    is after [start] and before the first [stop], [stop] writes every
    record still in the ring to the file, oldest first and after what was
    written before, leaves the ring empty and only then closes the
    file. *)
Theorem stop_flushes_running_logger l :
  Logger.running_ l = true ->
  Logger.log_file_open_ l = true ->
  let l' := Logger.stop l in
  Logger.log_file_ l' = Logger.log_file_ l ++ Logger.log_queue_ l
  /\ Logger.log_queue_ l' = []
  /\ Logger.log_file_open_ l' = false
  /\ Logger.running_ l' = false.
Proof.
  intros Hrun Hopen. unfold Logger.stop. rewrite Hrun. simpl.
  match goal with
  | |- context [Logger.flush ?q ?j] =>
      pose proof (flush_writes_pending q j Hopen)
        as (Hfile & Hqueue & _ & Hstopped)
  end.
  simpl in Hfile, Hstopped. auto.
Qed.

(** C7, as stated, fails: a logger that is not running, be it never
    started or already stopped, accepts a record into its ring, and the
    [stop] that follows returns at once, the ring still holding the
    record and the file without it. *)
Lemma stop_of_idle_logger_writes_nothing :
  let idle := Logger.info 1 "Engine" "up" quiet_logger in
  let stopped :=
    Logger.info 1 "Engine" "up" (Logger.stop (Logger.start quiet_logger)) in
  (Logger.log_queue_ idle = [record_up]
   /\ Logger.log_queue_ (Logger.stop idle) = [record_up]
   /\ Logger.log_file_ (Logger.stop idle) = [])
  /\ (Logger.log_queue_ stopped = [record_up]
      /\ Logger.log_queue_ (Logger.stop stopped) = [record_up]
      /\ Logger.log_file_ (Logger.stop stopped) = []).
Proof. vm_compute. auto 10. Qed.

Lemma stop_flushes_running_logger_up :
  let l := Logger.info 1 "Engine" "up" (Logger.start quiet_logger) in
  (Logger.running_ l = true /\ Logger.log_file_open_ l = true
   /\ Logger.log_queue_ l = [record_up])
  /\ Logger.log_file_ (Logger.stop l)
     = Logger.log_file_ l ++ Logger.log_queue_ l
  /\ Logger.log_queue_ (Logger.stop l) = []
  /\ Logger.log_file_open_ (Logger.stop l) = false
  /\ Logger.running_ (Logger.stop l) = false.
Proof.
  intros l. split.
  - vm_compute. auto.
  - apply (stop_flushes_running_logger l); reflexivity.
Defined.

(** ** PacketQueue *)

Lemma wrap_add_l x y : U64.wrap (U64.wrap x + y) = U64.wrap (x + y).
Proof. unfold U64.wrap. apply Zplus_mod_idemp_l. Qed.

Section QueueFacts.

Variable Capacity : Z.

Import PacketQueue.

Lemma slot_index_lt q p :
  0 < Capacity -> Z.of_nat (length (slots_ q)) = Capacity ->
  (slot_index Capacity p < length (slots_ q))%nat.
Proof.
  intros Hpos Hlen. unfold slot_index.
  pose proof (Z.mod_pos_bound p Capacity Hpos). lia.
Qed.

(** Two positions less than [Capacity] apart map to different slots. *)
Lemma slot_index_inj p p' :
  0 < Capacity -> Z.abs (p - p') < Capacity ->
  slot_index Capacity p = slot_index Capacity p' -> p = p'.
Proof.
  intros Hpos Hnear Hidx. unfold slot_index in Hidx.
  pose proof (Z.mod_pos_bound p Capacity Hpos).
  pose proof (Z.mod_pos_bound p' Capacity Hpos).
  assert (Hmod : p mod Capacity = p' mod Capacity) by lia.
  pose proof (Z.div_mod p Capacity) as Hp.
  pose proof (Z.div_mod p' Capacity) as Hp'.
  assert (Hq : p / Capacity = p' / Capacity) by nia.
  rewrite Hp, Hp', Hmod, Hq by lia. reflexivity.
Qed.

Lemma position_of_slot_index q p :
  0 < Capacity ->
  dequeue_pos_ q <= p < dequeue_pos_ q + Capacity ->
  position_of Capacity q (Z.of_nat (slot_index Capacity p)) = p.
Proof.
  intros Hpos Hp. unfold position_of, slot_index.
  pose proof (Z.mod_pos_bound p Capacity Hpos).
  rewrite Z2Nat.id by lia.
  rewrite Zminus_mod_idemp_l.
  rewrite Z.mod_small by lia. lia.
Qed.

Lemma sequences_ok_lookup q slots i k s :
  sequences_ok Capacity q i slots = true ->
  slots !! k = Some s ->
  sequence s = expected_sequence q (position_of Capacity q (i + Z.of_nat k)).
Proof.
  revert i k. induction slots as [| s0 rest IH]; intros i k Hok Hk.
  - destruct k; discriminate.
  - simpl in Hok. apply andb_true_iff in Hok. destruct Hok as [Hhead Hrest].
    destruct k as [| k]; simpl in Hk.
    + injection Hk as <-. apply Z.eqb_eq in Hhead.
      rewrite Z.add_0_r. exact Hhead.
    + rewrite (IH (i + 1) k Hrest Hk). do 2 f_equal. lia.
Qed.

(** The check establishes the invariant. *)
Lemma well_formed_invariant q :
  well_formed Capacity q = true ->
  invariant Capacity q /\ enqueue_pos_ q + Capacity < 2 ^ 63.
Proof.
  unfold well_formed. rewrite !andb_true_iff.
  intros ((((((Hcap & Hlen) & Hd) & Hde) & Hed) & Hbound) & Hslots).
  apply Z.leb_le in Hcap, Hd, Hde, Hed.
  apply Z.eqb_eq in Hlen. apply Z.ltb_lt in Hbound.
  split; [| exact Hbound].
  repeat split; try assumption.
  intros p Hp.
  assert (Hlt : (slot_index Capacity p < length (slots_ q))%nat)
    by (apply slot_index_lt; lia).
  apply lookup_lt_is_Some in Hlt. destruct Hlt as [s Hs].
  exists s. split; [exact Hs |].
  rewrite (sequences_ok_lookup q _ 0 _ s Hslots Hs).
  rewrite Z.add_0_l, position_of_slot_index by lia. reflexivity.
Qed.

(** With room left, [enqueue] stores the job on its first pass. *)
Lemma enqueue_with_room fuel j q :
  invariant Capacity q -> enqueue_pos_ q + Capacity < 2 ^ 63 ->
  depth q < Capacity ->
  enqueue Capacity (S fuel) j q = Some (true, enqueued Capacity j q).
Proof.
  intros (Hcap & Hlen & Hd & Hed & Hslots) Hbound Hroom.
  unfold depth in Hroom.
  destruct (Hslots (enqueue_pos_ q)) as (s & Hs & Hseq); [lia |].
  unfold expected_sequence in Hseq. rewrite Z.ltb_irrefl in Hseq.
  unfold enqueue; simpl. rewrite Hs, Hseq, Z.sub_diag. simpl.
  unfold enqueued.
  rewrite wrap_small by (unfold U64.modulus; lia). reflexivity.
Qed.

Lemma enqueued_invariant j q :
  invariant Capacity q -> depth q < Capacity ->
  invariant Capacity (enqueued Capacity j q).
Proof.
  intros (Hcap & Hlen & Hd & Hed & Hslots) Hroom.
  unfold depth in Hroom. unfold enqueued.
  repeat split; simpl; try lia.
  - rewrite length_insert. exact Hlen.
  - intros p Hp. unfold expected_sequence; simpl.
    destruct (Z.eq_dec p (enqueue_pos_ q)) as [-> | Hne].
    + eexists. split.
      * apply list_lookup_insert_eq. apply slot_index_lt; lia.
      * simpl. destruct (Z.ltb_spec (enqueue_pos_ q) (enqueue_pos_ q + 1));
          lia.
    + destruct (Hslots p Hp) as (s & Hs & Hseq).
      exists s. split.
      * rewrite list_lookup_insert_ne; [exact Hs |].
        intros Hidx. apply slot_index_inj in Hidx; lia.
      * rewrite Hseq. unfold expected_sequence.
        destruct (Z.ltb_spec p (enqueue_pos_ q));
          destruct (Z.ltb_spec p (enqueue_pos_ q + 1)); lia.
Qed.

(** With [Capacity] jobs held, [enqueue] answers [false] on its first
    pass and leaves the queue as it was. *)
Lemma enqueue_when_full fuel j q :
  invariant Capacity q -> enqueue_pos_ q + Capacity < 2 ^ 63 ->
  depth q = Capacity ->
  enqueue Capacity (S fuel) j q = Some (false, q).
Proof.
  intros (Hcap & Hlen & Hd & Hed & Hslots) Hbound Hfull.
  unfold depth in Hfull.
  destruct (Hslots (dequeue_pos_ q)) as (s & Hs & Hseq); [lia |].
  unfold expected_sequence in Hseq.
  destruct (Z.ltb_spec (dequeue_pos_ q) (enqueue_pos_ q)); [| lia].
  assert (Hidx : slot_index Capacity (enqueue_pos_ q)
                 = slot_index Capacity (dequeue_pos_ q)).
  { unfold slot_index. f_equal.
    replace (enqueue_pos_ q) with (dequeue_pos_ q + 1 * Capacity) by lia.
    apply Z_mod_plus_full. }
  unfold enqueue; simpl. rewrite Hidx, Hs, Hseq.
  rewrite !to_signed_small by lia.
  destruct (Z.eqb_spec (dequeue_pos_ q + 1 - enqueue_pos_ q) 0); [lia |].
  destruct (Z.ltb_spec (dequeue_pos_ q + 1 - enqueue_pos_ q) 0); [| lia].
  reflexivity.
Qed.

End QueueFacts.

(** ** PacketProcessor *)

Lemma rejections_cons ok oks :
  PacketProcessor.rejections (ok :: oks)
  = (if ok then 0 else 1) + PacketProcessor.rejections oks.
Proof.
  unfold PacketProcessor.rejections. destruct ok; simpl; lia.
Qed.

Lemma rejections_nonneg oks : 0 <= PacketProcessor.rejections oks.
Proof. unfold PacketProcessor.rejections. lia. Qed.

Lemma rejection_is_among oks :
  0 < PacketProcessor.rejections oks -> In false oks.
Proof.
  induction oks as [| ok oks IH]; intros Hpos.
  - unfold PacketProcessor.rejections in Hpos. simpl in Hpos. lia.
  - rewrite rejections_cons in Hpos. destruct ok.
    + right. apply IH. lia.
    + left. reflexivity.
Qed.

Section ProcessorFacts.

Context `{Collaborators}.

Import PacketProcessor.

(** What a rejected submission leaves: the drop counter one higher,
    nothing else touched. *)
Lemma submitPacket_when_full fuel now data src dst sport dport p :
  PacketQueue.invariant QueueCapacity (queue_ p) ->
  PacketQueue.enqueue_pos_ (queue_ p) + QueueCapacity < 2 ^ 63 ->
  PacketQueue.depth (queue_ p) = QueueCapacity ->
  submitPacket (S fuel) now data src dst sport dport p
  = Some (false,
          mk (watcher_ p) (queue_ p) (workers_ p) (running_ p)
             (num_threads_ p) (packets_queued_ p) (packets_processed_ p)
             (U64.wrap (packets_dropped_queue_full_ p + 1))).
Proof.
  intros Hinv Hbound Hfull. unfold submitPacket.
  rewrite (enqueue_when_full QueueCapacity fuel _ _ Hinv Hbound Hfull).
  reflexivity.
Qed.

(** What an accepted submission leaves: the job in the queue and the
    queued counter one higher. *)
Lemma submitPacket_with_room fuel now data src dst sport dport p :
  PacketQueue.invariant QueueCapacity (queue_ p) ->
  PacketQueue.enqueue_pos_ (queue_ p) + QueueCapacity < 2 ^ 63 ->
  PacketQueue.depth (queue_ p) < QueueCapacity ->
  submitPacket (S fuel) now data src dst sport dport p
  = Some (true,
          mk (watcher_ p)
             (PacketQueue.enqueued QueueCapacity
                (mkPacketJob now data src dst sport dport false true)
                (queue_ p))
             (workers_ p) (running_ p) (num_threads_ p)
             (U64.wrap (packets_queued_ p + 1)) (packets_processed_ p)
             (packets_dropped_queue_full_ p)).
Proof.
  intros Hinv Hbound Hroom. unfold submitPacket.
  rewrite (enqueue_with_room QueueCapacity fuel _ _ Hinv Hbound Hroom).
  reflexivity.
Qed.

(** A run of submissions with no dequeue in between: the free slots are
    filled, every further submission is rejected and counted. *)
Lemma submit_all_verdicts fuel now packets p :
  PacketQueue.invariant QueueCapacity (queue_ p) ->
  PacketQueue.enqueue_pos_ (queue_ p) + Z.of_nat (length packets)
    + QueueCapacity < 2 ^ 63 ->
  0 <= packets_dropped_queue_full_ p < U64.modulus ->
  exists oks p',
    submit_all (S fuel) now packets p = Some (oks, p')
    /\ length oks = length packets
    /\ rejections oks
       = Z.max 0 (Z.of_nat (length packets)
                  - (QueueCapacity - PacketQueue.depth (queue_ p)))
    /\ packets_dropped_queue_full_ p'
       = U64.wrap (packets_dropped_queue_full_ p + rejections oks)
    /\ watcher_ p' = watcher_ p
    /\ packets_processed_ p' = packets_processed_ p.
Proof.
  revert p. induction packets as [| [[[[data src] dst] sport] dport] rest IH];
    intros p Hinv Hbound Hrange.
  - exists [], p. simpl. repeat split.
    + destruct Hinv as (_ & _ & _ & Hed & _).
      unfold rejections, PacketQueue.depth; simpl. lia.
    + unfold rejections; simpl. rewrite Z.add_0_r.
      symmetry. now apply wrap_small.
  - assert (Hdepth : PacketQueue.depth (queue_ p) <= QueueCapacity)
      by (destruct Hinv as (_ & _ & _ & Hed & _);
          unfold PacketQueue.depth; lia).
    cbn [length] in Hbound. rewrite Nat2Z.inj_succ in Hbound.
    cbn [submit_all].
    destruct (Z.eq_dec (PacketQueue.depth (queue_ p)) QueueCapacity)
      as [Hfull | Hroom].
    + rewrite submitPacket_when_full by (try assumption; lia).
      match goal with
      | |- context [submit_all _ _ rest ?p1] =>
          destruct (IH p1) as (oks & p' & Hrun & Hlen & Hrej & Hdrop & Hw & Hp)
      end; simpl; try assumption; try lia.
      { apply wrap_range. }
      simpl in Hrun, Hrej, Hdrop, Hw, Hp.
      exists (false :: oks), p'. rewrite Hrun.
      repeat split; try assumption.
      * simpl. now rewrite Hlen.
      * rewrite rejections_cons, Hrej. cbn [length].
        pose proof (rejections_nonneg oks). lia.
      * rewrite Hdrop, wrap_add_l, rejections_cons. f_equal. lia.
    + rewrite submitPacket_with_room by (try assumption; lia).
      match goal with
      | |- context [submit_all _ _ rest ?p1] =>
          destruct (IH p1) as (oks & p' & Hrun & Hlen & Hrej & Hdrop & Hw & Hp)
      end; simpl; try assumption; try lia.
      { apply enqueued_invariant; [exact Hinv | lia]. }
      simpl in Hrun, Hrej, Hdrop, Hw, Hp.
      exists (true :: oks), p'. rewrite Hrun.
      repeat split; try assumption.
      * simpl. now rewrite Hlen.
      * rewrite rejections_cons, Hrej. cbn [length].
        unfold PacketQueue.depth in *. simpl. lia.
Qed.

(** C8.  On a queue that holds [Capacity] jobs [submitPacket] returns
    [false], leaves the queue, the engine and the other counters as they
    were (the packet is neither stored nor processed) and adds one to
    [packets_dropped_queue_full_]; on a queue with room it returns [true]
    and leaves that counter alone.  A run of submissions with no dequeue
    is rejected exactly as often as it exceeds the free slots, and the
    counter goes up by that number: more submissions than the capacity
    give at least one rejection. *)
Theorem queue_full_is_counted
    fuel now data src dst sport dport packets p :
  PacketQueue.well_formed QueueCapacity (queue_ p) = true ->
  PacketQueue.enqueue_pos_ (queue_ p) + Z.of_nat (length packets)
    + QueueCapacity < 2 ^ 63 ->
  0 <= packets_dropped_queue_full_ p < U64.modulus ->
  (exists ok p',
     submitPacket (S fuel) now data src dst sport dport p = Some (ok, p')
     /\ ok = negb (PacketQueue.is_full QueueCapacity (queue_ p))
     /\ watcher_ p' = watcher_ p
     /\ packets_processed_ p' = packets_processed_ p
     /\ packets_dropped_queue_full_ p'
        = (if ok then packets_dropped_queue_full_ p
           else U64.wrap (packets_dropped_queue_full_ p + 1))
     /\ queue_ p'
        = (if ok
           then PacketQueue.enqueued QueueCapacity
                  (mkPacketJob now data src dst sport dport false true)
                  (queue_ p)
           else queue_ p))
  /\ (exists oks p',
        submit_all (S fuel) now packets p = Some (oks, p')
        /\ length oks = length packets
        /\ rejections oks
           = Z.max 0 (Z.of_nat (length packets)
                      - (QueueCapacity - PacketQueue.depth (queue_ p)))
        /\ packets_dropped_queue_full_ p'
           = U64.wrap (packets_dropped_queue_full_ p + rejections oks)
        /\ watcher_ p' = watcher_ p
        /\ (QueueCapacity < Z.of_nat (length packets) -> In false oks)).
Proof.
  intros Hwf Hbound Hrange.
  apply well_formed_invariant in Hwf. destruct Hwf as [Hinv Hpos].
  assert (Hdepth : 0 <= PacketQueue.depth (queue_ p) <= QueueCapacity)
    by (destruct Hinv as (_ & _ & Hd & Hed & _);
        unfold PacketQueue.depth; lia).
  split.
  - unfold PacketQueue.is_full.
    destruct (Z.eqb_spec (PacketQueue.depth (queue_ p)) QueueCapacity)
      as [Hfull | Hroom].
    + rewrite submitPacket_when_full by assumption.
      eexists _, _. split; [reflexivity |]. simpl. auto.
    + rewrite submitPacket_with_room by (try assumption; lia).
      eexists _, _. split; [reflexivity |]. simpl. auto.
  - destruct (submit_all_verdicts fuel now packets p Hinv Hbound Hrange)
      as (oks & p' & Hrun & Hlen & Hrej & Hdrop & Hw & _).
    exists oks, p'. repeat split; try assumption.
    intros Hmany. apply rejection_is_among. lia.
Qed.

(** With the flag cleared, a worker at its loop condition returns: it
    dequeues nothing and calls the engine for nothing. *)
Lemma worker_returns_on_cleared_flag fuel c w wk p :
  running_ p = false ->
  workers_ p !! w = Some wk -> exited wk = false ->
  workerThread_iteration fuel c w p = Some (workerThread_return w wk p).
Proof.
  intros Hflag Hw Hlive. unfold workerThread_iteration.
  now rewrite Hw, Hlive, Hflag.
Qed.

(** Once the flag is cleared, an iteration of a worker takes no job: the
    queue, the engine and the processed counter stay as they were. *)
Lemma cleared_flag_stops_dequeuing fuel c w p :
  running_ p = false ->
  exists p',
    workerThread_iteration fuel c w p = Some p'
    /\ queue_ p' = queue_ p /\ watcher_ p' = watcher_ p
    /\ packets_processed_ p' = packets_processed_ p
    /\ running_ p' = false.
Proof.
  intros Hflag. unfold workerThread_iteration.
  destruct (workers_ p !! w) as [wk |]; [| eauto 10].
  destruct (exited wk); [eauto 10 |].
  rewrite Hflag. eexists. split; [reflexivity |]. simpl. auto.
Qed.

End ProcessorFacts.

(** ** The processor on concrete inputs *)

Import PacketProcessor.

Lemma queue_full_is_counted_flood :
  (PacketQueue.well_formed QueueCapacity (queue_ fresh_processor) = true
   /\ PacketQueue.depth (queue_ fresh_processor) = 0
   /\ Z.of_nat (length flood) = QueueCapacity + 1)
  /\ exists oks p',
       submit_all 1 9 flood fresh_processor = Some (oks, p')
       /\ rejections oks = 1
       /\ In false oks
       /\ packets_dropped_queue_full_ p' = 1.
Proof.
  assert (Hwf : PacketQueue.well_formed QueueCapacity
                  (queue_ fresh_processor) = true)
    by (vm_compute; reflexivity).
  assert (Hlen : Z.of_nat (length flood) = QueueCapacity + 1)
    by (vm_compute; reflexivity).
  split; [split; [exact Hwf | split; [reflexivity | exact Hlen]] |].
  destruct (queue_full_is_counted 0 9 twelve_bytes ip_master ip_plc 5000 502
              flood fresh_processor Hwf)
    as (_ & oks & p' & Hrun & _ & Hrej & Hdrop & _ & Hsome).
  - rewrite Hlen. vm_compute. reflexivity.
  - simpl. unfold U64.modulus. lia.
  - rewrite Hlen in Hrej, Hsome.
    change (PacketQueue.depth (queue_ fresh_processor)) with 0 in Hrej.
    assert (Hone : rejections oks = 1) by (rewrite Hrej; reflexivity).
    exists oks, p'. split; [exact Hrun |]. split; [exact Hone |].
    split; [apply Hsome; unfold QueueCapacity; lia |].
    rewrite Hdrop, Hone. reflexivity.
Defined.

(** * The queue as a bounded FIFO *)

Section QueueFifo.

Variable Capacity : Z.

Lemma numbered_slots_lookup n i k :
  (k < n)%nat ->
  PacketQueue.numbered_slots n i !! k
  = Some (PacketQueue.mkSlot (i + Z.of_nat k) PacketJob_default).
Proof.
  revert i k. induction n as [| n IH]; intros i k Hk; [lia |].
  destruct k as [| k]; simpl.
  - now rewrite Z.add_0_r.
  - rewrite IH by lia. do 2 f_equal. lia.
Qed.

Lemma numbered_slots_length n i :
  length (PacketQueue.numbered_slots n i) = n.
Proof. revert i. induction n as [| n IH]; intros i; simpl; auto. Qed.

Lemma omap_ext_in {A B : Type} (f g : A -> option B) (l : list A) :
  (forall x, In x l -> f x = g x) -> omap f l = omap g l.
Proof.
  induction l as [| x l IH]; intros Hext; [reflexivity |].
  change (omap f (x :: l))
    with (match f x with Some y => y :: omap f l | None => omap f l end).
  change (omap g (x :: l))
    with (match g x with Some y => y :: omap g l | None => omap g l end).
  rewrite (Hext x) by now left.
  rewrite IH; [reflexivity |]. intros y Hy. apply Hext. now right.
Qed.

Lemma omap_length_total {A B : Type} (f : A -> option B) (l : list A) :
  (forall x, In x l -> is_Some (f x)) -> length (omap f l) = length l.
Proof.
  induction l as [| x l IH]; intros Hall; [reflexivity |].
  change (omap f (x :: l))
    with (match f x with Some y => y :: omap f l | None => omap f l end).
  destruct (Hall x) as [y Hy]; [now left |]. rewrite Hy. simpl.
  rewrite IH; [reflexivity |]. intros z Hz. apply Hall. now right.
Qed.

(** Under the invariant the queue holds as many jobs as its positions are
    apart. *)
Lemma contents_length q :
  PacketQueue.invariant Capacity q ->
  Z.of_nat (length (PacketQueue.contents Capacity q)) = PacketQueue.depth q.
Proof.
  intros (Hcap & Hlen & Hd & Hed & Hslots).
  unfold PacketQueue.contents. rewrite omap_length_total.
  - rewrite length_seq. unfold PacketQueue.depth. lia.
  - intros k Hk. apply in_seq in Hk. unfold PacketQueue.depth in Hk.
    destruct (Hslots (PacketQueue.dequeue_pos_ q + Z.of_nat k))
      as (s & Hs & _); [lia |].
    rewrite Hs. simpl. eauto.
Qed.

(** An accepted [enqueue] puts the job behind the jobs held. *)
Lemma enqueued_contents j q :
  PacketQueue.invariant Capacity q ->
  PacketQueue.depth q < Capacity ->
  PacketQueue.contents Capacity (PacketQueue.enqueued Capacity j q)
  = PacketQueue.contents Capacity q ++ [j].
Proof.
  intros (Hcap & Hlen & Hd & Hed & Hslots) Hroom.
  unfold PacketQueue.depth in Hroom.
  unfold PacketQueue.contents, PacketQueue.depth, PacketQueue.enqueued.
  simpl.
  replace (Z.to_nat (PacketQueue.enqueue_pos_ q + 1
                     - PacketQueue.dequeue_pos_ q))
    with (S (Z.to_nat (PacketQueue.enqueue_pos_ q
                       - PacketQueue.dequeue_pos_ q))) by lia.
  rewrite seq_S, omap_app. f_equal.
  - apply omap_ext_in. intros k Hk. apply in_seq in Hk.
    rewrite list_lookup_insert_ne; [reflexivity |].
    intros Hidx. apply slot_index_inj in Hidx; lia.
  - simpl.
    replace (PacketQueue.dequeue_pos_ q
             + Z.of_nat (Z.to_nat (PacketQueue.enqueue_pos_ q
                                   - PacketQueue.dequeue_pos_ q)))
      with (PacketQueue.enqueue_pos_ q) by lia.
    rewrite list_lookup_insert_eq by (apply slot_index_lt; lia).
    reflexivity.
Qed.

Lemma omap_seq_shift {B : Type} (f : nat -> option B) (a n : nat) :
  omap f (seq (S a) n) = omap (fun k => f (S k)) (seq a n).
Proof.
  revert a. induction n as [| n IH]; intros a; [reflexivity |].
  change (seq (S a) (S n)) with (S a :: seq (S (S a)) n).
  change (seq a (S n)) with (a :: seq (S a) n).
  change (omap f (S a :: seq (S (S a)) n))
    with (match f (S a) with
          | Some y => y :: omap f (seq (S (S a)) n)
          | None => omap f (seq (S (S a)) n)
          end).
  change (omap (fun k => f (S k)) (a :: seq (S a) n))
    with (match f (S a) with
          | Some y => y :: omap (fun k => f (S k)) (seq (S a) n)
          | None => omap (fun k => f (S k)) (seq (S a) n)
          end).
  now rewrite IH.
Qed.

(** With no job held, [dequeue] answers [false] on its first pass and
    leaves the queue as it was. *)
Lemma dequeue_when_empty fuel q :
  PacketQueue.invariant Capacity q ->
  PacketQueue.enqueue_pos_ q + Capacity < 2 ^ 63 ->
  PacketQueue.depth q = 0 ->
  PacketQueue.dequeue Capacity (S fuel) q = Some (None, q)
  /\ PacketQueue.contents Capacity q = [].
Proof.
  intros (Hcap & Hlen & Hd & Hed & Hslots) Hbound Hempty.
  unfold PacketQueue.depth in Hempty.
  destruct (Hslots (PacketQueue.dequeue_pos_ q)) as (s & Hs & Hseq); [lia |].
  unfold PacketQueue.expected_sequence in Hseq.
  destruct (Z.ltb_spec (PacketQueue.dequeue_pos_ q)
                       (PacketQueue.enqueue_pos_ q)); [lia |].
  split.
  - unfold PacketQueue.dequeue; simpl. rewrite Hs, Hseq.
    rewrite (wrap_small (PacketQueue.dequeue_pos_ q + 1))
      by (unfold U64.modulus; lia).
    rewrite !to_signed_small by lia.
    destruct (Z.eqb_spec (PacketQueue.dequeue_pos_ q
                          - (PacketQueue.dequeue_pos_ q + 1)) 0); [lia |].
    destruct (Z.ltb_spec (PacketQueue.dequeue_pos_ q
                          - (PacketQueue.dequeue_pos_ q + 1)) 0); [| lia].
    reflexivity.
  - unfold PacketQueue.contents, PacketQueue.depth.
    replace (PacketQueue.enqueue_pos_ q - PacketQueue.dequeue_pos_ q)
      with 0 by lia.
    reflexivity.
Qed.

(** With a job held, [dequeue] hands out the oldest one on its first pass
    and keeps the others in their order. *)
Lemma dequeue_when_held fuel q :
  PacketQueue.invariant Capacity q ->
  PacketQueue.enqueue_pos_ q + Capacity < 2 ^ 63 ->
  0 < PacketQueue.depth q ->
  exists j q',
    PacketQueue.dequeue Capacity (S fuel) q = Some (Some j, q')
    /\ PacketQueue.contents Capacity q = j :: PacketQueue.contents Capacity q'
    /\ PacketQueue.invariant Capacity q'
    /\ PacketQueue.enqueue_pos_ q' = PacketQueue.enqueue_pos_ q
    /\ PacketQueue.dequeue_pos_ q' = PacketQueue.dequeue_pos_ q + 1.
Proof.
  intros (Hcap & Hlen & Hd & Hed & Hslots) Hbound Hheld.
  unfold PacketQueue.depth in Hheld.
  destruct (Hslots (PacketQueue.dequeue_pos_ q)) as (s & Hs & Hseq); [lia |].
  unfold PacketQueue.expected_sequence in Hseq.
  destruct (Z.ltb_spec (PacketQueue.dequeue_pos_ q)
                       (PacketQueue.enqueue_pos_ q)); [| lia].
  exists (PacketQueue.job s). eexists. split; [| split; [| split]].
  - unfold PacketQueue.dequeue; simpl. rewrite Hs, Hseq.
    rewrite (wrap_small (PacketQueue.dequeue_pos_ q + 1))
      by (unfold U64.modulus; lia).
    rewrite (wrap_small (PacketQueue.dequeue_pos_ q + Capacity))
      by (unfold U64.modulus; lia).
    rewrite Z.sub_diag. simpl. reflexivity.
  - unfold PacketQueue.contents, PacketQueue.depth. simpl.
    replace (Z.to_nat (PacketQueue.enqueue_pos_ q
                       - PacketQueue.dequeue_pos_ q))
      with (S (Z.to_nat (PacketQueue.enqueue_pos_ q
                         - (PacketQueue.dequeue_pos_ q + 1)))) by lia.
    set (m := Z.to_nat (PacketQueue.enqueue_pos_ q
                        - (PacketQueue.dequeue_pos_ q + 1))).
    change (seq 0 (S m)) with (0%nat :: seq 1 m).
    match goal with
    | |- omap ?f (0%nat :: seq 1 m) = _ =>
        change (omap f (0%nat :: seq 1 m))
          with (match f 0%nat with
                | Some y => y :: omap f (seq 1 m)
                | None => omap f (seq 1 m)
                end)
    end.
    cbn beta. rewrite Z.add_0_r, Hs. simpl. f_equal.
    rewrite omap_seq_shift. apply omap_ext_in.
    intros k Hk. apply in_seq in Hk. subst m.
    rewrite list_lookup_insert_ne.
    + do 3 f_equal. lia.
    + intros Hidx. apply slot_index_inj in Hidx; lia.
  - repeat split; simpl; try lia.
    + rewrite length_insert. exact Hlen.
    + intros p Hp. unfold PacketQueue.expected_sequence; simpl.
      destruct (Z.eq_dec p (PacketQueue.dequeue_pos_ q + Capacity))
        as [-> | Hne].
      * eexists. split.
        -- replace (PacketQueue.slot_index Capacity
                      (PacketQueue.dequeue_pos_ q + Capacity))
             with (PacketQueue.slot_index Capacity
                     (PacketQueue.dequeue_pos_ q)).
           ++ apply list_lookup_insert_eq. apply slot_index_lt; lia.
           ++ unfold PacketQueue.slot_index. f_equal. symmetry.
              replace (PacketQueue.dequeue_pos_ q + Capacity)
                with (PacketQueue.dequeue_pos_ q + 1 * Capacity) by lia.
              apply Z_mod_plus_full.
        -- simpl.
           destruct (Z.ltb_spec (PacketQueue.dequeue_pos_ q + Capacity)
                                (PacketQueue.enqueue_pos_ q)); lia.
      * destruct (Hslots p) as (s' & Hs' & Hseq'); [lia |].
        exists s'. split; [| exact Hseq'].
        rewrite list_lookup_insert_ne; [exact Hs' |].
        intros Hidx. apply slot_index_inj in Hidx; lia.
  - simpl. auto.
Qed.

(** X1.  The constructor builds an empty queue that satisfies the
    representation invariant, for every capacity of at least two slots:
    no job is held and [dequeue] finds nothing. *)
Theorem new_queue_is_empty fuel :
  2 <= Capacity -> Capacity < 2 ^ 63 ->
  PacketQueue.invariant Capacity (PacketQueue.new Capacity)
  /\ PacketQueue.contents Capacity (PacketQueue.new Capacity) = []
  /\ PacketQueue.dequeue Capacity (S fuel) (PacketQueue.new Capacity)
     = Some (None, PacketQueue.new Capacity).
Proof.
  intros Hcap Hbound.
  assert (Hinv : PacketQueue.invariant Capacity (PacketQueue.new Capacity)).
  { unfold PacketQueue.new. repeat split; simpl; try lia.
    - rewrite numbered_slots_length. lia.
    - intros p Hp. eexists. split.
      + unfold PacketQueue.slot_index. rewrite Z.mod_small by lia.
        apply numbered_slots_lookup. lia.
      + simpl. unfold PacketQueue.expected_sequence; simpl.
        destruct (Z.ltb_spec p 0); lia. }
  destruct (dequeue_when_empty fuel (PacketQueue.new Capacity) Hinv)
    as [Hdeq Hnone]; simpl; try lia; [reflexivity |].
  auto.
Qed.

(** X2.  On a queue that satisfies the invariant [enqueue] ends on its
    first pass and is the append of a bounded FIFO: with fewer than
    [Capacity] jobs held it answers [true] and the job goes behind the
    jobs held; with [Capacity] jobs held it answers [false] and the jobs
    held stay as they are.  The invariant is kept. *)
Theorem enqueue_is_bounded_append fuel j q :
  PacketQueue.invariant Capacity q ->
  PacketQueue.enqueue_pos_ q + Capacity < 2 ^ 63 ->
  exists ok q',
    PacketQueue.enqueue Capacity (S fuel) j q = Some (ok, q')
    /\ ok = (Z.of_nat (length (PacketQueue.contents Capacity q)) <? Capacity)
    /\ PacketQueue.contents Capacity q'
       = (if ok then PacketQueue.contents Capacity q ++ [j]
          else PacketQueue.contents Capacity q)
    /\ PacketQueue.invariant Capacity q'.
Proof.
  intros Hinv Hbound.
  pose proof (contents_length q Hinv) as Hlen.
  assert (Hdepth : PacketQueue.depth q <= Capacity)
    by (destruct Hinv as (_ & _ & _ & Hed & _);
        unfold PacketQueue.depth; lia).
  destruct (Z.ltb_spec (Z.of_nat (length (PacketQueue.contents Capacity q)))
                       Capacity) as [Hroom | Hfull].
  - exists true, (PacketQueue.enqueued Capacity j q).
    rewrite enqueue_with_room by (try assumption; lia).
    split; [reflexivity |]. split; [reflexivity |]. split.
    + apply enqueued_contents; [exact Hinv | lia].
    + apply enqueued_invariant; [exact Hinv | lia].
  - exists false, q.
    rewrite enqueue_when_full by (try assumption; lia).
    auto.
Qed.

(** X3.  On a queue that satisfies the invariant [dequeue] ends on its
    first pass and is the pop of a FIFO: with no job held it answers
    [false] and changes nothing; otherwise it hands out the oldest job
    and the others stay, in their order.  The invariant is kept and
    [enqueue_pos_] is not moved. *)
Theorem dequeue_is_pop fuel q :
  PacketQueue.invariant Capacity q ->
  PacketQueue.enqueue_pos_ q + Capacity < 2 ^ 63 ->
  exists r q',
    PacketQueue.dequeue Capacity (S fuel) q = Some (r, q')
    /\ match PacketQueue.contents Capacity q with
       | [] => r = None /\ q' = q
       | j :: rest =>
           r = Some j /\ PacketQueue.contents Capacity q' = rest
       end
    /\ PacketQueue.invariant Capacity q'
    /\ PacketQueue.enqueue_pos_ q' = PacketQueue.enqueue_pos_ q.
Proof.
  intros Hinv Hbound.
  pose proof (contents_length q Hinv) as Hlen.
  assert (Hdepth : 0 <= PacketQueue.depth q)
    by (destruct Hinv as (_ & _ & Hd & _);
        unfold PacketQueue.depth; lia).
  destruct (Z.eq_dec (PacketQueue.depth q) 0) as [Hempty | Hheld].
  - destruct (dequeue_when_empty fuel q Hinv Hbound Hempty) as [Hdeq Hnone].
    exists None, q. rewrite Hdeq, Hnone. auto.
  - destruct (dequeue_when_held fuel q Hinv Hbound)
      as (j & q' & Hdeq & Hcontents & Hinv' & He & _); [lia |].
    exists (Some j), q'. rewrite Hdeq, Hcontents. auto.
Qed.

End QueueFifo.

(** X4.  A queue of capacity one never reports that it is full: a second
    [enqueue] is accepted and overwrites the job not yet taken, and after
    it the retry loop of [dequeue] does not end, however many passes it is
    given. *)
Theorem capacity_one_overwrites (j1 j2 : PacketJob) (fuel : nat) :
  exists q1 q2,
    PacketQueue.enqueue 1 1 j1 (PacketQueue.new 1) = Some (true, q1)
    /\ PacketQueue.contents 1 q1 = [j1]
    /\ PacketQueue.enqueue 1 1 j2 q1 = Some (true, q2)
    /\ PacketQueue.slots_ q2 = [PacketQueue.mkSlot 2 j2]
    /\ PacketQueue.dequeue 1 fuel q2 = None.
Proof.
  eexists _, _. split; [reflexivity |]. split; [reflexivity |].
  split; [reflexivity |]. split; [reflexivity |].
  unfold PacketQueue.dequeue. simpl PacketQueue.dequeue_pos_.
  induction fuel as [| fuel IH]; [reflexivity |].
  simpl. exact IH.
Qed.

Lemma new_queue_is_empty_small :
  PacketQueue.invariant 4 (PacketQueue.new 4)
  /\ PacketQueue.contents 4 (PacketQueue.new 4) = []
  /\ PacketQueue.dequeue 4 1 (PacketQueue.new 4)
     = Some (None, PacketQueue.new 4).
Proof. apply (new_queue_is_empty 4 0); lia. Defined.

Lemma enqueue_is_bounded_append_held :
  (PacketQueue.well_formed 4 held_queue = true
   /\ PacketQueue.contents 4 held_queue = [read_job; write_job])
  /\ exists ok q',
       PacketQueue.enqueue 4 1 read_job held_queue = Some (ok, q')
       /\ ok = (Z.of_nat (length (PacketQueue.contents 4 held_queue)) <? 4)
       /\ PacketQueue.contents 4 q'
          = (if ok then PacketQueue.contents 4 held_queue ++ [read_job]
             else PacketQueue.contents 4 held_queue)
       /\ PacketQueue.invariant 4 q'.
Proof.
  assert (Hwf : PacketQueue.well_formed 4 held_queue = true)
    by (vm_compute; reflexivity).
  split; [split; [exact Hwf | vm_compute; reflexivity] |].
  apply (enqueue_is_bounded_append 4 0 read_job held_queue).
  - apply well_formed_invariant. exact Hwf.
  - vm_compute. reflexivity.
Defined.

Lemma dequeue_is_pop_held :
  (PacketQueue.well_formed 4 held_queue = true
   /\ PacketQueue.contents 4 held_queue = [read_job; write_job])
  /\ exists r q',
       PacketQueue.dequeue 4 1 held_queue = Some (r, q')
       /\ match PacketQueue.contents 4 held_queue with
          | [] => r = None /\ q' = held_queue
          | j :: rest => r = Some j /\ PacketQueue.contents 4 q' = rest
          end
       /\ PacketQueue.invariant 4 q'
       /\ PacketQueue.enqueue_pos_ q' = PacketQueue.enqueue_pos_ held_queue.
Proof.
  assert (Hwf : PacketQueue.well_formed 4 held_queue = true)
    by (vm_compute; reflexivity).
  split; [split; [exact Hwf | vm_compute; reflexivity] |].
  apply (dequeue_is_pop 4 0 held_queue).
  - apply well_formed_invariant. exact Hwf.
  - vm_compute. reflexivity.
Defined.

(** * The worker pool *)

Section WorkerFacts.

Context `{Collaborators}.

(** X5.  A worker at its loop condition with [running_] set takes the
    oldest job of the queue, calls [processPacket] on the engine with
    the fields of that job, keeps the verdict in its own job object and
    adds one to [packets_processed_]; the younger jobs stay queued in
    their order.  On an empty queue the iteration changes nothing. *)
Theorem worker_takes_oldest_job fuel c w wk p :
  PacketQueue.invariant PacketProcessor.QueueCapacity
    (PacketProcessor.queue_ p) ->
  PacketQueue.enqueue_pos_ (PacketProcessor.queue_ p)
    + PacketProcessor.QueueCapacity < 2 ^ 63 ->
  PacketProcessor.running_ p = true ->
  PacketProcessor.workers_ p !! w = Some wk ->
  PacketProcessor.exited wk = false ->
  exists p',
    PacketProcessor.workerThread_iteration (S fuel) c w p = Some p'
    /\ match PacketQueue.contents PacketProcessor.QueueCapacity
               (PacketProcessor.queue_ p) with
       | [] =>
           PacketProcessor.watcher_ p' = PacketProcessor.watcher_ p
           /\ PacketProcessor.queue_ p' = PacketProcessor.queue_ p
           /\ PacketProcessor.workers_ p' = PacketProcessor.workers_ p
           /\ PacketProcessor.packets_processed_ p'
              = PacketProcessor.packets_processed_ p
       | j :: rest =>
           let r :=
             GridWatcher.processPacket c (job_data j) (job_source_ip j)
               (job_dest_ip j) (job_source_port j) (job_dest_port j)
               (PacketProcessor.watcher_ p) in
           PacketProcessor.watcher_ p' = r.2
           /\ PacketQueue.contents PacketProcessor.QueueCapacity
                (PacketProcessor.queue_ p') = rest
           /\ PacketProcessor.workers_ p' !! w
              = Some (PacketProcessor.mkWorker
                        (mkPacketJob (received_at j) (job_data j)
                           (job_source_ip j) (job_dest_ip j)
                           (job_source_port j) (job_dest_port j)
                           true r.1)
                        false)
           /\ PacketProcessor.packets_processed_ p'
              = U64.wrap (PacketProcessor.packets_processed_ p + 1)
       end.
Proof.
  intros Hinv Hbound Hrun Hw Hlive.
  unfold PacketProcessor.workerThread_iteration,
    PacketProcessor.workerThread_body.
  rewrite Hw, Hlive, Hrun.
  assert (Hdepth : 0 <= PacketQueue.depth (PacketProcessor.queue_ p))
    by (destruct Hinv as (_ & _ & Hd & _); unfold PacketQueue.depth; lia).
  destruct (Z.eq_dec (PacketQueue.depth (PacketProcessor.queue_ p)) 0)
    as [Hempty | Hheld].
  - destruct (dequeue_when_empty PacketProcessor.QueueCapacity fuel
                (PacketProcessor.queue_ p) Hinv Hbound Hempty)
      as [Hdeq Hnone].
    rewrite Hdeq, Hnone. eexists. split; [reflexivity |]. simpl. auto.
  - destruct (dequeue_when_held PacketProcessor.QueueCapacity fuel
                (PacketProcessor.queue_ p) Hinv Hbound)
      as (j & q' & Hdeq & Hcontents & _); [lia |].
    rewrite Hdeq, Hcontents.
    destruct (GridWatcher.processPacket c (job_data j) (job_source_ip j)
                (job_dest_ip j) (job_source_port j) (job_dest_port j)
                (PacketProcessor.watcher_ p)) as [verdict e] eqn:Hcall.
    eexists. split; [reflexivity |]. simpl.
    split; [reflexivity |]. split; [reflexivity |]. split; [| reflexivity].
    apply list_lookup_insert_eq. now apply lookup_lt_Some in Hw.
Qed.

End WorkerFacts.

Lemma worker_takes_oldest_job_busy :
  (PacketQueue.well_formed PacketProcessor.QueueCapacity
     (PacketProcessor.queue_ busy_processor) = true
   /\ PacketProcessor.running_ busy_processor = true
   /\ PacketProcessor.workers_ busy_processor !! 0%nat
      = Some (PacketProcessor.mkWorker PacketJob_default false)
   /\ PacketQueue.contents PacketProcessor.QueueCapacity
        (PacketProcessor.queue_ busy_processor) = [read_job])
  /\ exists p',
       PacketProcessor.workerThread_iteration 1 noon 0 busy_processor
       = Some p'
       /\ PacketProcessor.watcher_ p'
          = (GridWatcher.processPacket noon twelve_bytes ip_master ip_plc
               5000 502 (PacketProcessor.watcher_ busy_processor)).2
       /\ PacketQueue.contents PacketProcessor.QueueCapacity
            (PacketProcessor.queue_ p') = []
       /\ PacketProcessor.packets_processed_ p'
          = U64.wrap (PacketProcessor.packets_processed_ busy_processor + 1).
Proof.
  assert (Hwf : PacketQueue.well_formed PacketProcessor.QueueCapacity
                  (PacketProcessor.queue_ busy_processor) = true)
    by (vm_compute; reflexivity).
  assert (Hheld : PacketQueue.contents PacketProcessor.QueueCapacity
                    (PacketProcessor.queue_ busy_processor) = [read_job])
    by (vm_compute; reflexivity).
  split.
  { split; [exact Hwf |]. split; [vm_compute; reflexivity |].
    split; [vm_compute; reflexivity | exact Hheld]. }
  destruct (worker_takes_oldest_job 0 noon 0
              (PacketProcessor.mkWorker PacketJob_default false)
              busy_processor)
    as (p' & Hstep & Hjob).
  - apply well_formed_invariant. exact Hwf.
  - vm_compute. reflexivity.
  - vm_compute. reflexivity.
  - vm_compute. reflexivity.
  - reflexivity.
  - rewrite Hheld in Hjob. destruct Hjob as (Hw & Hq & _ & Hp).
    exists p'. auto.
Defined.

(** * Latency statistics *)

Lemma fold_min_least (xs : list Z) (a : Z) :
  xs <> [] -> (forall x, In x xs -> x <= a) ->
  In (fold_left Z.min xs a) xs
  /\ forall x, In x xs -> fold_left Z.min xs a <= x.
Proof.
  assert (Hgen : forall xs a,
            (fold_left Z.min xs a = a \/ In (fold_left Z.min xs a) xs)
            /\ fold_left Z.min xs a <= a
            /\ forall x, In x xs -> fold_left Z.min xs a <= x).
  { clear. induction xs as [| y ys IH]; intros a; simpl.
    - split; [now left |]. split; [lia | intros x []].
    - destruct (IH (Z.min a y)) as (Hin & Hle & Hall).
      split; [| split].
      + destruct Hin as [Heq | Hin]; [| now right; right].
        rewrite Heq.
        destruct (Z.min_spec a y) as [[_ ->] | [_ ->]];
          [now left | right; now left].
      + lia.
      + intros x [<- | Hx]; [lia | now apply Hall]. }
  intros Hne Hbound. destruct (Hgen xs a) as (Hin & Hle & Hall).
  split; [| exact Hall].
  destruct Hin as [Heq | Hin]; [| exact Hin].
  destruct xs as [| y ys]; [contradiction |].
  assert (Hy : fold_left Z.min (y :: ys) a <= y) by (apply Hall; now left).
  assert (Hya : y <= a) by (apply Hbound; now left).
  simpl in *. destruct (Hgen ys (Z.min a y)) as (Hin' & _ & _).
  destruct Hin' as [Heq' | Hin']; [| now right].
  left. lia.
Qed.

Lemma fold_max_greatest (xs : list Z) (a : Z) :
  xs <> [] -> (forall x, In x xs -> a <= x) ->
  In (fold_left Z.max xs a) xs
  /\ forall x, In x xs -> x <= fold_left Z.max xs a.
Proof.
  assert (Hgen : forall xs a,
            (fold_left Z.max xs a = a \/ In (fold_left Z.max xs a) xs)
            /\ a <= fold_left Z.max xs a
            /\ forall x, In x xs -> x <= fold_left Z.max xs a).
  { clear. induction xs as [| y ys IH]; intros a; simpl.
    - split; [now left |]. split; [lia | intros x []].
    - destruct (IH (Z.max a y)) as (Hin & Hle & Hall).
      split; [| split].
      + destruct Hin as [Heq | Hin]; [| now right; right].
        rewrite Heq.
        destruct (Z.max_spec a y) as [[_ ->] | [_ ->]];
          [right; now left | now left].
      + lia.
      + intros x [<- | Hx]; [lia | now apply Hall]. }
  intros Hne Hbound. destruct (Hgen xs a) as (Hin & Hle & Hall).
  split; [| exact Hall].
  destruct Hin as [Heq | Hin]; [| exact Hin].
  destruct xs as [| y ys]; [contradiction |].
  assert (Hy : y <= fold_left Z.max (y :: ys) a) by (apply Hall; now left).
  assert (Hya : a <= y) by (apply Hbound; now left).
  simpl in *. destruct (Hgen ys (Z.max a y)) as (Hin' & _ & _).
  destruct Hin' as [Heq' | Hin']; [| now right].
  left. lia.
Qed.

(** The fields of a tracker after a run of [record] calls. *)
Lemma records_fields (ls : list Z) (t : LatencyTracker.t) :
  0 <= LatencyTracker.total_samples_ t < U64.modulus ->
  0 <= LatencyTracker.total_latency_ns_ t < U64.modulus ->
  let t' := fold_left (fun acc ns => LatencyTracker.record ns acc) ls t in
  LatencyTracker.total_samples_ t'
  = U64.wrap (LatencyTracker.total_samples_ t + Z.of_nat (length ls))
  /\ LatencyTracker.total_latency_ns_ t'
     = U64.wrap (LatencyTracker.total_latency_ns_ t
                 + fold_right Z.add 0 (map U64.wrap ls))
  /\ LatencyTracker.min_latency_ns_ t'
     = fold_left Z.min (map U64.wrap ls) (LatencyTracker.min_latency_ns_ t)
  /\ LatencyTracker.max_latency_ns_ t'
     = fold_left Z.max (map U64.wrap ls) (LatencyTracker.max_latency_ns_ t).
Proof.
  revert t. induction ls as [| ns ls IH]; intros t Hs Hl; cbn [fold_left].
  - simpl. rewrite !Z.add_0_r, !wrap_small by assumption. auto.
  - specialize (IH (LatencyTracker.record ns t)).
    destruct IH as (Hn & Hsum & Hmin & Hmax);
      try (simpl; apply wrap_range).
    rewrite Hn, Hsum, Hmin, Hmax. simpl.
    unfold U64.fetch_add. rewrite !wrap_add_l.
    repeat split.
    + f_equal. lia.
    + f_equal. lia.
    + f_equal.
      destruct (Z.ltb_spec (U64.wrap ns) (LatencyTracker.min_latency_ns_ t));
        lia.
    + f_equal.
      destruct (Z.ltb_spec (LatencyTracker.max_latency_ns_ t) (U64.wrap ns));
        lia.
Qed.

(** X7.  After a reset (or the constructor) and a non-empty run of
    [record] calls, fewer than 2^64 of them, [getStats] reports the
    number of calls as [samples], the least recorded value as [min_ns],
    the greatest as [max_ns], as [avg_ns] the sum as the 64-bit counter
    holds it divided by the number of calls, as [avg_us] that average
    divided by 1000.0 and as [avg_ms] [avg_us] divided by 1000.0; a
    recorded value is the tick count converted to [uint64_t]. *)
Theorem getStats_after_records (ls : list Z) (t : LatencyTracker.t) :
  ls <> [] ->
  Z.of_nat (length ls) < U64.modulus ->
  let recorded := map U64.wrap ls in
  let st :=
    LatencyTracker.getStats
      (fold_left (fun acc ns => LatencyTracker.record ns acc) ls
                 (LatencyTracker.reset t)) in
  LatencyTracker.samples st = Z.of_nat (length ls)
  /\ (In (LatencyTracker.min_ns st) recorded
      /\ forall s, In s recorded -> LatencyTracker.min_ns st <= s)
  /\ (In (LatencyTracker.max_ns st) recorded
      /\ forall s, In s recorded -> s <= LatencyTracker.max_ns st)
  /\ LatencyTracker.avg_ns st
     = PrimFloat.div
         (U64.to_double (U64.wrap (fold_right Z.add 0 recorded)))
         (U64.to_double (Z.of_nat (length ls)))
  /\ LatencyTracker.avg_us st
     = PrimFloat.div (LatencyTracker.avg_ns st) 1000%float
  /\ LatencyTracker.avg_ms st
     = PrimFloat.div (LatencyTracker.avg_us st) 1000%float.
Proof.
  intros Hne Hlen recorded st.
  destruct (records_fields ls (LatencyTracker.reset t))
    as (Hn & Hsum & Hmin & Hmax);
    try (simpl; unfold U64.modulus; lia).
  simpl in Hn, Hsum, Hmin, Hmax.
  rewrite wrap_small in Hn by lia.
  rewrite Z.add_0_l in Hn, Hsum.
  assert (Hrange : forall x, In x recorded -> 0 <= x <= U64.UINT64_MAX).
  { intros x Hx. apply in_map_iff in Hx. destruct Hx as (y & <- & _).
    pose proof (wrap_range y). unfold U64.UINT64_MAX. lia. }
  assert (Hrec : recorded <> [])
    by (subst recorded; destruct ls; [contradiction | discriminate]).
  subst st. unfold LatencyTracker.getStats.
  rewrite Hn, Hsum, Hmin, Hmax.
  destruct (Z.ltb_spec 0 (Z.of_nat (length ls))) as [_ | Hzero];
    [| destruct ls; [contradiction | simpl in Hzero; lia]].
  cbn [LatencyTracker.samples LatencyTracker.min_ns LatencyTracker.max_ns
       LatencyTracker.avg_ns LatencyTracker.avg_us LatencyTracker.avg_ms].
  split; [reflexivity |]. split; [| split; [| auto]].
  - apply fold_min_least; [exact Hrec |].
    intros x Hx. apply Hrange in Hx. lia.
  - apply fold_max_greatest; [exact Hrec |].
    intros x Hx. apply Hrange in Hx. lia.
Qed.

Lemma bucket_of_range ns :
  0 <= LatencyTracker.bucket_of ns < LatencyTracker.HISTOGRAM_SIZE.
Proof.
  unfold LatencyTracker.bucket_of, LatencyTracker.HISTOGRAM_SIZE.
  pose proof (Z.log2_nonneg (Z.lor ns 1)).
  assert (0 <= Z.log2 (Z.lor ns 1) / 2) by (apply Z.div_pos; lia).
  lia.
Qed.

Lemma sum_alter_bucket (hist : list Z) (i : nat) :
  (i < length hist)%nat ->
  (forall b, In b hist -> 0 <= b) ->
  fold_right Z.add 0 hist + 1 < U64.modulus ->
  let hist' := alter (fun c => U64.fetch_add c 1) i hist in
  length hist' = length hist
  /\ (forall b, In b hist' -> 0 <= b)
  /\ fold_right Z.add 0 hist' = fold_right Z.add 0 hist + 1.
Proof.
  revert i. induction hist as [| x hist IH]; intros i Hi Hpos Hsum; simpl in *.
  - lia.
  - assert (Hx : 0 <= x) by (apply Hpos; now left).
    assert (Hrest : forall b, In b hist -> 0 <= b)
      by (intros b Hb; apply Hpos; now right).
    assert (Htot : 0 <= fold_right Z.add 0 hist).
    { clear -Hrest. induction hist as [| y ys IH]; simpl; [lia |].
      assert (0 <= y) by (apply Hrest; now left).
      assert (0 <= fold_right Z.add 0 ys)
        by (apply IH; intros b Hb; apply Hrest; now right).
      lia. }
    destruct i as [| i].
    + change (alter (fun c => U64.fetch_add c 1) 0%nat (x :: hist))
        with (U64.fetch_add x 1 :: hist).
      unfold U64.fetch_add. rewrite wrap_small by lia. simpl.
      split; [reflexivity |]. split; [| lia].
      intros b [<- | Hb]; [lia | now apply Hrest].
    + change (alter (fun c => U64.fetch_add c 1) (S i) (x :: hist))
        with (x :: alter (fun c => U64.fetch_add c 1) i hist).
      destruct (IH i) as (Hlen & Hpos' & Hsum'); [lia | exact Hrest | lia |].
      simpl. split; [now rewrite Hlen |]. split; [| lia].
      intros b [<- | Hb]; [exact Hx | now apply Hpos'].
Qed.

Lemma records_histogram (ls : list Z) (t : LatencyTracker.t) :
  Z.of_nat (length (LatencyTracker.histogram_ t))
  = LatencyTracker.HISTOGRAM_SIZE ->
  (forall b, In b (LatencyTracker.histogram_ t) -> 0 <= b) ->
  fold_right Z.add 0 (LatencyTracker.histogram_ t) + Z.of_nat (length ls)
  < U64.modulus ->
  let t' := fold_left (fun acc ns => LatencyTracker.record ns acc) ls t in
  Z.of_nat (length (LatencyTracker.histogram_ t'))
  = LatencyTracker.HISTOGRAM_SIZE
  /\ (forall b, In b (LatencyTracker.histogram_ t') -> 0 <= b)
  /\ fold_right Z.add 0 (LatencyTracker.histogram_ t')
     = fold_right Z.add 0 (LatencyTracker.histogram_ t)
       + Z.of_nat (length ls).
Proof.
  revert t. induction ls as [| ns ls IH]; intros t Hlen Hpos Hsum;
    cbn [fold_left].
  - simpl. rewrite Z.add_0_r. auto.
  - cbn [length] in Hsum. rewrite Nat2Z.inj_succ in Hsum.
    pose proof (bucket_of_range (U64.wrap ns)) as Hbucket.
    destruct (sum_alter_bucket (LatencyTracker.histogram_ t)
                (Z.to_nat (LatencyTracker.bucket_of (U64.wrap ns))))
      as (Hlen1 & Hpos1 & Hsum1); [lia | exact Hpos | lia |].
    destruct (IH (LatencyTracker.record ns t)) as (Hlen' & Hpos' & Hsum').
    + simpl. rewrite Hlen1. exact Hlen.
    + simpl. exact Hpos1.
    + simpl. rewrite Hsum1. lia.
    + split; [exact Hlen' |]. split; [exact Hpos' |].
      rewrite Hsum'. simpl. rewrite Hsum1.
      cbn [length]. lia.
Qed.

(** X8.  Every [record] lands in exactly one of the 32 buckets: after
    any run of fewer than 2^64 calls on a constructed tracker the
    histogram still has 32 buckets and their counts add up to the number
    of calls. *)
Theorem histogram_counts_every_sample (ls : list Z) :
  Z.of_nat (length ls) < U64.modulus ->
  let t :=
    fold_left (fun acc ns => LatencyTracker.record ns acc) ls
              LatencyTracker.new in
  Z.of_nat (length (LatencyTracker.histogram_ t))
  = LatencyTracker.HISTOGRAM_SIZE
  /\ fold_right Z.add 0 (LatencyTracker.histogram_ t)
     = Z.of_nat (length ls)
  /\ LatencyTracker.total_samples_ t = Z.of_nat (length ls).
Proof.
  intros Hlen t.
  destruct (records_histogram ls LatencyTracker.new)
    as (Hsize & _ & Hsum).
  - reflexivity.
  - intros b Hb. vm_compute in Hb.
    repeat (destruct Hb as [<- | Hb]; [lia |]). destruct Hb.
  - change (fold_right Z.add 0
              (LatencyTracker.histogram_ LatencyTracker.new)) with 0.
    lia.
  - destruct (records_fields ls LatencyTracker.new) as (Hn & _);
      try (simpl; unfold U64.modulus; lia).
    split; [exact Hsize |]. split; [exact Hsum |].
    subst t. rewrite Hn. simpl. apply wrap_small. lia.
Qed.


Lemma getStats_after_records_three :
  let st :=
    LatencyTracker.getStats
      (fold_left (fun acc ns => LatencyTracker.record ns acc)
                 [340; 120; 900] (LatencyTracker.reset LatencyTracker.new)) in
  LatencyTracker.samples st = 3
  /\ (In (LatencyTracker.min_ns st) [340; 120; 900]
      /\ forall s, In s [340; 120; 900] -> LatencyTracker.min_ns st <= s)
  /\ (In (LatencyTracker.max_ns st) [340; 120; 900]
      /\ forall s, In s [340; 120; 900] -> s <= LatencyTracker.max_ns st)
  /\ LatencyTracker.avg_ns st
     = PrimFloat.div (U64.to_double 1360) (U64.to_double 3)
  /\ LatencyTracker.avg_us st
     = PrimFloat.div (LatencyTracker.avg_ns st) 1000%float
  /\ LatencyTracker.avg_ms st
     = PrimFloat.div (LatencyTracker.avg_us st) 1000%float.
Proof.
  apply (getStats_after_records [340; 120; 900] LatencyTracker.new).
  - discriminate.
  - vm_compute. reflexivity.
Defined.

Lemma histogram_counts_every_sample_three :
  let t :=
    fold_left (fun acc ns => LatencyTracker.record ns acc) [340; 120; 900]
              LatencyTracker.new in
  Z.of_nat (length (LatencyTracker.histogram_ t)) = 32
  /\ fold_right Z.add 0 (LatencyTracker.histogram_ t) = 3
  /\ LatencyTracker.total_samples_ t = 3.
Proof.
  apply (histogram_counts_every_sample [340; 120; 900]).
  vm_compute. reflexivity.
Defined.


(** * Throughput statistics *)

Lemma record_slot (now nbytes : Z) (tr : ThroughputTracker.t) :
  let s := now / 1000000000 in
  let i := Z.to_nat (s mod ThroughputTracker.WINDOW_SIZE) in
  let tr' := ThroughputTracker.record now nbytes tr in
  length (ThroughputTracker.windows_ tr')
  = length (ThroughputTracker.windows_ tr)
  /\ (forall k, k <> i ->
        ThroughputTracker.windows_ tr' !! k
        = ThroughputTracker.windows_ tr !! k)
  /\ ThroughputTracker.windows_ tr' !! i
     = slot_after_record s nbytes <$> ThroughputTracker.windows_ tr !! i.
Proof.
  intros s i tr'. subst tr'. unfold ThroughputTracker.record. simpl.
  fold s. fold i. split; [apply length_alter |]. split.
  - intros k Hk. apply list_lookup_alter_ne. congruence.
  - rewrite list_lookup_alter_eq.
    destruct (ThroughputTracker.windows_ tr !! i) as [w |]; [| reflexivity].
    simpl. f_equal. unfold slot_after_record, U64.fetch_add.
    destruct (Z.eqb_spec (ThroughputTracker.timestamp_sec w) s) as [Heq | _];
      simpl; [f_equal; exact Heq | reflexivity].
Qed.

Lemma wrap_wrap x : U64.wrap (U64.wrap x) = U64.wrap x.
Proof. unfold U64.wrap. apply Z.mod_mod. unfold U64.modulus. lia. Qed.

(** The slot of second [s] after a run of [record] calls that all fall
    in [s]. *)
Lemma records_in_one_second (evs : list (Z * Z)) (s : Z)
    (tr : ThroughputTracker.t) (w0 : ThroughputTracker.Window) :
  let i := Z.to_nat (s mod ThroughputTracker.WINDOW_SIZE) in
  let tr' :=
    fold_left (fun acc ev => ThroughputTracker.record ev.1 ev.2 acc)
              evs tr in
  let held : Z * Z :=
    if ThroughputTracker.timestamp_sec w0 =? s
    then (ThroughputTracker.packets w0, ThroughputTracker.bytes w0)
    else (0, 0) in
  evs <> [] ->
  (forall ev, In ev evs -> ev.1 / 1000000000 = s) ->
  ThroughputTracker.windows_ tr !! i = Some w0 ->
  ThroughputTracker.windows_ tr' !! i
  = Some (ThroughputTracker.mkWindow
            (U64.wrap (held.1 + Z.of_nat (length evs)))
            (U64.wrap (held.2 + fold_right Z.add 0 (map snd evs))) s)
  /\ (forall k, k <> i ->
        ThroughputTracker.windows_ tr' !! k
        = ThroughputTracker.windows_ tr !! k)
  /\ length (ThroughputTracker.windows_ tr')
     = length (ThroughputTracker.windows_ tr).
Proof.
  intros i. revert tr w0.
  induction evs as [| [now nbytes] evs IH]; intros tr w0 tr' held Hne Hsec Hw0;
    [contradiction |].
  assert (Hnow : now / 1000000000 = s) by (apply (Hsec (now, nbytes)); now left).
  pose proof (record_slot now nbytes tr) as (Hlen1 & Hother1 & Hslot1).
  rewrite Hnow in Hother1, Hslot1. fold i in Hother1, Hslot1.
  rewrite Hw0 in Hslot1. cbn [fmap option_fmap option_map] in Hslot1.
  destruct evs as [| ev2 evs].
  - subst tr'. cbn [fold_left fst snd]. rewrite Hslot1, Hlen1.
    split; [| split; [exact Hother1 | reflexivity]].
    f_equal. subst held. unfold slot_after_record.
    destruct (ThroughputTracker.timestamp_sec w0 =? s);
      cbn [fst snd length map fold_right]; rewrite ?Z.add_0_r; reflexivity.
  - specialize (IH (ThroughputTracker.record now nbytes tr)
                   (slot_after_record s nbytes w0)).
    destruct IH as (Hslot & Hother & Hlen);
      [discriminate | | exact Hslot1 |].
    { intros ev Hev. apply Hsec. now right. }
    subst tr'. cbn [fold_left] in *. simpl fst in *. simpl snd in *.
    split; [| split].
    + rewrite Hslot. f_equal.
      assert (Hts : ThroughputTracker.timestamp_sec
                      (slot_after_record s nbytes w0) = s).
      { unfold slot_after_record.
        destruct (ThroughputTracker.timestamp_sec w0 =? s); reflexivity. }
      rewrite Hts, Z.eqb_refl. subst held. unfold slot_after_record.
      destruct (ThroughputTracker.timestamp_sec w0 =? s);
        cbn [ThroughputTracker.packets ThroughputTracker.bytes fst snd
             length map fold_right];
        rewrite !wrap_add_l; f_equal; f_equal; lia.
    + intros k Hk. rewrite Hother by exact Hk. now apply Hother1.
    + now rewrite Hlen.
Qed.

(** ** ThroughputTracker::record *)

(** X10.  Within one wall-clock second [record] accumulates, and a slot
    left over from another second is restarted: after a non-empty run of
    [record] calls that all fall in second [s], the slot [s mod 60] carries
    the timestamp [s]; its packet count is the number of calls and its byte
    count the sum of their sizes, both modulo 2^64, added to what the slot
    held if it already belonged to [s] and to zero otherwise.  No other
    slot changes. *)
Theorem record_accumulates_within_second
    (evs : list (Z * Z)) (s : Z) (tr : ThroughputTracker.t) :
  let i := Z.to_nat (s mod ThroughputTracker.WINDOW_SIZE) in
  let tr' :=
    fold_left (fun acc ev => ThroughputTracker.record ev.1 ev.2 acc)
              evs tr in
  length (ThroughputTracker.windows_ tr) = 60%nat ->
  0 <= s ->
  evs <> [] ->
  (forall ev, In ev evs -> ev.1 / 1000000000 = s) ->
  exists w0,
    ThroughputTracker.windows_ tr !! i = Some w0
    /\ ThroughputTracker.windows_ tr' !! i
       = Some (if ThroughputTracker.timestamp_sec w0 =? s
               then ThroughputTracker.mkWindow
                      (U64.wrap (ThroughputTracker.packets w0
                                 + Z.of_nat (length evs)))
                      (U64.wrap (ThroughputTracker.bytes w0
                                 + fold_right Z.add 0 (map snd evs))) s
               else ThroughputTracker.mkWindow
                      (U64.wrap (Z.of_nat (length evs)))
                      (U64.wrap (fold_right Z.add 0 (map snd evs))) s)
    /\ (forall k, k <> i ->
          ThroughputTracker.windows_ tr' !! k
          = ThroughputTracker.windows_ tr !! k).
Proof.
  intros i tr' Hlen Hs Hne Hsec.
  assert (Hi : (i < length (ThroughputTracker.windows_ tr))%nat).
  { rewrite Hlen. subst i. unfold ThroughputTracker.WINDOW_SIZE.
    pose proof (Z.mod_pos_bound s 60). lia. }
  destruct (lookup_lt_is_Some_2 _ _ Hi) as [w0 Hw0].
  exists w0. split; [exact Hw0 |].
  destruct (records_in_one_second evs s tr w0 Hne Hsec Hw0)
    as (Hslot & Hother & _).
  split; [| exact Hother].
  fold i in Hslot. subst tr'. rewrite Hslot. f_equal.
  destruct (ThroughputTracker.timestamp_sec w0 =? s); reflexivity.
Qed.

Lemma record_accumulates_within_second_new :
  exists w0,
    ThroughputTracker.windows_ ThroughputTracker.new !! 5%nat = Some w0
    /\ ThroughputTracker.windows_
         (fold_left (fun acc ev => ThroughputTracker.record ev.1 ev.2 acc)
                    [(125000000000, 64); (125999999999, 1500)]
                    ThroughputTracker.new) !! 5%nat
       = Some (if ThroughputTracker.timestamp_sec w0 =? 125
               then ThroughputTracker.mkWindow
                      (U64.wrap (ThroughputTracker.packets w0 + 2))
                      (U64.wrap (ThroughputTracker.bytes w0 + 1564)) 125
               else ThroughputTracker.mkWindow
                      (U64.wrap 2) (U64.wrap 1564) 125)
    /\ (forall k, k <> 5%nat ->
          ThroughputTracker.windows_
            (fold_left (fun acc ev => ThroughputTracker.record ev.1 ev.2 acc)
                       [(125000000000, 64); (125999999999, 1500)]
                       ThroughputTracker.new) !! k
          = ThroughputTracker.windows_ ThroughputTracker.new !! k).
Proof.
  apply (record_accumulates_within_second
           [(125000000000, 64); (125999999999, 1500)] 125
           ThroughputTracker.new).
  - reflexivity.
  - lia.
  - discriminate.
  - intros ev [<- | [<- | []]]; reflexivity.
Defined.

(** ** ThroughputTracker::getStats *)

Lemma tally_step_stale (now_sec window_sec : Z) (tr : ThroughputTracker.t)
    (acc : Z * Z * Z) (i : nat) :
  (forall w,
     ThroughputTracker.windows_ tr
       !! Z.to_nat (U64.wrap (now_sec - Z.of_nat i)
                    mod ThroughputTracker.WINDOW_SIZE) = Some w ->
     ThroughputTracker.timestamp_sec w < U64.wrap (now_sec - window_sec)) ->
  ThroughputTracker.tally_step now_sec window_sec tr acc i = acc.
Proof.
  intros Hstale. unfold ThroughputTracker.tally_step.
  destruct acc as [[tp tb] vw].
  destruct (ThroughputTracker.windows_ tr !! _) as [w |]; [| reflexivity].
  specialize (Hstale w eq_refl).
  destruct (Z.leb_spec (U64.wrap (now_sec - window_sec))
                       (ThroughputTracker.timestamp_sec w));
    [lia | reflexivity].
Qed.

Lemma tally_fold_stale (now_sec window_sec : Z) (tr : ThroughputTracker.t)
    (l : list nat) (acc : Z * Z * Z) :
  (forall i w, In i l ->
     ThroughputTracker.windows_ tr
       !! Z.to_nat (U64.wrap (now_sec - Z.of_nat i)
                    mod ThroughputTracker.WINDOW_SIZE) = Some w ->
     ThroughputTracker.timestamp_sec w < U64.wrap (now_sec - window_sec)) ->
  fold_left (ThroughputTracker.tally_step now_sec window_sec tr) l acc = acc.
Proof.
  induction l as [| i l IH]; intros Hstale; [reflexivity |].
  cbn [fold_left]. rewrite tally_step_stale.
  - apply IH. intros j w Hj. apply Hstale. now right.
  - intros w. apply Hstale. now left.
Qed.

(** X11.  Traffic older than the window is not reported: when every slot
    carries a timestamp below [now_sec - window_sec] (an unsigned
    subtraction, [now_sec] being the tick count of the clock converted to
    [unsigned long long] and divided by 10^9), [getStats] returns zero
    rates. *)
Theorem getStats_ignores_stale_slots
    (now_count window_sec : Z) (tr : ThroughputTracker.t) :
  - 2 ^ 63 <= now_count < 2 ^ 63 ->
  0 <= window_sec < U64.modulus ->
  (forall w, In w (ThroughputTracker.windows_ tr) ->
     ThroughputTracker.timestamp_sec w
     < U64.wrap (U64.wrap now_count / 1000000000 - window_sec)) ->
  ThroughputTracker.getStats now_count window_sec tr
  = ThroughputTracker.mkStats 0%float 0%float 0%float.
Proof.
  intros _ _ Hstale.
  unfold ThroughputTracker.getStats, ThroughputTracker.tally.
  rewrite tally_fold_stale; [reflexivity |].
  intros i w _ Hw. apply Hstale.
  apply list_elem_of_In. eapply list_elem_of_lookup_2. exact Hw.
Qed.

Lemma getStats_ignores_stale_slots_later :
  (forall w,
     In w (ThroughputTracker.windows_
             (ThroughputTracker.record 125000000000 64
                                       ThroughputTracker.new)) ->
     ThroughputTracker.timestamp_sec w
     < U64.wrap (U64.wrap 140000000000 / 1000000000 - 10))
  /\ ThroughputTracker.getStats 140000000000 10
       (ThroughputTracker.record 125000000000 64 ThroughputTracker.new)
     = ThroughputTracker.mkStats 0%float 0%float 0%float.
Proof.
  assert (H : forall w,
     In w (ThroughputTracker.windows_
             (ThroughputTracker.record 125000000000 64
                                       ThroughputTracker.new)) ->
     ThroughputTracker.timestamp_sec w
     < U64.wrap (U64.wrap 140000000000 / 1000000000 - 10)).
  { intros w Hw. vm_compute in Hw.
    repeat (destruct Hw as [<- | Hw]; [reflexivity |]). destruct Hw. }
  split; [exact H |].
  apply (getStats_ignores_stale_slots 140000000000 10); [lia | | exact H].
  unfold U64.modulus. lia.
Defined.

Lemma mod_60_inj a b :
  Z.abs (a - b) < 60 -> a mod 60 = b mod 60 -> a = b.
Proof.
  intros Hnear Hmod.
  pose proof (Z.div_mod a 60). pose proof (Z.div_mod b 60).
  pose proof (Z.mod_pos_bound a 60). pose proof (Z.mod_pos_bound b 60).
  assert (a / 60 = b / 60) by nia. lia.
Qed.

(** The loop of [getStats] after a run of packets in one second of the
    window, every other slot being older than the window: one second is
    counted, with all the packets and bytes of the run. *)
Lemma tally_of_one_second
    (evs : list (Z * Z)) (s now_count window_sec : Z)
    (tr : ThroughputTracker.t) :
  let now_sec := now_count / 1000000000 in
  let tr' :=
    fold_left (fun acc ev => ThroughputTracker.record ev.1 ev.2 acc)
              evs tr in
  length (ThroughputTracker.windows_ tr) = 60%nat ->
  (forall w, In w (ThroughputTracker.windows_ tr) ->
     ThroughputTracker.timestamp_sec w < now_sec - window_sec) ->
  evs <> [] ->
  (forall ev, In ev evs -> ev.1 / 1000000000 = s) ->
  0 <= now_count < 2 ^ 63 ->
  window_sec <= now_sec ->
  0 <= s <= now_sec ->
  now_sec - s < window_sec ->
  now_sec - s < 60 ->
  ThroughputTracker.tally now_count window_sec tr'
  = (U64.wrap (Z.of_nat (length evs)),
     U64.wrap (fold_right Z.add 0 (map snd evs)),
     1).
Proof.
  intros now_sec tr' Hlen Hstale Hne Hsec Hclock Hwin' Hs Hin Hin60.
  assert (Hwin : window_sec <= now_sec < U64.modulus).
  { split; [exact Hwin' |]. subst now_sec. unfold U64.modulus.
    apply Z.div_lt_upper_bound; lia. }
  assert (Hcount : U64.wrap now_count = now_count)
    by (apply wrap_small; unfold U64.modulus; lia).
  set (i := Z.to_nat (s mod ThroughputTracker.WINDOW_SIZE)).
  assert (Hi : (i < length (ThroughputTracker.windows_ tr))%nat).
  { rewrite Hlen. subst i. unfold ThroughputTracker.WINDOW_SIZE.
    pose proof (Z.mod_pos_bound s 60). lia. }
  destruct (lookup_lt_is_Some_2 _ _ Hi) as [w0 Hw0].
  destruct (records_in_one_second evs s tr w0 Hne Hsec Hw0)
    as (Hslot & Hother & _).
  fold i in Hslot, Hother. fold tr' in Hslot, Hother.
  assert (Hw0s : (ThroughputTracker.timestamp_sec w0 =? s) = false).
  { apply Z.eqb_neq.
    assert (ThroughputTracker.timestamp_sec w0 < now_sec - window_sec).
    { apply Hstale, list_elem_of_In. eapply list_elem_of_lookup_2. exact Hw0. }
    lia. }
  rewrite Hw0s in Hslot. cbn [fst snd] in Hslot.
  rewrite !Z.add_0_l in Hslot.
  assert (Hthr : U64.wrap (now_sec - window_sec) = now_sec - window_sec)
    by (apply wrap_small; lia).
  assert (Hidx : forall j : nat, Z.of_nat j < 60 -> Z.of_nat j <= now_sec ->
            Z.to_nat (U64.wrap (now_sec - Z.of_nat j)
                      mod ThroughputTracker.WINDOW_SIZE) = i ->
            Z.of_nat j = now_sec - s).
  { intros j Hj Hj' Hji. subst i. unfold ThroughputTracker.WINDOW_SIZE in Hji.
    rewrite wrap_small in Hji by lia.
    pose proof (Z.mod_pos_bound (now_sec - Z.of_nat j) 60).
    pose proof (Z.mod_pos_bound s 60).
    assert (Hm : (now_sec - Z.of_nat j) mod 60 = s mod 60) by lia.
    apply mod_60_inj in Hm; lia. }
  assert (Hrest : forall l acc,
            (forall j, In j l -> Z.of_nat j < 60 /\ Z.of_nat j <= now_sec
                                 /\ Z.of_nat j <> now_sec - s) ->
            fold_left (ThroughputTracker.tally_step now_sec window_sec tr')
                      l acc = acc).
  { intros l acc Hl. apply tally_fold_stale. intros j w Hj Hw.
    destruct (Hl j Hj) as (Hj60 & Hjn & Hjs).
    rewrite Hthr. apply Hstale.
    rewrite Hother in Hw.
    - apply list_elem_of_In. eapply list_elem_of_lookup_2. exact Hw.
    - intros Hji. apply Hjs. now apply Hidx. }
  unfold ThroughputTracker.tally. rewrite Hcount. fold now_sec.
  set (m := Z.to_nat (Z.min window_sec ThroughputTracker.WINDOW_SIZE)).
  set (d := Z.to_nat (now_sec - s)).
  assert (Hdm : (d < m)%nat)
    by (subst d m; unfold ThroughputTracker.WINDOW_SIZE; lia).
  assert (Hm60 : (m <= 60)%nat)
    by (subst m; unfold ThroughputTracker.WINDOW_SIZE; lia).
  assert (Hmn : Z.of_nat m <= now_sec)
    by (subst m; unfold ThroughputTracker.WINDOW_SIZE; lia).
  replace m with (d + S (m - S d))%nat by lia.
  rewrite seq_app, fold_left_app. cbn [seq fold_left].
  rewrite Hrest.
  2:{ intros j Hj. apply in_seq in Hj. subst d. lia. }
  rewrite Hrest.
  2:{ intros j Hj. apply in_seq in Hj. subst d. lia. }
  unfold ThroughputTracker.tally_step.
  replace (Z.to_nat (U64.wrap (now_sec - Z.of_nat (0 + d))
                     mod ThroughputTracker.WINDOW_SIZE)) with i.
  2:{ subst i d. rewrite wrap_small by lia. f_equal. f_equal. lia. }
  rewrite Hslot. cbn [ThroughputTracker.timestamp_sec
                      ThroughputTracker.packets ThroughputTracker.bytes].
  rewrite Hthr.
  destruct (Z.leb_spec (now_sec - window_sec) s); [| lia].
  rewrite !Z.add_0_l, !wrap_wrap. reflexivity.
Qed.

(** X12.  The rates are averaged over the seconds that saw traffic, not
    over the window.  Take a tracker whose slots are all older than the
    window; record a non-empty run of packets in second [s]; read the
    statistics in second [now_sec], with [s] inside the window
    ([now_sec - s] below both [window_sec] and 60).  Then the loop counts
    one second, and [getStats] divides the packets and the bytes of the
    run by one, whatever [window_sec] is; the third rate is the byte rate
    times 8, divided by 1000000.0. *)
Theorem getStats_averages_over_seconds_with_traffic
    (evs : list (Z * Z)) (s now_count window_sec : Z)
    (tr : ThroughputTracker.t) :
  let now_sec := now_count / 1000000000 in
  let tr' :=
    fold_left (fun acc ev => ThroughputTracker.record ev.1 ev.2 acc)
              evs tr in
  let packets := U64.wrap (Z.of_nat (length evs)) in
  let bytes := U64.wrap (fold_right Z.add 0 (map snd evs)) in
  length (ThroughputTracker.windows_ tr) = 60%nat ->
  (forall w, In w (ThroughputTracker.windows_ tr) ->
     ThroughputTracker.timestamp_sec w < now_sec - window_sec) ->
  evs <> [] ->
  (forall ev, In ev evs -> ev.1 / 1000000000 = s) ->
  0 <= now_count < 2 ^ 63 ->
  window_sec <= now_sec ->
  0 <= s <= now_sec ->
  now_sec - s < window_sec ->
  now_sec - s < 60 ->
  ThroughputTracker.tally now_count window_sec tr' = (packets, bytes, 1)
  /\ ThroughputTracker.getStats now_count window_sec tr'
     = ThroughputTracker.mkStats
         (PrimFloat.div (U64.to_double packets) 1%float)
         (PrimFloat.div (U64.to_double bytes) 1%float)
         (PrimFloat.div
            (PrimFloat.mul (PrimFloat.div (U64.to_double bytes) 1%float)
                           8%float)
            1000000%float).
Proof.
  intros now_sec tr' packets bytes Hlen Hstale Hne Hsec Hclock Hwin Hs Hin
    Hin60.
  pose proof (tally_of_one_second evs s now_count window_sec tr Hlen Hstale
                Hne Hsec Hclock Hwin Hs Hin Hin60) as Htally.
  cbn zeta in Htally. fold tr' packets bytes in Htally.
  split; [exact Htally |].
  unfold ThroughputTracker.getStats. rewrite Htally.
  change (0 <? 1) with true. cbv iota.
  change (U64.to_double 1) with 1%float. reflexivity.
Qed.

Lemma getStats_averages_over_seconds_with_traffic_new :
  ThroughputTracker.tally 127500000000 10
    (fold_left (fun acc ev => ThroughputTracker.record ev.1 ev.2 acc)
               [(125000000000, 64); (125999999999, 1500)]
               ThroughputTracker.new)
  = (U64.wrap 2, U64.wrap 1564, 1)
  /\ ThroughputTracker.getStats 127500000000 10
       (fold_left (fun acc ev => ThroughputTracker.record ev.1 ev.2 acc)
                  [(125000000000, 64); (125999999999, 1500)]
                  ThroughputTracker.new)
     = ThroughputTracker.mkStats
         (PrimFloat.div (U64.to_double (U64.wrap 2)) 1%float)
         (PrimFloat.div (U64.to_double (U64.wrap 1564)) 1%float)
         (PrimFloat.div
            (PrimFloat.mul
               (PrimFloat.div (U64.to_double (U64.wrap 1564)) 1%float)
               8%float)
            1000000%float).
Proof.
  apply (getStats_averages_over_seconds_with_traffic
           [(125000000000, 64); (125999999999, 1500)] 125
           127500000000 10 ThroughputTracker.new).
  - reflexivity.
  - intros w Hw. vm_compute in Hw.
    repeat (destruct Hw as [<- | Hw]; [reflexivity |]). destruct Hw.
  - discriminate.
  - intros ev [<- | [<- | []]]; reflexivity.
  - lia.
  - vm_compute. discriminate.
  - vm_compute. split; discriminate.
  - reflexivity.
  - reflexivity.
Defined.

(** * The processor under interleaved producers and workers *)

Section Interleavings.

Context `{Collaborators}.

(** Every path of [processPacket] counts the packet as processed. *)
Lemma processPacket_processed c packet_data src dst sport dport e :
  Statistics.packets_processed_
    (GridWatcher.stats_
       (GridWatcher.processPacket c packet_data src dst sport dport e).2)
  = U64.wrap (Statistics.packets_processed_ (GridWatcher.stats_ e) + 1).
Proof.
  unfold GridWatcher.processPacket; simpl.
  destruct (GridWatcher.cache_contains src _); [reflexivity |].
  destruct (GridWatcher.cache_contains src _ && _); [reflexivity |].
  destruct (shouldDropPacket _ _ _); [reflexivity |].
  destruct (analyze _ _) as [threats a].
  match goal with
  | |- context [fold_left (GridWatcher.process_threat ?now ?s) threats
                          (false, ?e0)] =>
      pose proof (threats_keep_packet_counters now s threats false e0)
        as (Hp & _ & _);
      destruct (fold_left (GridWatcher.process_threat now s) threats
                          (false, e0)) as [should_drop e1]
  end.
  simpl in Hp. destruct should_drop; simpl; rewrite Hp; reflexivity.
Qed.

Lemma wrap_succ_eq x y :
  U64.wrap x = U64.wrap y -> U64.wrap (U64.wrap (x + 1)) = U64.wrap (y + 1).
Proof.
  intros Hxy. rewrite wrap_wrap.
  rewrite <- (wrap_add_l x), <- (wrap_add_l y). now rewrite Hxy.
Qed.

Lemma step_accounted fuel s room surplus offset p :
  0 <= room ->
  PacketProcessor.accounted (room + 1) surplus offset p ->
  exists p', PacketProcessor.step (S fuel) s p = Some p'
             /\ PacketProcessor.accounted room surplus offset p'.
Proof.
  intros Hroom (Hinv & Hbound & Hbacklog & Hengine).
  pose proof Hinv as (Hcap & Hlen & Hd & Hed & Hslots).
  destruct s as [now data src dst sp dp | c w]; cbn [PacketProcessor.step].
  - unfold PacketProcessor.submitPacket.
    destruct (Z.eq_dec (PacketQueue.depth (PacketProcessor.queue_ p))
                       PacketProcessor.QueueCapacity) as [Hfull | Hnot].
    + rewrite enqueue_when_full by (auto; lia).
      eexists. split; [reflexivity |].
      split; [exact Hinv |]. split; [cbn; lia |].
      split; [exact Hbacklog | exact Hengine].
    + assert (Hlt : PacketQueue.depth (PacketProcessor.queue_ p)
                    < PacketProcessor.QueueCapacity)
        by (unfold PacketQueue.depth in *; lia).
      rewrite enqueue_with_room by (auto; lia).
      eexists. split; [reflexivity |].
      split; [cbn; now apply enqueued_invariant |].
      split; [cbn; lia |].
      split; [| exact Hengine].
      cbn. unfold U64.fetch_add, PacketQueue.depth in *. cbn.
      replace (PacketProcessor.packets_processed_ p
               + (PacketQueue.enqueue_pos_ (PacketProcessor.queue_ p) + 1
                  - PacketQueue.dequeue_pos_ (PacketProcessor.queue_ p))
               + surplus)
        with (PacketProcessor.packets_processed_ p
              + (PacketQueue.enqueue_pos_ (PacketProcessor.queue_ p)
                 - PacketQueue.dequeue_pos_ (PacketProcessor.queue_ p))
              + surplus + 1)
        by lia.
      now apply wrap_succ_eq.
  - unfold PacketProcessor.workerThread_iteration.
    assert (Hsame : PacketProcessor.accounted room surplus offset p).
    { split; [exact Hinv |]. split; [lia |]. split; assumption. }
    destruct (PacketProcessor.workers_ p !! w) as [wk |];
      [| eexists; split; [reflexivity | exact Hsame]].
    destruct (PacketProcessor.exited wk);
      [eexists; split; [reflexivity | exact Hsame] |].
    destruct (PacketProcessor.running_ p);
      [| eexists; split; [reflexivity | exact Hsame]].
    unfold PacketProcessor.workerThread_body.
    destruct (Z.eq_dec (PacketQueue.depth (PacketProcessor.queue_ p)) 0)
      as [Hempty | Hheld].
    + destruct (dequeue_when_empty PacketProcessor.QueueCapacity fuel
                  (PacketProcessor.queue_ p) Hinv) as [Hdq _];
        [lia | exact Hempty |].
      rewrite Hdq. eexists. split; [reflexivity | exact Hsame].
    + destruct (dequeue_when_held PacketProcessor.QueueCapacity fuel
                  (PacketProcessor.queue_ p) Hinv)
        as (j & q' & Hdq & _ & Hinv' & Henq & Hdeq);
        [lia | unfold PacketQueue.depth in *; lia |].
      rewrite Hdq.
      pose proof (processPacket_processed c (job_data j) (job_source_ip j)
                    (job_dest_ip j) (job_source_port j) (job_dest_port j)
                    (PacketProcessor.watcher_ p)) as Hpp.
      destruct (GridWatcher.processPacket c (job_data j) (job_source_ip j)
                  (job_dest_ip j) (job_source_port j) (job_dest_port j)
                  (PacketProcessor.watcher_ p)) as [verdict e].
      cbn [snd] in Hpp.
      eexists. split; [reflexivity |].
      split; [exact Hinv' |]. split; [cbn; lia |]. cbn.
      unfold U64.fetch_add, PacketQueue.depth in *. rewrite Henq, Hdeq, Hpp.
      split.
      * rewrite Hbacklog.
        rewrite <- (Z.add_assoc (U64.wrap _)), wrap_add_l. f_equal. lia.
      * rewrite (wrap_add_l (PacketProcessor.packets_processed_ p + 1)).
        replace (PacketProcessor.packets_processed_ p + 1 + offset)
          with (PacketProcessor.packets_processed_ p + offset + 1) by lia.
        now apply wrap_succ_eq.
Qed.

Lemma steps_accounted fuel ss surplus offset p :
  PacketProcessor.accounted (Z.of_nat (length ss)) surplus offset p ->
  exists p', PacketProcessor.steps (S fuel) ss p = Some p'
             /\ PacketProcessor.accounted 0 surplus offset p'.
Proof.
  revert p. induction ss as [| s ss IH]; intros p Hacc.
  - exists p. split; [reflexivity | exact Hacc].
  - cbn [PacketProcessor.steps].
    destruct (step_accounted fuel s (Z.of_nat (length ss)) surplus offset p)
      as (p1 & Hstep & Hacc1); [lia | |].
    { destruct Hacc as (Hinv & Hbound & Hrest).
      split; [exact Hinv |]. split; [| exact Hrest].
      cbn [length] in Hbound. lia. }
    rewrite Hstep. now apply IH.
Qed.

(** X13.  [getStats] reports a queue depth of zero, but the backlog can
    be read off the counters: under any interleaving of producers
    calling [submitPacket] and workers running passes of their loop, no
    call hangs, the queue keeps its invariant, and [packets_queued_] is
    [packets_processed_] plus the number of jobs in the queue (modulo
    2^64).  The positions have to stay clear of the 64-bit
    wrap-around. *)
Theorem backlog_is_queued_minus_processed fuel ss p :
  PacketQueue.invariant PacketProcessor.QueueCapacity
    (PacketProcessor.queue_ p) ->
  PacketQueue.enqueue_pos_ (PacketProcessor.queue_ p)
    + Z.of_nat (length ss) + PacketProcessor.QueueCapacity < 2 ^ 63 ->
  U64.wrap (PacketProcessor.packets_queued_ p)
  = U64.wrap (PacketProcessor.packets_processed_ p
              + PacketQueue.depth (PacketProcessor.queue_ p)) ->
  exists p',
    PacketProcessor.steps (S fuel) ss p = Some p'
    /\ PacketQueue.invariant PacketProcessor.QueueCapacity
         (PacketProcessor.queue_ p')
    /\ U64.wrap (PacketProcessor.packets_queued_ p')
       = U64.wrap (PacketProcessor.packets_processed_ p'
                   + Z.of_nat (length
                       (PacketQueue.contents PacketProcessor.QueueCapacity
                          (PacketProcessor.queue_ p')))).
Proof.
  intros Hinv Hbound Hbacklog.
  destruct (steps_accounted fuel ss 0
              (Statistics.packets_processed_
                 (GridWatcher.stats_ (PacketProcessor.watcher_ p))
               - PacketProcessor.packets_processed_ p) p)
    as (p' & Hsteps & Hinv' & _ & Hbacklog' & _).
  { split; [exact Hinv |]. split; [exact Hbound |].
    split; [rewrite Z.add_0_r; exact Hbacklog |]. f_equal. lia. }
  exists p'. split; [exact Hsteps |]. split; [exact Hinv' |].
  rewrite Hbacklog'. f_equal.
  rewrite contents_length by exact Hinv'.
  pose proof Hinv' as (_ & _ & Hd & _). unfold PacketQueue.depth in *. lia.
Qed.

(** X14.  Every job a worker takes reaches the engine once: under any
    interleaving of producers and workers, the engine's
    [packets_processed] and the processor's [packets_processed_] advance
    together, so their difference (modulo 2^64) never changes. *)
Theorem engine_counts_what_workers_take fuel ss p :
  PacketQueue.invariant PacketProcessor.QueueCapacity
    (PacketProcessor.queue_ p) ->
  PacketQueue.enqueue_pos_ (PacketProcessor.queue_ p)
    + Z.of_nat (length ss) + PacketProcessor.QueueCapacity < 2 ^ 63 ->
  exists p',
    PacketProcessor.steps (S fuel) ss p = Some p'
    /\ U64.wrap (Statistics.packets_processed_
                   (GridWatcher.stats_ (PacketProcessor.watcher_ p'))
                 - PacketProcessor.packets_processed_ p')
       = U64.wrap (Statistics.packets_processed_
                     (GridWatcher.stats_ (PacketProcessor.watcher_ p))
                   - PacketProcessor.packets_processed_ p).
Proof.
  intros Hinv Hbound.
  set (offset := Statistics.packets_processed_
                   (GridWatcher.stats_ (PacketProcessor.watcher_ p))
                 - PacketProcessor.packets_processed_ p).
  destruct (steps_accounted fuel ss
              (PacketProcessor.packets_queued_ p
               - PacketProcessor.packets_processed_ p
               - PacketQueue.depth (PacketProcessor.queue_ p))
              offset p)
    as (p' & Hsteps & _ & _ & _ & Hengine').
  { split; [exact Hinv |]. split; [exact Hbound |].
    split; f_equal; subst offset; lia. }
  exists p'. split; [exact Hsteps |].
  unfold U64.wrap in *.
  rewrite Zminus_mod, Hengine', <- Zminus_mod. f_equal. lia.
Qed.

End Interleavings.

Lemma backlog_is_queued_minus_processed_busy :
  exists p',
    PacketProcessor.steps 1
      [PacketProcessor.Submit 7 twelve_bytes ip_attacker ip_plc 40000 502;
       PacketProcessor.Work noon 0;
       PacketProcessor.Submit 8 twelve_bytes ip_master ip_plc 40001 502]
      busy_processor = Some p'
    /\ PacketQueue.invariant PacketProcessor.QueueCapacity
         (PacketProcessor.queue_ p')
    /\ U64.wrap (PacketProcessor.packets_queued_ p')
       = U64.wrap (PacketProcessor.packets_processed_ p'
                   + Z.of_nat (length
                       (PacketQueue.contents PacketProcessor.QueueCapacity
                          (PacketProcessor.queue_ p')))).
Proof.
  apply (backlog_is_queued_minus_processed 0
           [PacketProcessor.Submit 7 twelve_bytes ip_attacker ip_plc 40000 502;
            PacketProcessor.Work noon 0;
            PacketProcessor.Submit 8 twelve_bytes ip_master ip_plc 40001 502]
           busy_processor).
  - apply well_formed_invariant. vm_compute. reflexivity.
  - vm_compute. reflexivity.
  - vm_compute. reflexivity.
Defined.

Lemma engine_counts_what_workers_take_busy :
  exists p',
    PacketProcessor.steps 1
      [PacketProcessor.Work noon 0;
       PacketProcessor.Submit 8 twelve_bytes ip_master ip_plc 40001 502;
       PacketProcessor.Work noon 1]
      busy_processor = Some p'
    /\ U64.wrap (Statistics.packets_processed_
                   (GridWatcher.stats_ (PacketProcessor.watcher_ p'))
                 - PacketProcessor.packets_processed_ p')
       = U64.wrap (Statistics.packets_processed_
                     (GridWatcher.stats_
                        (PacketProcessor.watcher_ busy_processor))
                   - PacketProcessor.packets_processed_ busy_processor).
Proof.
  apply (engine_counts_what_workers_take 0
           [PacketProcessor.Work noon 0;
            PacketProcessor.Submit 8 twelve_bytes ip_master ip_plc 40001 502;
            PacketProcessor.Work noon 1]
           busy_processor).
  - apply well_formed_invariant. vm_compute. reflexivity.
  - vm_compute. reflexivity.
Defined.

(** * The engine's counters over its lifetime *)

Section EngineAccounting.

Context `{Collaborators}.

(** The loop over the threats adds one detected threat per alert and
    leaves every other counter. *)
Lemma threats_stats now src threats d e :
  let s := GridWatcher.stats_ e in
  let s' :=
    GridWatcher.stats_
      (fold_left (GridWatcher.process_threat now src) threats (d, e)).2 in
  s' = Statistics.mk
         (Statistics.packets_processed_ s) (Statistics.packets_allowed_ s)
         (Statistics.packets_dropped_ s) (Statistics.bytes_processed_ s)
         (Nat.iter (length threats) (fun n => U64.wrap (n + 1))
                   (Statistics.threats_detected_ s))
         (Statistics.threats_mitigated_ s) (Statistics.total_blocks_ s)
         (Statistics.active_blocks_ s) (Statistics.start_time_ s).
Proof.
  revert d e. induction threats as [| alert threats IH]; intros d e;
    cbn [fold_left].
  - cbn. now destruct (GridWatcher.stats_ e).
  - destruct (GridWatcher.process_threat now src (d, e) alert)
      as [d1 e1] eqn:Hstep.
    specialize (IH d1 e1). cbn zeta in IH. rewrite IH.
    pose proof (process_threat_stats now src d e alert) as Hs.
    rewrite Hstep in Hs. cbn [snd] in Hs. rewrite Hs.
    unfold Statistics.incrementThreatsDetected, U64.fetch_add.
    cbn [Statistics.packets_processed_ Statistics.packets_allowed_
         Statistics.packets_dropped_ Statistics.bytes_processed_
         Statistics.threats_detected_ Statistics.threats_mitigated_
         Statistics.total_blocks_ Statistics.active_blocks_
         Statistics.start_time_ length].
    rewrite Nat.iter_succ_r. reflexivity.
Qed.

(** The statistics one call of [processPacket] leaves: one packet more
    processed, one more on the side of the verdict, some threats more
    detected, the rest as it was. *)
Lemma processPacket_stats c packet_data src dst sport dport e :
  let r := GridWatcher.processPacket c packet_data src dst sport dport e in
  let s := GridWatcher.stats_ e in
  exists n : nat,
    GridWatcher.stats_ r.2
    = Statistics.mk
        (U64.wrap (Statistics.packets_processed_ s + 1))
        (if r.1 then U64.wrap (Statistics.packets_allowed_ s + 1)
         else Statistics.packets_allowed_ s)
        (if r.1 then Statistics.packets_dropped_ s
         else U64.wrap (Statistics.packets_dropped_ s + 1))
        (Statistics.bytes_processed_ s)
        (Nat.iter n (fun k => U64.wrap (k + 1))
                  (Statistics.threats_detected_ s))
        (Statistics.threats_mitigated_ s) (Statistics.total_blocks_ s)
        (Statistics.active_blocks_ s) (Statistics.start_time_ s).
Proof.
  unfold GridWatcher.processPacket; simpl.
  destruct (GridWatcher.cache_contains src _);
    [exists 0%nat; reflexivity |].
  destruct (GridWatcher.cache_contains src _ && _);
    [exists 0%nat; reflexivity |].
  destruct (shouldDropPacket _ _ _); [exists 0%nat; reflexivity |].
  destruct (analyze _ _) as [threats a].
  exists (length threats).
  match goal with
  | |- context [fold_left (GridWatcher.process_threat ?now ?s) threats
                          (false, ?e0)] =>
      pose proof (threats_stats now s threats false e0) as Hs;
      destruct (fold_left (GridWatcher.process_threat now s) threats
                          (false, e0)) as [should_drop e1]
  end.
  cbn in Hs. destruct should_drop; cbn; rewrite Hs; reflexivity.
Qed.

(** Only [processPacket] writes the statistics. *)
Lemma call_stats k e :
  match k with
  | GridWatcher.ProcessPacket _ _ _ _ _ _ => True
  | _ => GridWatcher.stats_ (GridWatcher.call k e) = GridWatcher.stats_ e
  end.
Proof.
  destruct k; cbn [GridWatcher.call]; try exact I.
  - unfold GridWatcher.start. now destruct (GridWatcher.running_ e).
  - unfold GridWatcher.stop. now destruct (GridWatcher.running_ e).
  - reflexivity.
  - unfold GridWatcher.unblockIP.
    destruct (MitigationEngine.unblockIP _ _) as [[] m]; reflexivity.
  - reflexivity.
  - reflexivity.
  - unfold GridWatcher.cleanup_tick. now destruct (GridWatcher.running_ e).
  - unfold GridWatcher.monitor_tick. now destruct (GridWatcher.running_ e).
Qed.

Lemma calls_snoc ks k e :
  GridWatcher.calls (ks ++ [k]) e
  = GridWatcher.call k (GridWatcher.calls ks e).
Proof. unfold GridWatcher.calls. now rewrite fold_left_app. Qed.

Lemma construct_stats config logger now :
  GridWatcher.stats_ (GridWatcher.construct config logger now)
  = Statistics.new now.
Proof.
  assert (Hfold : forall l e,
            GridWatcher.stats_
              (fold_left
                 (fun e addr =>
                    GridWatcher.with_whitelisted_cache
                      (GridWatcher.cache_add addr) e) l e)
            = GridWatcher.stats_ e).
  { induction l as [| a l IH]; intros e; [reflexivity |].
    cbn [fold_left]. now rewrite IH. }
  unfold GridWatcher.construct; simpl. now rewrite Hfold.
Qed.

(** X15.  The packet counters of an engine balance over its whole
    lifetime: after construction and any sequence of calls ([start],
    [stop], [processPacket], the manual block and whitelist operations,
    the background wake-ups), [packets_processed] is [packets_allowed]
    plus [packets_dropped], as 64-bit counters. *)
Theorem packet_counters_balance config logger now ks :
  let s :=
    GridWatcher.stats_
      (GridWatcher.calls ks (GridWatcher.construct config logger now)) in
  Statistics.packets_processed_ s
  = U64.wrap (Statistics.packets_allowed_ s + Statistics.packets_dropped_ s).
Proof.
  induction ks as [| k ks IH] using rev_ind; intros s; subst s.
  - cbn [GridWatcher.calls fold_left]. rewrite construct_stats. reflexivity.
  - cbn zeta in IH. rewrite calls_snoc.
    set (e := GridWatcher.calls ks (GridWatcher.construct config logger now))
      in *.
    pose proof (call_stats k e) as Hframe.
    destruct k as [? | ? | c data src dst sp dp
                   | ? ? ? | ? ? | ? ? | ? ? | ? | ? ?];
      try (rewrite Hframe; exact IH).
    cbn [GridWatcher.call].
    destruct (processPacket_stats c data src dst sp dp e) as (n & Hs).
    cbn zeta in Hs. rewrite Hs.
    destruct (GridWatcher.processPacket c data src dst sp dp e).1;
      cbn [Statistics.packets_processed_ Statistics.packets_allowed_
           Statistics.packets_dropped_];
      rewrite IH, wrap_add_l.
    + rewrite wrap_add_l. f_equal. lia.
    + rewrite (Z.add_comm (Statistics.packets_allowed_ _) (U64.wrap _)),
        wrap_add_l. f_equal. lia.
Qed.

(** X16.  The engine never calls [addBytesProcessed],
    [incrementThreatsMitigated], [incrementTotalBlocks] or
    [decrementActiveBlocks]: whatever traffic it has seen and whatever
    addresses it has blocked, the snapshot [getStatistics] returns shows
    zero bytes processed, zero threats mitigated, zero total blocks and
    zero active blocks. *)
Theorem snapshot_never_counts_bytes_or_blocks config logger t0 ks now :
  let snap :=
    GridWatcher.getStatistics now
      (GridWatcher.calls ks (GridWatcher.construct config logger t0)) in
  Statistics.bytes_processed snap = 0
  /\ Statistics.threats_mitigated snap = 0
  /\ Statistics.total_blocks snap = 0
  /\ Statistics.active_blocks snap = 0.
Proof.
  intros snap.
  assert (Hinv : forall ks,
            let s :=
              GridWatcher.stats_
                (GridWatcher.calls ks
                   (GridWatcher.construct config logger t0)) in
            Statistics.bytes_processed_ s = 0
            /\ Statistics.threats_mitigated_ s = 0
            /\ Statistics.total_blocks_ s = 0
            /\ Statistics.active_blocks_ s = 0
            /\ Statistics.start_time_ s = t0).
  { clear. intros ks.
    induction ks as [| k ks IH] using rev_ind; intros s; subst s.
    - cbn [GridWatcher.calls fold_left]. rewrite construct_stats.
      cbn. auto.
    - cbn zeta in IH. rewrite calls_snoc.
      set (e := GridWatcher.calls ks
                  (GridWatcher.construct config logger t0)) in *.
      pose proof (call_stats k e) as Hframe.
      destruct k as [? | ? | c data src dst sp dp
                     | ? ? ? | ? ? | ? ? | ? ? | ? | ? ?];
        try (rewrite Hframe; exact IH).
      cbn [GridWatcher.call].
      destruct (processPacket_stats c data src dst sp dp e) as (n & Hs).
      cbn zeta in Hs. rewrite Hs. cbn. exact IH. }
  destruct (Hinv ks) as (Hb & Hm & Htb & Hab & Hst).
  subst snap. unfold GridWatcher.getStatistics, Statistics.getSnapshot.
  cbn [Statistics.bytes_processed Statistics.threats_mitigated
       Statistics.total_blocks Statistics.active_blocks].
  auto.
Qed.

Lemma iter_wrap_succ (n : nat) (x : Z) :
  U64.wrap (Nat.iter n (fun k => U64.wrap (k + 1)) x)
  = U64.wrap (x + Z.of_nat n).
Proof.
  induction n as [| n IH].
  - cbn. f_equal. lia.
  - rewrite Nat.iter_succ, wrap_wrap, <- wrap_add_l, IH, wrap_add_l.
    f_equal. lia.
Qed.

(** A threat touches the statistics, the logger, the mitigation engine
    and the blocked cache; the analyzer and the metrics are out of its
    reach. *)
Lemma process_threat_frame now src d e alert :
  let e' := (GridWatcher.process_threat now src (d, e) alert).2 in
  GridWatcher.analyzer_ e' = GridWatcher.analyzer_ e
  /\ GridWatcher.metrics_ e' = GridWatcher.metrics_ e.
Proof.
  unfold GridWatcher.process_threat, GridWatcher.mitigate.
  destruct (MitigationEngine.mitigate _ _ _) as [action m].
  destruct action; split; reflexivity.
Qed.

Lemma threats_frame now src threats d e :
  let e' :=
    (fold_left (GridWatcher.process_threat now src) threats (d, e)).2 in
  GridWatcher.analyzer_ e' = GridWatcher.analyzer_ e
  /\ GridWatcher.metrics_ e' = GridWatcher.metrics_ e.
Proof.
  revert d e. induction threats as [| alert threats IH]; intros d e;
    cbn [fold_left].
  - split; reflexivity.
  - destruct (GridWatcher.process_threat now src (d, e) alert)
      as [d1 e1] eqn:Hstep.
    destruct (IH d1 e1) as [Ha Hm].
    pose proof (process_threat_frame now src d e alert) as [Ha1 Hm1].
    rewrite Hstep in Ha1, Hm1. cbn [snd] in Ha1, Hm1.
    split; [now rewrite Ha, Ha1 | now rewrite Hm, Hm1].
Qed.

(** Without an alert the loop over the threats drops nothing. *)
Lemma no_alert_no_drop now src e :
  (fold_left (GridWatcher.process_threat now src) [] (false, e)).1 = false.
Proof. reflexivity. Qed.

(** [buildPacketMetadata] reads nothing of the engine. *)
Lemma buildPacketMetadata_engine e1 e2 data src dst sport dport now :
  GridWatcher.buildPacketMetadata e1 data src dst sport dport now
  = GridWatcher.buildPacketMetadata e2 data src dst sport dport now.
Proof. reflexivity. Qed.

(** X17.  A packet that reaches the analysis (its source misses the
    whitelist cache, is not both in the blocked cache and blocked, and
    passes the rate pre-check) is analysed once: the analyzer is left in
    the state [analyze] returned, [threats_detected] grows by the number
    of alerts returned (modulo 2^64), the time the analysis took is the
    one sample added to the threat-detection latency, and a packet
    without alerts is allowed. *)
Theorem analysis_counts_every_alert c data src dst sport dport e :
  let now := wall_ns c in
  let meta :=
    (GridWatcher.buildPacketMetadata e data src dst sport dport now).1 in
  let r := GridWatcher.processPacket c data src dst sport dport e in
  GridWatcher.cache_contains src (GridWatcher.whitelisted_ips_cache_ e)
  = false ->
  GridWatcher.cache_contains src (GridWatcher.blocked_ips_cache_ e)
  && MitigationEngine.isBlocked src now (GridWatcher.mitigation_ e)
  = false ->
  shouldDropPacket meta now (GridWatcher.mitigation_ e) = false ->
  GridWatcher.analyzer_ r.2 = (analyze meta (GridWatcher.analyzer_ e)).2
  /\ U64.wrap (Statistics.threats_detected_ (GridWatcher.stats_ r.2))
     = U64.wrap (Statistics.threats_detected_ (GridWatcher.stats_ e)
                 + Z.of_nat (length
                     (analyze meta (GridWatcher.analyzer_ e)).1))
  /\ MetricsManager.threat_detection_latency_ (GridWatcher.metrics_ r.2)
     = LatencyTracker.record (analysis_ns c)
         (MetricsManager.threat_detection_latency_ (GridWatcher.metrics_ e))
  /\ ((analyze meta (GridWatcher.analyzer_ e)).1 = [] -> r.1 = true).
Proof.
  intros now meta r Hwl Hbl Hrate. subst r meta now.
  unfold GridWatcher.processPacket; simpl. simpl in Hrate.
  rewrite Hwl, Hbl.
  rewrite (buildPacketMetadata_engine
             (GridWatcher.with_stats Statistics.incrementPacketsProcessed e)
             e).
  rewrite Hrate.
  destruct (analyze _ (GridWatcher.analyzer_ e)) as [threats a].
  cbn [fst snd].
  match goal with
  | |- context [fold_left (GridWatcher.process_threat ?n ?s) threats
                          (false, ?e0)] =>
      pose proof (threats_stats n s threats false e0) as Hs;
      pose proof (threats_frame n s threats false e0) as [Ha Hm];
      pose proof (no_alert_no_drop n s e0) as Hnone;
      destruct (fold_left (GridWatcher.process_threat n s) threats
                          (false, e0)) as [should_drop e1] eqn:Hfold
  end.
  cbn in Hs, Ha, Hm.
  assert (Hallow : threats = [] -> should_drop = false).
  { intros ->. cbn in Hfold. now inversion Hfold. }
  destruct should_drop; cbn; rewrite Hs, Ha, Hm; cbn;
    (split; [reflexivity |]); (split; [apply iter_wrap_succ |]);
    (split; [reflexivity |]); intros Hnil.
  - now apply Hallow in Hnil.
  - reflexivity.
Qed.

(** X18.  The throughput tracker sees the packets that are allowed and
    only those: on every path of [processPacket] an ALLOW records the
    size of the packet, at the wall-clock time of the call, and a DROP
    records nothing. *)
Theorem throughput_counts_allowed_packets_only
    c data src dst sport dport e :
  let r := GridWatcher.processPacket c data src dst sport dport e in
  MetricsManager.throughput_ (GridWatcher.metrics_ r.2)
  = if r.1
    then ThroughputTracker.record (wall_ns c) (Z.of_nat (length data))
           (MetricsManager.throughput_ (GridWatcher.metrics_ e))
    else MetricsManager.throughput_ (GridWatcher.metrics_ e).
Proof.
  unfold GridWatcher.processPacket; simpl.
  destruct (GridWatcher.cache_contains src _); [reflexivity |].
  destruct (GridWatcher.cache_contains src _ && _); [reflexivity |].
  destruct (shouldDropPacket _ _ _); [reflexivity |].
  destruct (analyze _ _) as [threats a].
  match goal with
  | |- context [fold_left (GridWatcher.process_threat ?n ?s) threats
                          (false, ?e0)] =>
      pose proof (threats_frame n s threats false e0) as [_ Hm];
      destruct (fold_left (GridWatcher.process_threat n s) threats
                          (false, e0)) as [should_drop e1]
  end.
  cbn in Hm. destruct should_drop; cbn; rewrite Hm; reflexivity.
Qed.

(** X19.  The packet-processing latency leaves out the whitelist fast
    path: a packet whose source hits the whitelist cache adds no sample,
    and every other packet, dropped or allowed, adds exactly one, the
    time the call took. *)
Theorem latency_skips_whitelist_fast_path c data src dst sport dport e :
  let r := GridWatcher.processPacket c data src dst sport dport e in
  MetricsManager.packet_processing_latency_ (GridWatcher.metrics_ r.2)
  = if GridWatcher.cache_contains src (GridWatcher.whitelisted_ips_cache_ e)
    then MetricsManager.packet_processing_latency_ (GridWatcher.metrics_ e)
    else LatencyTracker.record (elapsed_ns c)
           (MetricsManager.packet_processing_latency_
              (GridWatcher.metrics_ e)).
Proof.
  unfold GridWatcher.processPacket; simpl.
  destruct (GridWatcher.cache_contains src _); [reflexivity |].
  destruct (GridWatcher.cache_contains src _ && _); [reflexivity |].
  destruct (shouldDropPacket _ _ _); [reflexivity |].
  destruct (analyze _ _) as [threats a].
  match goal with
  | |- context [fold_left (GridWatcher.process_threat ?n ?s) threats
                          (false, ?e0)] =>
      pose proof (threats_frame n s threats false e0) as [_ Hm];
      destruct (fold_left (GridWatcher.process_threat n s) threats
                          (false, e0)) as [should_drop e1]
  end.
  cbn in Hm. destruct should_drop; cbn; rewrite Hm; reflexivity.
Qed.

End EngineAccounting.

Lemma analysis_counts_every_alert_attacker :
  GridWatcher.analyzer_
    (GridWatcher.processPacket noon twelve_bytes ip_attacker ip_plc
       40000 502 fresh).2
  = (analyze
       (GridWatcher.buildPacketMetadata fresh twelve_bytes ip_attacker
          ip_plc 40000 502 (wall_ns noon)).1
       (GridWatcher.analyzer_ fresh)).2
  /\ U64.wrap
       (Statistics.threats_detected_
          (GridWatcher.stats_
             (GridWatcher.processPacket noon twelve_bytes ip_attacker ip_plc
                40000 502 fresh).2))
     = U64.wrap
         (Statistics.threats_detected_ (GridWatcher.stats_ fresh)
          + Z.of_nat
              (length
                 (analyze
                    (GridWatcher.buildPacketMetadata fresh twelve_bytes
                       ip_attacker ip_plc 40000 502 (wall_ns noon)).1
                    (GridWatcher.analyzer_ fresh)).1))
  /\ MetricsManager.threat_detection_latency_
       (GridWatcher.metrics_
          (GridWatcher.processPacket noon twelve_bytes ip_attacker ip_plc
             40000 502 fresh).2)
     = LatencyTracker.record (analysis_ns noon)
         (MetricsManager.threat_detection_latency_
            (GridWatcher.metrics_ fresh))
  /\ ((analyze
         (GridWatcher.buildPacketMetadata fresh twelve_bytes ip_attacker
            ip_plc 40000 502 (wall_ns noon)).1
         (GridWatcher.analyzer_ fresh)).1 = [] ->
      (GridWatcher.processPacket noon twelve_bytes ip_attacker ip_plc
         40000 502 fresh).1 = true).
Proof.
  apply (analysis_counts_every_alert noon twelve_bytes ip_attacker ip_plc
           40000 502 fresh); vm_compute; reflexivity.
Defined.

(** * The logger over its lifetime *)

Lemma log_frame now lvl src msg thr l :
  let l' := Logger.log now lvl src msg thr l in
  Logger.running_ l' = Logger.running_ l
  /\ Logger.log_file_open_ l' = Logger.log_file_open_ l
  /\ Logger.log_file_ l' = Logger.log_file_ l
  /\ Logger.logs_written_ l' = Logger.logs_written_ l
  /\ Logger.min_level_ l' = Logger.min_level_ l.
Proof.
  unfold Logger.log.
  destruct (LogEntry.rank lvl <? LogEntry.rank (Logger.min_level_ l));
    [auto |].
  destruct (LockFreeRingBuffer.push _ _ _); cbn; auto.
Qed.

(** A [log] call with room in the ring queues its record, if the level
    passes, and touches nothing else. *)
Lemma log_with_room now lvl src msg thr l :
  Z.of_nat (length (Logger.log_queue_ l)) < Logger.QueueCapacity ->
  let l' := Logger.log now lvl src msg thr l in
  Logger.log_queue_ l'
  = Logger.log_queue_ l
    ++ Logger.requested (Logger.min_level_ l)
         [Logger.Log now lvl src msg thr]
  /\ Logger.logs_dropped_ l' = Logger.logs_dropped_ l.
Proof.
  intros Hroom. unfold Logger.log, Logger.requested. cbn [flat_map].
  destruct (LogEntry.rank lvl <? LogEntry.rank (Logger.min_level_ l)).
  - cbn. now rewrite app_nil_r.
  - unfold LockFreeRingBuffer.push.
    destruct (Z.ltb_spec (Z.of_nat (length (Logger.log_queue_ l)))
                         Logger.QueueCapacity); [| lia].
    cbn. auto.
Qed.

Lemma requested_cons min o ops :
  Logger.requested min (o :: ops)
  = Logger.requested min [o] ++ Logger.requested min ops.
Proof. unfold Logger.requested. cbn [flat_map]. now rewrite app_nil_r. Qed.

Lemma requested_length min ops :
  (length (Logger.requested min ops) <= length ops)%nat.
Proof.
  induction ops as [| o ops IH]; [reflexivity |].
  rewrite requested_cons, length_app. cbn [length].
  assert (length (Logger.requested min [o]) <= 1)%nat; [| lia].
  unfold Logger.requested. cbn [flat_map].
  destruct o; try (cbn; lia).
  destruct (_ <? _); cbn; lia.
Qed.

(** While the logger runs on an open file, [log] calls and writer passes
    move records from the callers to the ring and from the ring to the
    file, keeping their order. *)
Lemma run_traffic ops l :
  Forall (fun o => Logger.is_traffic o = true) ops ->
  Logger.running_ l = true ->
  Logger.log_file_open_ l = true ->
  Z.of_nat (length (Logger.log_queue_ l) + length ops)
  <= Logger.QueueCapacity ->
  let l' := Logger.run ops l in
  Logger.running_ l' = true
  /\ Logger.log_file_open_ l' = true
  /\ Logger.log_file_ l' ++ Logger.log_queue_ l'
     = Logger.log_file_ l ++ Logger.log_queue_ l
       ++ Logger.requested (Logger.min_level_ l) ops
  /\ Logger.logs_dropped_ l' = Logger.logs_dropped_ l.
Proof.
  revert l. induction ops as [| o ops IH]; intros l Htraffic Hrun Hopen Hroom.
  - cbn. rewrite app_nil_r. auto.
  - inversion Htraffic as [| ? ? Ho Hops]; subst.
    cbn [Logger.run fold_left]. fold (Logger.run ops (Logger.op o l)).
    cbn [length] in Hroom.
    assert (Hstep :
      Logger.running_ (Logger.op o l) = true
      /\ Logger.log_file_open_ (Logger.op o l) = true
      /\ Logger.min_level_ (Logger.op o l) = Logger.min_level_ l
      /\ Logger.logs_dropped_ (Logger.op o l) = Logger.logs_dropped_ l
      /\ Logger.log_file_ (Logger.op o l) ++ Logger.log_queue_ (Logger.op o l)
         = Logger.log_file_ l ++ Logger.log_queue_ l
           ++ Logger.requested (Logger.min_level_ l) [o]
      /\ (length (Logger.log_queue_ (Logger.op o l))
          <= S (length (Logger.log_queue_ l)))%nat).
    { destruct o as [now lvl src msg thr | | | | |]; try discriminate.
      - cbn [Logger.op].
        pose proof (log_frame now lvl src msg thr l)
          as (Hr & Hop & Hfile & _ & Hmin).
        destruct (log_with_room now lvl src msg thr l) as [Hq Hd]; [lia |].
        cbn zeta in *. rewrite Hr, Hop, Hfile, Hmin, Hd, Hq.
        repeat (split; [first [assumption | reflexivity] |]).
        rewrite length_app.
        pose proof (requested_length (Logger.min_level_ l)
                      [Logger.Log now lvl src msg thr]) as Hlen.
        cbn [length] in Hlen. lia.
      - cbn [Logger.op]. unfold Logger.writerLoop_iteration. rewrite Hrun.
        unfold Logger.requested. cbn [flat_map]. rewrite app_nil_r.
        destruct (Logger.log_queue_ l) as [| entry q] eqn:Hq; cbn.
        + rewrite Hq. auto 10.
        + rewrite Hopen. rewrite <- app_assoc. cbn. auto 10. }
    destruct Hstep as (Hr1 & Hop1 & Hmin1 & Hd1 & Hfq1 & Hlen1).
    destruct (IH (Logger.op o l) Hops Hr1 Hop1) as (Hr & Hop & Hfq & Hd);
      [lia |].
    cbn zeta. rewrite Hr, Hop, Hd, Hd1.
    repeat (split; [reflexivity |]). split; [| reflexivity].
    rewrite Hfq, Hmin1, (requested_cons _ o ops).
    rewrite (app_assoc (Logger.log_file_ (Logger.op o l))), Hfq1.
    now rewrite <- !app_assoc.
Qed.

Lemma flush_dropped pending l :
  Logger.logs_dropped_ (Logger.flush pending l) = Logger.logs_dropped_ l.
Proof.
  revert l. induction pending as [| entry rest IH]; intros l;
    [reflexivity |].
  cbn [Logger.flush]. now rewrite IH.
Qed.

(** X20.  No record is lost or reordered while the ring has room: on a
    running logger with an open file, after any interleaving of [log]
    calls and writer passes that cannot fill the ring, [stop] leaves in
    the file what was there, then what was queued, then the records of
    the [log] calls at or above the minimum level, in the order of the
    calls; nothing is counted as dropped. *)
Theorem log_file_keeps_order ops l :
  Forall (fun o => Logger.is_traffic o = true) ops ->
  Logger.running_ l = true ->
  Logger.log_file_open_ l = true ->
  Z.of_nat (length (Logger.log_queue_ l) + length ops)
  <= Logger.QueueCapacity ->
  let l' := Logger.stop (Logger.run ops l) in
  Logger.log_file_ l'
  = Logger.log_file_ l ++ Logger.log_queue_ l
    ++ Logger.requested (Logger.min_level_ l) ops
  /\ Logger.log_queue_ l' = []
  /\ Logger.logs_dropped_ l' = Logger.logs_dropped_ l.
Proof.
  intros Htraffic Hrun Hopen Hroom.
  destruct (run_traffic ops l Htraffic Hrun Hopen Hroom)
    as (Hr & Hop & Hfq & Hd).
  cbn zeta in *. unfold Logger.stop. rewrite Hr. cbn [negb].
  match goal with
  | |- context [Logger.flush ?q ?j] =>
      pose proof (flush_writes_pending q j Hop) as (Hfile & Hqueue & _ & _);
      pose proof (flush_dropped q j) as Hdropped
  end.
  cbn in Hfile, Hqueue, Hdropped. cbn.
  rewrite Hfile, Hqueue, Hdropped, Hfq, Hd. auto.
Qed.

Lemma log_file_keeps_order_up :
  let l := Logger.info 1 "Engine" "up" (Logger.start quiet_logger) in
  let ops :=
    [Logger.Log 2 LogEntry.WARNING "Engine" "hot" None;
     Logger.WriterPass;
     Logger.Log 3 LogEntry.DEBUG "Engine" "detail" None;
     Logger.Log 4 LogEntry.ERROR "Engine" "down" None] in
  Logger.log_file_ (Logger.stop (Logger.run ops l))
  = Logger.log_file_ l ++ Logger.log_queue_ l
    ++ Logger.requested (Logger.min_level_ l) ops
  /\ Logger.log_queue_ (Logger.stop (Logger.run ops l)) = []
  /\ Logger.logs_dropped_ (Logger.stop (Logger.run ops l))
     = Logger.logs_dropped_ l.
Proof.
  intros l ops. apply (log_file_keeps_order ops l).
  - repeat constructor.
  - reflexivity.
  - reflexivity.
  - vm_compute. discriminate.
Defined.

(** A closed file takes no record: neither a writer pass nor the flush of
    [stop] changes it, and nothing opens it again. *)
Lemma flush_closed pending l :
  Logger.log_file_open_ l = false ->
  Logger.log_file_open_ (Logger.flush pending l) = false
  /\ Logger.log_file_ (Logger.flush pending l) = Logger.log_file_ l.
Proof.
  revert l. induction pending as [| entry rest IH]; intros l Hclosed.
  - cbn. auto.
  - cbn [Logger.flush].
    destruct (IH (Logger.writeLog entry (Logger.set_queue rest l)))
      as [Hop Hfile].
    + cbn. exact Hclosed.
    + rewrite Hop, Hfile. cbn. rewrite Hclosed. auto.
Qed.

Lemma op_closed o l :
  Logger.log_file_open_ l = false ->
  Logger.log_file_open_ (Logger.op o l) = false
  /\ Logger.log_file_ (Logger.op o l) = Logger.log_file_ l.
Proof.
  intros Hclosed. destruct o as [now lvl src msg thr | | | | lvl | b];
    cbn [Logger.op].
  - pose proof (log_frame now lvl src msg thr l) as (_ & Hop & Hfile & _).
    cbn zeta in *. now rewrite Hop, Hfile.
  - unfold Logger.writerLoop_iteration.
    destruct (Logger.running_ l); [| auto].
    destruct (Logger.log_queue_ l) as [| entry q]; cbn; [auto |].
    rewrite Hclosed. auto.
  - unfold Logger.start. destruct (Logger.running_ l); cbn; auto.
  - unfold Logger.stop. destruct (Logger.running_ l); cbn; [| auto].
    match goal with
    | |- context [Logger.flush ?q ?j] =>
        destruct (flush_closed q j) as [_ Hfile]; [exact Hclosed |]
    end.
    cbn in Hfile. auto.
  - cbn. auto.
  - cbn. auto.
Qed.

(** X21.  [stop] is final for the file: after the [stop] of a running
    logger the file is closed, and whatever follows ([start] again, [log]
    calls, writer passes, another [stop], changes of the settings) never
    opens it again nor adds a record to it. *)
Theorem stopped_logger_never_writes ops l :
  Logger.running_ l = true ->
  let stopped := Logger.stop l in
  Logger.log_file_open_ stopped = false
  /\ Logger.log_file_open_ (Logger.run ops stopped) = false
  /\ Logger.log_file_ (Logger.run ops stopped) = Logger.log_file_ stopped.
Proof.
  intros Hrun stopped.
  assert (Hclosed : Logger.log_file_open_ stopped = false).
  { subst stopped. unfold Logger.stop. now rewrite Hrun. }
  split; [exact Hclosed |].
  generalize dependent stopped. intros stopped. revert stopped.
  induction ops as [| o ops IH]; intros stopped Hclosed; [cbn; auto |].
  cbn [Logger.run fold_left]. fold (Logger.run ops (Logger.op o stopped)).
  destruct (op_closed o stopped Hclosed) as [Hop Hfile].
  destruct (IH (Logger.op o stopped) Hop) as [Hop' Hfile'].
  rewrite Hop', Hfile', Hfile. auto.
Qed.

Lemma stopped_logger_never_writes_restarted :
  let l := Logger.info 1 "Engine" "up" (Logger.start quiet_logger) in
  let ops :=
    [Logger.StartLogger;
     Logger.Log 2 LogEntry.WARNING "Engine" "hot" None;
     Logger.WriterPass;
     Logger.StopLogger] in
  Logger.log_file_open_ (Logger.stop l) = false
  /\ Logger.log_file_open_ (Logger.run ops (Logger.stop l)) = false
  /\ Logger.log_file_ (Logger.run ops (Logger.stop l))
     = Logger.log_file_ (Logger.stop l).
Proof.
  intros l ops. apply (stopped_logger_never_writes ops l). reflexivity.
Defined.

Lemma flush_running pending l :
  Logger.running_ (Logger.flush pending l) = Logger.running_ l.
Proof.
  revert l. induction pending as [| entry rest IH]; intros l;
    [reflexivity |].
  cbn [Logger.flush]. now rewrite IH.
Qed.

Lemma stop_clears_running l : Logger.running_ (Logger.stop l) = false.
Proof.
  unfold Logger.stop. destruct (Logger.running_ l) eqn:Hl; cbn [negb].
  - cbn. now rewrite flush_running.
  - exact Hl.
Qed.

(** * The engine's log after [stop] *)

Section EngineLog.

Context `{Collaborators}.

(** The engine's calls hand records to the logger's ring; apart from
    [stop] none of them runs, stops or writes. *)
Lemma process_threat_logger now src d e alert :
  let l := GridWatcher.logger_ e in
  let l' := GridWatcher.logger_
              (GridWatcher.process_threat now src (d, e) alert).2 in
  Logger.running_ l' = Logger.running_ l
  /\ Logger.log_file_ l' = Logger.log_file_ l
  /\ Logger.logs_written_ l' = Logger.logs_written_ l.
Proof.
  unfold GridWatcher.process_threat, GridWatcher.mitigate.
  destruct (MitigationEngine.mitigate _ _ _) as [action m].
  unfold GridWatcher.handleMitigationAction, Logger.critical,
    Logger.warning, Logger.info.
  destruct action; cbn;
    match goal with
    | |- context [Logger.log ?n2 ?lv2 ?s2 ?m2 ?t2
                    (Logger.log ?n1 ?lv1 ?s1 ?m1 ?t1 ?l0)] =>
        pose proof (log_frame n1 lv1 s1 m1 t1 l0) as (Hr1 & _ & Hf1 & Hw1 & _);
        pose proof (log_frame n2 lv2 s2 m2 t2 (Logger.log n1 lv1 s1 m1 t1 l0))
          as (Hr2 & _ & Hf2 & Hw2 & _)
    end;
    cbn zeta in *; rewrite Hr2, Hf2, Hw2, Hr1, Hf1, Hw1; auto.
Qed.

Lemma threats_logger now src threats d e :
  let l := GridWatcher.logger_ e in
  let l' := GridWatcher.logger_
              (fold_left (GridWatcher.process_threat now src) threats
                         (d, e)).2 in
  Logger.running_ l' = Logger.running_ l
  /\ Logger.log_file_ l' = Logger.log_file_ l
  /\ Logger.logs_written_ l' = Logger.logs_written_ l.
Proof.
  revert d e. induction threats as [| alert threats IH]; intros d e;
    cbn [fold_left].
  - auto.
  - destruct (GridWatcher.process_threat now src (d, e) alert)
      as [d1 e1] eqn:Hstep.
    destruct (IH d1 e1) as (Hr & Hf & Hw).
    pose proof (process_threat_logger now src d e alert) as (Hr1 & Hf1 & Hw1).
    rewrite Hstep in Hr1, Hf1, Hw1. cbn [snd] in Hr1, Hf1, Hw1.
    cbn zeta. rewrite Hr, Hf, Hw, Hr1, Hf1, Hw1. auto.
Qed.

Lemma processPacket_logger c data src dst sport dport e :
  let l := GridWatcher.logger_ e in
  let l' := GridWatcher.logger_
              (GridWatcher.processPacket c data src dst sport dport e).2 in
  Logger.running_ l' = Logger.running_ l
  /\ Logger.log_file_ l' = Logger.log_file_ l
  /\ Logger.logs_written_ l' = Logger.logs_written_ l.
Proof.
  unfold GridWatcher.processPacket; simpl.
  destruct (GridWatcher.cache_contains src _); [auto |].
  destruct (GridWatcher.cache_contains src _ && _); [auto |].
  destruct (shouldDropPacket _ _ _); [auto |].
  destruct (analyze _ _) as [threats a].
  match goal with
  | |- context [fold_left (GridWatcher.process_threat ?n ?s) threats
                          (false, ?e0)] =>
      pose proof (threats_logger n s threats false e0) as Hl;
      destruct (fold_left (GridWatcher.process_threat n s) threats
                          (false, e0)) as [should_drop e1]
  end.
  cbn in Hl. destruct should_drop; cbn; exact Hl.
Qed.

Ltac logger_only_queues :=
  cbn;
  match goal with
  | |- context [Logger.log ?n ?lv ?s ?m ?t ?l0] =>
      pose proof (log_frame n lv s m t l0) as (Hr & _ & Hf & Hw & _);
      cbn zeta in Hr, Hf, Hw; rewrite Hr, Hf, Hw; auto
  end.

Lemma event_after_stop ev e :
  Logger.running_ (GridWatcher.logger_ e) = false ->
  let l := GridWatcher.logger_ e in
  let l' := GridWatcher.logger_ (GridWatcher.event ev e) in
  Logger.running_ l' = false
  /\ Logger.log_file_ l' = Logger.log_file_ l
  /\ Logger.logs_written_ l' = Logger.logs_written_ l.
Proof.
  intros Hidle.
  destruct ev as [[now | now | c data src dst sp dp | now addr why
                   | now addr | now addr | now addr | now | now report] |];
    cbn [GridWatcher.event GridWatcher.call].
  - unfold GridWatcher.start, Logger.warning, Logger.info.
    destruct (GridWatcher.running_ e); rewrite <- Hidle; logger_only_queues.
  - unfold GridWatcher.stop, Logger.info.
    destruct (GridWatcher.running_ e); cbn [negb]; [| auto].
    cbn. unfold Logger.stop.
    match goal with
    | |- context [Logger.log ?n ?lv ?s ?m ?t ?l0] =>
        pose proof (log_frame n lv s m t l0) as (Hr & _ & Hf & Hw & _)
    end.
    cbn zeta in Hr, Hf, Hw. rewrite Hr, Hidle. cbn [negb].
    rewrite Hr, Hf, Hw. auto.
  - pose proof (processPacket_logger c data src dst sp dp e) as (Hr & Hf & Hw).
    cbn zeta in *. rewrite Hr, Hf, Hw. auto.
  - unfold GridWatcher.blockIP, Logger.warning. rewrite <- Hidle.
    logger_only_queues.
  - unfold GridWatcher.unblockIP, Logger.info.
    destruct (MitigationEngine.unblockIP _ _) as [[] m]; [| cbn; auto].
    rewrite <- Hidle. logger_only_queues.
  - unfold GridWatcher.addWhitelist, Logger.info. rewrite <- Hidle.
    logger_only_queues.
  - unfold GridWatcher.removeWhitelist, Logger.info. rewrite <- Hidle.
    logger_only_queues.
  - unfold GridWatcher.cleanup_tick, Logger.info.
    destruct (GridWatcher.running_ e); [| auto].
    rewrite <- Hidle. logger_only_queues.
  - unfold GridWatcher.monitor_tick, Logger.info.
    destruct (GridWatcher.running_ e); [| auto].
    rewrite <- Hidle. logger_only_queues.
  - cbn. unfold Logger.writerLoop_iteration. rewrite Hidle. auto.
Qed.

(** X22.  [stop] ends the engine's log for good.  [GridWatcher::stop]
    stops the logger, which only the constructor starts: after the
    [stop] of a running engine, whatever follows (a new [start], packets,
    alerts, manual blocks, the background wake-ups, passes of the
    logger's writer) adds nothing to the log file, and [logs_written_]
    stands still. *)
Theorem stopped_engine_logs_nothing evs now e :
  GridWatcher.running_ e = true ->
  let stopped := GridWatcher.stop now e in
  let l := GridWatcher.logger_ (GridWatcher.events evs stopped) in
  Logger.running_ (GridWatcher.logger_ stopped) = false
  /\ Logger.running_ l = false
  /\ Logger.log_file_ l = Logger.log_file_ (GridWatcher.logger_ stopped)
  /\ Logger.logs_written_ l
     = Logger.logs_written_ (GridWatcher.logger_ stopped).
Proof.
  intros Hrun stopped.
  assert (Hidle : Logger.running_ (GridWatcher.logger_ stopped) = false).
  { subst stopped. unfold GridWatcher.stop. rewrite Hrun. cbn.
    apply stop_clears_running. }
  intros l. split; [exact Hidle |]. subst l.
  clearbody stopped. revert stopped Hidle.
  induction evs as [| ev evs IH]; intros stopped Hidle; [cbn; auto |].
  cbn [GridWatcher.events fold_left].
  fold (GridWatcher.events evs (GridWatcher.event ev stopped)).
  destruct (event_after_stop ev stopped Hidle) as (Hr & Hf & Hw).
  destruct (IH (GridWatcher.event ev stopped) Hr) as (Hr' & Hf' & Hw').
  cbn zeta in *. rewrite Hr', Hf', Hw', Hf, Hw. auto.
Qed.

End EngineLog.

Lemma stopped_engine_logs_nothing_restarted :
  let evs :=
    [GridWatcher.Client (GridWatcher.Start 3);
     GridWatcher.Client
       (GridWatcher.ProcessPacket noon twelve_bytes ip_attacker ip_plc
          40000 502);
     GridWatcher.LogWriterPass;
     GridWatcher.Client (GridWatcher.Stop 4)] in
  let stopped := GridWatcher.stop 2 (GridWatcher.start 1 fresh) in
  Logger.running_ (GridWatcher.logger_ stopped) = false
  /\ Logger.running_
       (GridWatcher.logger_ (GridWatcher.events evs stopped)) = false
  /\ Logger.log_file_
       (GridWatcher.logger_ (GridWatcher.events evs stopped))
     = Logger.log_file_ (GridWatcher.logger_ stopped)
  /\ Logger.logs_written_
       (GridWatcher.logger_ (GridWatcher.events evs stopped))
     = Logger.logs_written_ (GridWatcher.logger_ stopped).
Proof.
  intros evs.
  apply (stopped_engine_logs_nothing evs 2 (GridWatcher.start 1 fresh)).
  reflexivity.
Defined.

(** * Metadata, construction, shutdown *)

Section EngineEdges.

Context `{Collaborators}.

(** X23.  Whatever the parser returns, the metadata [buildPacketMetadata]
    hands to the analysis carries the caller's addresses and ports; its
    protocol is Modbus/TCP exactly when one of the ports is 502 and
    unknown otherwise; off port 502 the packet is never marked malformed
    and keeps the size of the buffer and the time of the call; on port
    502 a buffer that [isModbusTCP] rejects or that [ModbusParser::parse]
    cannot parse is marked malformed, with the size of the buffer and the
    time of the call. *)
Theorem metadata_keeps_endpoints e data src dst sport dport now :
  let m := (GridWatcher.buildPacketMetadata e data src dst sport dport now).1
  in
  let modbus := (dport =? 502) || (sport =? 502) in
  let parsed :=
    modbus && isModbusTCP data
    && match ModbusParser_parse data with Some _ => true | None => false end
  in
  source_ip m = src /\ dest_ip m = dst
  /\ source_port m = sport /\ dest_port m = dport
  /\ protocol m = (if modbus then MODBUS_TCP else UNKNOWN)
  /\ (parsed = false ->
      is_malformed m = modbus
      /\ packet_size m = Z.of_nat (length data)
      /\ timestamp m = now).
Proof.
  unfold GridWatcher.buildPacketMetadata.
  destruct ((dport =? 502) || (sport =? 502)); cbn [andb].
  - destruct (isModbusTCP data); cbn [andb].
    + destruct (ModbusParser_parse data) as [parsed |]; cbn;
        repeat (split; [reflexivity |]); [discriminate | auto].
    + cbn. repeat (split; [reflexivity |]). auto.
  - cbn. repeat (split; [reflexivity |]). auto.
Qed.

Lemma construct_blocked_cache config logger now :
  GridWatcher.blocked_ips_cache_ (GridWatcher.construct config logger now)
  = BloomFilter.new.
Proof.
  assert (Hfold : forall l e,
            GridWatcher.blocked_ips_cache_
              (fold_left
                 (fun e addr =>
                    GridWatcher.with_whitelisted_cache
                      (GridWatcher.cache_add addr) e) l e)
            = GridWatcher.blocked_ips_cache_ e).
  { induction l as [| a l IH]; intros e; [reflexivity |].
    cbn [fold_left]. now rewrite IH. }
  unfold GridWatcher.construct; simpl. now rewrite Hfold.
Qed.

(** X24.  The constructor fills the whitelist cache from the
    configuration and nothing else: the blocked cache of a new engine is
    empty whatever [blacklisted_ips] holds, so the first packet of a
    source that is not in the whitelist cache is never dropped by the
    block short-circuit; it is handed to the rate pre-check with the
    metadata built for it. *)
Theorem constructor_preblocks_nobody config logger t0 c data src dst
    sport dport :
  let e := GridWatcher.construct config logger t0 in
  let meta :=
    (GridWatcher.buildPacketMetadata e data src dst sport dport
       (wall_ns c)).1 in
  GridWatcher.cache_contains src (GridWatcher.blocked_ips_cache_ e) = false
  /\ (GridWatcher.cache_contains src (GridWatcher.whitelisted_ips_cache_ e)
      = false ->
      shouldDropPacket meta (wall_ns c) (GridWatcher.mitigation_ e) = true ->
      GridWatcher.processPacket c data src dst sport dport e
      = (false,
         GridWatcher.recordLatency c
           (GridWatcher.with_stats Statistics.incrementPacketsDropped
              (GridWatcher.with_stats Statistics.incrementPacketsProcessed
                 e)))).
Proof.
  intros e meta.
  assert (Hmiss : GridWatcher.cache_contains src
                    (GridWatcher.blocked_ips_cache_ e) = false).
  { subst e. rewrite construct_blocked_cache. apply contains_new. }
  split; [exact Hmiss |].
  clearbody e. intros Hwl Hrate. subst meta.
  unfold GridWatcher.processPacket; simpl. simpl in Hrate.
  rewrite Hwl, Hmiss. cbn [andb].
  rewrite (buildPacketMetadata_engine
             (GridWatcher.with_stats Statistics.incrementPacketsProcessed e)
             e).
  now rewrite Hrate.
Qed.

(** X25.  [stop] is idempotent, for the logger and for the engine: a
    second [stop], such as the one the destructor makes after an explicit
    [stop], returns at once and changes nothing. *)
Theorem stop_twice_is_stop_once l e now now' :
  Logger.stop (Logger.stop l) = Logger.stop l
  /\ GridWatcher.stop now' (GridWatcher.stop now e) = GridWatcher.stop now e.
Proof.
  split.
  - pose proof (stop_clears_running l) as Hidle.
    unfold Logger.stop at 1. now rewrite Hidle.
  - unfold GridWatcher.stop at 1.
    assert (Hidle : GridWatcher.running_ (GridWatcher.stop now e) = false).
    { unfold GridWatcher.stop.
      destruct (GridWatcher.running_ e) eqn:Hrun; cbn [negb];
        [reflexivity | exact Hrun]. }
    now rewrite Hidle.
Qed.

End EngineEdges.

(** * Block counters *)

(** X26.  [active_blocks_] is an unsigned counter that
    [decrementActiveBlocks] takes below zero: after any sequence of
    [incrementTotalBlocks] ([true]) and [decrementActiveBlocks] ([false])
    it holds the number of increments minus the number of decrements
    modulo 2^64, while [total_blocks_] counts the increments; one
    decrement on a new object leaves 2^64 - 1 active blocks. *)
Theorem active_blocks_wraps_below_zero (ops : list bool) (s : Statistics.t) :
  let s' :=
    fold_left
      (fun acc (up : bool) =>
         if up then Statistics.incrementTotalBlocks acc
         else Statistics.decrementActiveBlocks acc)
      ops s in
  let ups := Z.of_nat (length (List.filter id ops)) in
  let downs := Z.of_nat (length (List.filter negb ops)) in
  U64.wrap (Statistics.active_blocks_ s')
  = U64.wrap (Statistics.active_blocks_ s + ups - downs)
  /\ U64.wrap (Statistics.total_blocks_ s')
     = U64.wrap (Statistics.total_blocks_ s + ups)
  /\ forall now,
       Statistics.active_blocks_
         (Statistics.decrementActiveBlocks (Statistics.new now))
       = U64.UINT64_MAX.
Proof.
  cbn zeta. split; [| split; [| reflexivity]].
  - revert s. induction ops as [| up ops IH]; intros s.
    + cbn. f_equal. lia.
    + cbn [fold_left List.filter]. rewrite IH.
      destruct up; cbn [id negb length Statistics.active_blocks_
                        Statistics.incrementTotalBlocks
                        Statistics.decrementActiveBlocks];
        unfold U64.fetch_add, U64.fetch_sub;
        rewrite <- Z.add_sub_assoc, wrap_add_l; f_equal; lia.
  - revert s. induction ops as [| up ops IH]; intros s.
    + cbn. f_equal. lia.
    + cbn [fold_left List.filter]. rewrite IH.
      destruct up; cbn [id negb length Statistics.total_blocks_
                        Statistics.incrementTotalBlocks
                        Statistics.decrementActiveBlocks];
        unfold U64.fetch_add; rewrite ?wrap_add_l; f_equal; lia.
Qed.

(** * JSON escaping *)

Lemma escape_loop_app result str :
  JSON.escape_loop result str = result ++ JSON.escape str.
Proof.
  unfold JSON.escape. revert result.
  induction str as [| c rest IH]; intros result; cbn [JSON.escape_loop].
  - now rewrite app_nil_r.
  - rewrite IH, (IH ([] ++ JSON.escape_char c)). cbn [app].
    now rewrite app_assoc.
Qed.

Lemma escape_cons c rest :
  JSON.escape (c :: rest) = JSON.escape_char c ++ JSON.escape rest.
Proof.
  unfold JSON.escape at 1. cbn [JSON.escape_loop app].
  apply escape_loop_app.
Qed.

Lemma escape_app s t : JSON.escape (s ++ t) = JSON.escape s ++ JSON.escape t.
Proof.
  induction s as [| c s IH]; [reflexivity |].
  cbn [app]. now rewrite !escape_cons, IH, app_assoc.
Qed.

(** A character is copied, and then it is not a backslash, or it becomes
    a backslash and a letter that tells which character it was. *)
Lemma escape_char_cases :
  exists letter_of : ascii -> ascii,
    forall c,
      (JSON.escape_char c = [c] /\ c <> JSON.BACKSLASH)
      \/ exists x, JSON.escape_char c = [JSON.BACKSLASH; x]
                   /\ c = letter_of x.
Proof.
  exists (fun x =>
            if Ascii.eqb x "b" then JSON.BACKSPACE
            else if Ascii.eqb x "f" then JSON.FORMFEED
            else if Ascii.eqb x "n" then JSON.NEWLINE
            else if Ascii.eqb x "r" then JSON.RETURN
            else if Ascii.eqb x "t" then JSON.TAB
            else x).
  intros c.
  destruct c as [[] [] [] [] [] [] [] []];
    first [ left; split; [reflexivity | discriminate]
          | right; eexists; split; reflexivity ].
Qed.

(** X27.  [escape] loses nothing: two strings with the same escaped form
    are the same string. *)
Theorem escape_is_injective s s' :
  JSON.escape s = JSON.escape s' -> s = s'.
Proof.
  destruct escape_char_cases as [letter_of Hcases].
  revert s'. induction s as [| c s IH]; intros [| c' s'] Heq.
  - reflexivity.
  - rewrite escape_cons in Heq.
    destruct (Hcases c') as [[Hc _] | (x & Hc & _)]; rewrite Hc in Heq;
      discriminate.
  - rewrite escape_cons in Heq.
    destruct (Hcases c) as [[Hc _] | (x & Hc & _)]; rewrite Hc in Heq;
      discriminate.
  - rewrite !escape_cons in Heq.
    destruct (Hcases c) as [[Hc Hnb] | (x & Hc & Hx)];
      destruct (Hcases c') as [[Hc' Hnb'] | (x' & Hc' & Hx')];
      rewrite Hc, Hc' in Heq; cbn [app] in Heq.
    + injection Heq as -> Hrest. f_equal. now apply IH.
    + injection Heq as -> Hrest. contradiction.
    + injection Heq as <- Hrest. contradiction.
    + injection Heq as -> Hrest. subst c c'. f_equal. now apply IH.
Qed.

Lemma escape_is_injective_quoted :
  list_ascii_of_string "a\b" = list_ascii_of_string "a\b".
Proof.
  apply (escape_is_injective (list_ascii_of_string "a\b")
           (list_ascii_of_string "a\b")).
  reflexivity.
Defined.

(** What [escape] writes for one character: the character itself, which
    is then none of the seven; or a backslash and a second character.
    Neither way a raw control character of the five is written. *)
Lemma escape_char_shape c :
  let plain (x : ascii) :=
    x <> JSON.BACKSPACE /\ x <> JSON.FORMFEED /\ x <> JSON.NEWLINE
    /\ x <> JSON.RETURN /\ x <> JSON.TAB in
  (JSON.escape_char c = [c] /\ c <> JSON.QUOTE /\ c <> JSON.BACKSLASH
   /\ plain c)
  \/ exists x, JSON.escape_char c = [JSON.BACKSLASH; x] /\ plain x.
Proof.
  destruct c as [[] [] [] [] [] [] [] []];
    first [ left; split; [reflexivity |];
            repeat split; discriminate
          | right; eexists; split; [reflexivity |];
            repeat split; discriminate ].
Qed.

Lemma escape_grows s : (length s <= length (JSON.escape s))%nat.
Proof.
  induction s as [| c s IH]; [cbn; lia |].
  rewrite escape_cons, length_app. cbn [length].
  destruct (escape_char_shape c) as [(Hc & _) | (x & Hc & _)];
    rewrite Hc; cbn [length]; lia.
Qed.

(** X28.  The shape of an escaped string: it is at least as long as the
    string and at most twice as long; it holds no raw backspace, form
    feed, newline, carriage return or tab; it does not start with a
    quote, and every quote in it stands right after a backslash. *)
Theorem escape_output_shape s :
  let out := JSON.escape s in
  (length s <= length out <= 2 * length s)%nat
  /\ Forall (fun c => c <> JSON.BACKSPACE /\ c <> JSON.FORMFEED
                      /\ c <> JSON.NEWLINE /\ c <> JSON.RETURN
                      /\ c <> JSON.TAB) out
  /\ out !! 0%nat <> Some JSON.QUOTE
  /\ forall i, out !! S i = Some JSON.QUOTE ->
               out !! i = Some JSON.BACKSLASH.
Proof.
  induction s as [| c s (Hlen & Hplain & Hhead & Hquote)]; cbn zeta in *.
  - cbn. repeat split; try lia; [constructor | discriminate | discriminate].
  - rewrite escape_cons.
    destruct (escape_char_shape c) as [(Hc & Hq & Hb & Hp) | (x & Hc & Hp)];
      rewrite Hc; cbn [app length]; cbn zeta in Hp.
    + split; [lia |]. split; [constructor; assumption |].
      split; [cbn; congruence |].
      intros [| i] Hi; cbn in Hi |- *.
      * contradiction.
      * now apply Hquote.
    + split; [lia |]. split.
      { constructor; [repeat split; discriminate |].
        constructor; assumption. }
      split; [cbn; discriminate |].
      intros [| [| i]] Hi; cbn in Hi |- *.
      * reflexivity.
      * contradiction.
      * now apply Hquote.
Qed.

(** X29.  [escape] changes a string exactly when it holds one of the
    seven characters of the [switch]: every other character, the other
    control characters below 0x20 among them, is copied as it is. *)
Theorem escape_copies_all_but_seven s :
  JSON.escape s = s
  <-> Forall (fun c => ~ In c [JSON.QUOTE; JSON.BACKSLASH; JSON.BACKSPACE;
                              JSON.FORMFEED; JSON.NEWLINE; JSON.RETURN;
                              JSON.TAB]) s.
Proof.
  assert (Hchar : forall c,
            (JSON.escape_char c = [c]
             /\ ~ In c [JSON.QUOTE; JSON.BACKSLASH; JSON.BACKSPACE;
                        JSON.FORMFEED; JSON.NEWLINE; JSON.RETURN; JSON.TAB])
            \/ (exists x, JSON.escape_char c = [JSON.BACKSLASH; x]
                          /\ c <> JSON.BACKSLASH)
            \/ (JSON.escape_char c = [JSON.BACKSLASH; JSON.BACKSLASH]
                /\ c = JSON.BACKSLASH)).
  { intros c. destruct c as [[] [] [] [] [] [] [] []];
      first [ left; split; [reflexivity |];
              intros Hin; repeat (destruct Hin as [Hin | Hin];
                                  [discriminate |]); exact Hin
            | right; left; eexists; split; [reflexivity | discriminate]
            | right; right; split; reflexivity ]. }
  pose proof escape_grows as Hgrow.
  split.
  - induction s as [| c s IH]; intros Heq; [constructor |].
    rewrite escape_cons in Heq.
    destruct (Hchar c) as [[Hc Hnot] | [(x & Hc & Hnb) | [Hc Hb]]];
      rewrite Hc in Heq; cbn [app] in Heq.
    + injection Heq as Hrest. constructor; [exact Hnot | now apply IH].
    + injection Heq as Hb _. congruence.
    + injection Heq as _ Hrest.
      pose proof (Hgrow s) as Hlen. rewrite <- Hrest in Hlen at 1.
      cbn [length] in Hlen. lia.
  - induction 1 as [| c s Hnot _ IH]; [reflexivity |].
    rewrite escape_cons, IH.
    destruct (Hchar c) as [[Hc _] | [(x & Hc & _) | [Hc ->]]].
    + now rewrite Hc.
    + exfalso. apply Hnot.
      destruct (escape_char_shape c) as [(Hc' & _) | _].
      * rewrite Hc' in Hc. discriminate.
      * clear -Hc Hnot.
        destruct c as [[] [] [] [] [] [] [] []]; cbn in Hc;
          first [ discriminate Hc | cbn; tauto ].
    + exfalso. apply Hnot. cbn. tauto.
Qed.

(** * Unblocking *)

Section Unblocking.

Context `{Collaborators}.

(** X30.  [unblockIP] takes effect at once although the blocked cache
    cannot forget: the cache is left as it was, but the address is no
    longer blocked in the mitigation engine, so the block short-circuit
    of [processPacket], which asks both, lets its packets pass; the block
    status of every other address is unchanged. *)
Theorem unblockIP_reopens_path now addr e :
  let e' := GridWatcher.unblockIP now addr e in
  GridWatcher.blocked_ips_cache_ e' = GridWatcher.blocked_ips_cache_ e
  /\ (forall t,
        GridWatcher.cache_contains addr (GridWatcher.blocked_ips_cache_ e')
        && MitigationEngine.isBlocked addr t (GridWatcher.mitigation_ e')
        = false)
  /\ (forall other t, other <> addr ->
        MitigationEngine.isBlocked other t (GridWatcher.mitigation_ e')
        = MitigationEngine.isBlocked other t (GridWatcher.mitigation_ e)).
Proof.
  unfold GridWatcher.unblockIP, MitigationEngine.unblockIP.
  destruct (MitigationEngine.blocked_ips_ (GridWatcher.mitigation_ e)
              !! addr) as [b |] eqn:Hb; cbn.
  - split; [reflexivity |]. split.
    + intros t. unfold MitigationEngine.isBlocked. cbn.
      rewrite lookup_delete_eq. apply andb_false_r.
    + intros other t Hne. unfold MitigationEngine.isBlocked. cbn.
      now rewrite lookup_delete_ne by congruence.
  - split; [reflexivity |]. split; [| reflexivity].
    intros t. unfold MitigationEngine.isBlocked. rewrite Hb.
    apply andb_false_r.
Qed.

End Unblocking.

(** * Stopping the processor *)

Lemma live_count_insert (l : list PacketProcessor.Worker) w wk wk' :
  l !! w = Some wk -> PacketProcessor.live wk = true ->
  (length (List.filter PacketProcessor.live (<[w := wk']> l))
   + (if PacketProcessor.live wk' then 0 else 1)
   = length (List.filter PacketProcessor.live l))%nat.
Proof.
  revert w. induction l as [| x l IH]; intros [| w] Hw Hlive;
    try discriminate.
  - cbn in Hw. injection Hw as ->. cbn [List.filter].
    change (<[0%nat := wk']> (wk :: l)) with (wk' :: l).
    cbn [List.filter]. rewrite Hlive.
    destruct (PacketProcessor.live wk'); cbn [length]; lia.
  - cbn in Hw. change (<[S w := wk']> (x :: l)) with (x :: <[w := wk']> l).
    cbn [List.filter]. specialize (IH w Hw Hlive).
    destruct (PacketProcessor.live x); cbn [length]; lia.
Qed.

Lemma live_count_le (l : list PacketProcessor.Worker) :
  (length (List.filter PacketProcessor.live l) <= length l)%nat.
Proof.
  induction l as [| x l IH]; [reflexivity |].
  cbn [List.filter]. destruct (PacketProcessor.live x); cbn [length]; lia.
Qed.

Section StopFacts.

Context `{Collaborators}.

(** The workers that return at their loop condition touch the worker
    list alone. *)
Lemma return_workers_frame p :
  let p' := PacketProcessor.return_workers p in
  PacketProcessor.watcher_ p' = PacketProcessor.watcher_ p
  /\ PacketProcessor.queue_ p' = PacketProcessor.queue_ p
  /\ PacketProcessor.running_ p' = PacketProcessor.running_ p
  /\ PacketProcessor.num_threads_ p' = PacketProcessor.num_threads_ p
  /\ PacketProcessor.packets_queued_ p' = PacketProcessor.packets_queued_ p
  /\ PacketProcessor.packets_processed_ p'
     = PacketProcessor.packets_processed_ p
  /\ PacketProcessor.packets_dropped_queue_full_ p'
     = PacketProcessor.packets_dropped_queue_full_ p.
Proof.
  unfold PacketProcessor.return_workers.
  generalize (seq 0 (length (PacketProcessor.workers_ p))).
  intros ws. revert p. induction ws as [| w ws IH]; intros p; simpl.
  - auto 10.
  - match goal with
    | |- context [fold_left _ ws ?p1] => specialize (IH p1); set (p2 := p1) in *
    end.
    simpl in IH. destruct IH as (Hw & Hq & Hr & Hn & Hpq & Hpp & Hpd).
    rewrite Hw, Hq, Hr, Hn, Hpq, Hpp, Hpd. subst p2.
    destruct (PacketProcessor.workers_ p !! w) as [wk |];
      [destruct (PacketProcessor.exited wk) |]; auto 10.
Qed.

(** What the pass of one worker past its loop condition does: it takes
    the oldest job, if there is one, has the engine process it and counts
    it; then the worker is gone. *)
Lemma finish_pass_spec fuel wc p :
  PacketQueue.invariant PacketProcessor.QueueCapacity
    (PacketProcessor.queue_ p) ->
  PacketQueue.enqueue_pos_ (PacketProcessor.queue_ p)
    + PacketProcessor.QueueCapacity < 2 ^ 63 ->
  exists p' (taken : nat),
    PacketProcessor.finish_pass (S fuel) wc p = Some p'
    /\ PacketQueue.invariant PacketProcessor.QueueCapacity
         (PacketProcessor.queue_ p')
    /\ PacketQueue.enqueue_pos_ (PacketProcessor.queue_ p')
       = PacketQueue.enqueue_pos_ (PacketProcessor.queue_ p)
    /\ (taken <= 1)%nat
    /\ (taken + length (List.filter PacketProcessor.live
                          (PacketProcessor.workers_ p'))
        <= length (List.filter PacketProcessor.live
                     (PacketProcessor.workers_ p)))%nat
    /\ (taken <= length (PacketQueue.contents PacketProcessor.QueueCapacity
                           (PacketProcessor.queue_ p)))%nat
    /\ PacketQueue.contents PacketProcessor.QueueCapacity
         (PacketProcessor.queue_ p')
       = drop taken (PacketQueue.contents PacketProcessor.QueueCapacity
                       (PacketProcessor.queue_ p))
    /\ U64.wrap (PacketProcessor.packets_processed_ p')
       = U64.wrap (PacketProcessor.packets_processed_ p + Z.of_nat taken)
    /\ U64.wrap (Statistics.packets_processed_
                   (GridWatcher.stats_ (PacketProcessor.watcher_ p')))
       = U64.wrap (Statistics.packets_processed_
                     (GridWatcher.stats_ (PacketProcessor.watcher_ p))
                   + Z.of_nat taken)
    /\ PacketProcessor.running_ p' = PacketProcessor.running_ p
    /\ PacketProcessor.num_threads_ p' = PacketProcessor.num_threads_ p
    /\ PacketProcessor.packets_queued_ p' = PacketProcessor.packets_queued_ p
    /\ PacketProcessor.packets_dropped_queue_full_ p'
       = PacketProcessor.packets_dropped_queue_full_ p
    /\ (taken = 0%nat ->
        PacketProcessor.watcher_ p' = PacketProcessor.watcher_ p
        /\ PacketProcessor.queue_ p' = PacketProcessor.queue_ p
        /\ PacketProcessor.packets_processed_ p'
           = PacketProcessor.packets_processed_ p).
Proof.
  intros Hinv Hbound. destruct wc as [w c].
  unfold PacketProcessor.finish_pass. cbn [fst snd].
  assert (Hsame : exists p' (taken : nat),
    Some p = Some p'
    /\ PacketQueue.invariant PacketProcessor.QueueCapacity
         (PacketProcessor.queue_ p')
    /\ PacketQueue.enqueue_pos_ (PacketProcessor.queue_ p')
       = PacketQueue.enqueue_pos_ (PacketProcessor.queue_ p)
    /\ (taken <= 1)%nat
    /\ (taken + length (List.filter PacketProcessor.live
                          (PacketProcessor.workers_ p'))
        <= length (List.filter PacketProcessor.live
                     (PacketProcessor.workers_ p)))%nat
    /\ (taken <= length (PacketQueue.contents PacketProcessor.QueueCapacity
                           (PacketProcessor.queue_ p)))%nat
    /\ PacketQueue.contents PacketProcessor.QueueCapacity
         (PacketProcessor.queue_ p')
       = drop taken (PacketQueue.contents PacketProcessor.QueueCapacity
                       (PacketProcessor.queue_ p))
    /\ U64.wrap (PacketProcessor.packets_processed_ p')
       = U64.wrap (PacketProcessor.packets_processed_ p + Z.of_nat taken)
    /\ U64.wrap (Statistics.packets_processed_
                   (GridWatcher.stats_ (PacketProcessor.watcher_ p')))
       = U64.wrap (Statistics.packets_processed_
                     (GridWatcher.stats_ (PacketProcessor.watcher_ p))
                   + Z.of_nat taken)
    /\ PacketProcessor.running_ p' = PacketProcessor.running_ p
    /\ PacketProcessor.num_threads_ p' = PacketProcessor.num_threads_ p
    /\ PacketProcessor.packets_queued_ p' = PacketProcessor.packets_queued_ p
    /\ PacketProcessor.packets_dropped_queue_full_ p'
       = PacketProcessor.packets_dropped_queue_full_ p
    /\ (taken = 0%nat ->
        PacketProcessor.watcher_ p' = PacketProcessor.watcher_ p
        /\ PacketProcessor.queue_ p' = PacketProcessor.queue_ p
        /\ PacketProcessor.packets_processed_ p'
           = PacketProcessor.packets_processed_ p)).
  { exists p, 0%nat. cbn [Z.of_nat drop]. rewrite !Z.add_0_r.
    repeat (split; [first [reflexivity | assumption | lia] |]). auto. }
  destruct (PacketProcessor.workers_ p !! w) as [wk |] eqn:Hw;
    [| exact Hsame].
  destruct (PacketProcessor.exited wk) eqn:Hlive; [exact Hsame |].
  clear Hsame.
  assert (Hwk : PacketProcessor.live wk = true)
    by (unfold PacketProcessor.live; now rewrite Hlive).
  assert (Hlt : (w < length (PacketProcessor.workers_ p))%nat)
    by (now apply lookup_lt_Some in Hw).
  unfold PacketProcessor.workerThread_body.
  destruct (Z.eq_dec (PacketQueue.depth (PacketProcessor.queue_ p)) 0)
    as [Hempty | Hheld].
  - destruct (dequeue_when_empty PacketProcessor.QueueCapacity fuel
                (PacketProcessor.queue_ p) Hinv Hbound Hempty)
      as [Hdeq _].
    rewrite Hdeq. cbn [PacketProcessor.workers_]. rewrite Hw.
    eexists. exists 0%nat. split; [reflexivity |].
    cbn [PacketProcessor.workerThread_return PacketProcessor.queue_
         PacketProcessor.watcher_ PacketProcessor.workers_
         PacketProcessor.running_ PacketProcessor.num_threads_
         PacketProcessor.packets_queued_ PacketProcessor.packets_processed_
         PacketProcessor.packets_dropped_queue_full_ Z.of_nat drop].
    rewrite !Z.add_0_r.
    pose proof (live_count_insert (PacketProcessor.workers_ p) w wk
                  (PacketProcessor.mkWorker
                     (PacketProcessor.worker_job wk) true) Hw Hwk) as Hcount.
    cbn in Hcount.
    repeat (split; [first [reflexivity | assumption | lia] |]). auto.
  - pose proof Hinv as (_ & _ & Hd & _).
    destruct (dequeue_when_held PacketProcessor.QueueCapacity fuel
                (PacketProcessor.queue_ p) Hinv Hbound)
      as (j & q' & Hdeq & Hcontents & Hinv' & Henq & _);
      [unfold PacketQueue.depth in *; lia |].
    rewrite Hdeq.
    pose proof (processPacket_processed c (job_data j) (job_source_ip j)
                  (job_dest_ip j) (job_source_port j) (job_dest_port j)
                  (PacketProcessor.watcher_ p)) as Hpp.
    destruct (GridWatcher.processPacket c (job_data j) (job_source_ip j)
                (job_dest_ip j) (job_source_port j) (job_dest_port j)
                (PacketProcessor.watcher_ p)) as [verdict e].
    cbn [snd] in Hpp. cbn [PacketProcessor.workers_].
    rewrite list_lookup_insert_eq by exact Hlt.
    eexists. exists 1%nat. split; [reflexivity |].
    cbn [PacketProcessor.workerThread_return PacketProcessor.queue_
         PacketProcessor.watcher_ PacketProcessor.workers_
         PacketProcessor.running_ PacketProcessor.num_threads_
         PacketProcessor.packets_queued_ PacketProcessor.packets_processed_
         PacketProcessor.packets_dropped_queue_full_
         PacketProcessor.worker_job].
    rewrite Hcontents. cbn [drop length].
    match goal with
    | |- context [<[w := ?done]> (<[w := ?busy]> (PacketProcessor.workers_ p))] =>
        pose proof (live_count_insert (PacketProcessor.workers_ p) w wk
                      busy Hw Hwk) as Hcount1;
        pose proof (live_count_insert
                      (<[w := busy]> (PacketProcessor.workers_ p)) w busy
                      done (list_lookup_insert_eq _ _ _ Hlt) eq_refl)
          as Hcount2
    end.
    cbn in Hcount1, Hcount2.
    unfold U64.fetch_add. rewrite Hpp, !wrap_wrap.
    repeat (split; [first [reflexivity | assumption | lia] |]).
    first [intros Hzero; discriminate | exfalso; lia].
Qed.

Lemma finish_passes_spec fuel in_flight p :
  PacketQueue.invariant PacketProcessor.QueueCapacity
    (PacketProcessor.queue_ p) ->
  PacketQueue.enqueue_pos_ (PacketProcessor.queue_ p)
    + PacketProcessor.QueueCapacity < 2 ^ 63 ->
  exists p' (taken : nat),
    PacketProcessor.finish_passes (S fuel) in_flight p = Some p'
    /\ (taken <= length in_flight)%nat
    /\ (taken + length (List.filter PacketProcessor.live
                          (PacketProcessor.workers_ p'))
        <= length (List.filter PacketProcessor.live
                     (PacketProcessor.workers_ p)))%nat
    /\ (taken <= length (PacketQueue.contents PacketProcessor.QueueCapacity
                           (PacketProcessor.queue_ p)))%nat
    /\ PacketQueue.contents PacketProcessor.QueueCapacity
         (PacketProcessor.queue_ p')
       = drop taken (PacketQueue.contents PacketProcessor.QueueCapacity
                       (PacketProcessor.queue_ p))
    /\ U64.wrap (PacketProcessor.packets_processed_ p')
       = U64.wrap (PacketProcessor.packets_processed_ p + Z.of_nat taken)
    /\ U64.wrap (Statistics.packets_processed_
                   (GridWatcher.stats_ (PacketProcessor.watcher_ p')))
       = U64.wrap (Statistics.packets_processed_
                     (GridWatcher.stats_ (PacketProcessor.watcher_ p))
                   + Z.of_nat taken)
    /\ PacketProcessor.running_ p' = PacketProcessor.running_ p
    /\ PacketProcessor.num_threads_ p' = PacketProcessor.num_threads_ p
    /\ PacketProcessor.packets_queued_ p' = PacketProcessor.packets_queued_ p
    /\ PacketProcessor.packets_dropped_queue_full_ p'
       = PacketProcessor.packets_dropped_queue_full_ p
    /\ (taken = 0%nat ->
        PacketProcessor.watcher_ p' = PacketProcessor.watcher_ p
        /\ PacketProcessor.queue_ p' = PacketProcessor.queue_ p
        /\ PacketProcessor.packets_processed_ p'
           = PacketProcessor.packets_processed_ p).
Proof.
  revert p. induction in_flight as [| wc rest IH]; intros p Hinv Hbound.
  - exists p, 0%nat. cbn [PacketProcessor.finish_passes Z.of_nat drop length].
    rewrite !Z.add_0_r.
    repeat (split; [first [reflexivity | lia] |]). auto.
  - cbn [PacketProcessor.finish_passes].
    destruct (finish_pass_spec fuel wc p Hinv Hbound)
      as (p1 & t1 & Hstep & Hinv1 & Henq1 & Ht1 & Hlive1 & Hlen1 & Hc1
          & Hpp1 & Hen1 & Hr1 & Hn1 & Hq1 & Hd1 & Hz1).
    rewrite Hstep.
    destruct (IH p1 Hinv1) as (p2 & t2 & Hsteps & Ht2 & Hlive2 & Hlen2 & Hc2
                               & Hpp2 & Hen2 & Hr2 & Hn2 & Hq2 & Hd2 & Hz2);
      [rewrite Henq1; exact Hbound |].
    exists p2, (t1 + t2)%nat. split; [exact Hsteps |].
    rewrite Hc1 in Hlen2, Hc2. rewrite length_drop in Hlen2.
    rewrite drop_drop in Hc2.
    split; [cbn [length]; lia |]. split; [lia |]. split; [lia |].
    split; [exact Hc2 |].
    split.
    { rewrite Hpp2, <- wrap_add_l, Hpp1, wrap_add_l. f_equal. lia. }
    split.
    { rewrite Hen2, <- wrap_add_l, Hen1, wrap_add_l. f_equal. lia. }
    split; [congruence |]. split; [congruence |]. split; [congruence |].
    split; [congruence |].
    intros Hzero. assert (t1 = 0%nat) by lia. assert (t2 = 0%nat) by lia.
    destruct (Hz1 ltac:(assumption)) as (Ha & Hb & Hc).
    destruct (Hz2 ltac:(assumption)) as (Ha' & Hb' & Hc').
    split; [congruence |]. split; congruence.
Qed.

(** C6, amended.  [stop] clears [running_] and joins the workers.  A
    worker at its loop condition finds the flag cleared and returns
    without dequeuing; a worker that was past the loop condition ends the
    pass it is in, taking one job at most, and returns.  So [stop]
    returns with no worker left and with the oldest [taken] jobs
    processed, where [taken] is at most the number of workers that were
    in a pass and at most the number of workers; every other job enqueued
    at that moment is still in the queue, unprocessed, and with no worker
    in a pass the queue, the engine and the processed counter are as they
    were.  From any state with the flag cleared a worker at its loop
    condition takes no job. *)
Theorem stop_leaves_queue_undrained fuel in_flight p :
  PacketQueue.invariant PacketProcessor.QueueCapacity
    (PacketProcessor.queue_ p) ->
  PacketQueue.enqueue_pos_ (PacketProcessor.queue_ p)
    + PacketProcessor.QueueCapacity < 2 ^ 63 ->
  PacketProcessor.running_ p = true ->
  (exists p' (taken : nat),
     PacketProcessor.stop (S fuel) in_flight p = Some p'
     /\ PacketProcessor.running_ p' = false
     /\ PacketProcessor.workers_ p' = []
     /\ (taken <= length in_flight)%nat
     /\ (taken <= length (PacketProcessor.workers_ p))%nat
     /\ (taken <= length (PacketQueue.contents PacketProcessor.QueueCapacity
                            (PacketProcessor.queue_ p)))%nat
     /\ PacketQueue.contents PacketProcessor.QueueCapacity
          (PacketProcessor.queue_ p')
        = drop taken (PacketQueue.contents PacketProcessor.QueueCapacity
                        (PacketProcessor.queue_ p))
     /\ U64.wrap (PacketProcessor.packets_processed_ p')
        = U64.wrap (PacketProcessor.packets_processed_ p + Z.of_nat taken)
     /\ U64.wrap (Statistics.packets_processed_
                    (GridWatcher.stats_ (PacketProcessor.watcher_ p')))
        = U64.wrap (Statistics.packets_processed_
                      (GridWatcher.stats_ (PacketProcessor.watcher_ p))
                    + Z.of_nat taken)
     /\ (taken = 0%nat ->
         PacketProcessor.queue_ p' = PacketProcessor.queue_ p
         /\ PacketProcessor.watcher_ p' = PacketProcessor.watcher_ p
         /\ PacketProcessor.packets_processed_ p'
            = PacketProcessor.packets_processed_ p))
  /\ forall fuel' c w cleared,
       PacketProcessor.running_ cleared = false ->
       exists next,
         PacketProcessor.workerThread_iteration fuel' c w cleared = Some next
         /\ PacketProcessor.queue_ next = PacketProcessor.queue_ cleared
         /\ PacketProcessor.watcher_ next = PacketProcessor.watcher_ cleared
         /\ PacketProcessor.packets_processed_ next
            = PacketProcessor.packets_processed_ cleared
         /\ PacketProcessor.running_ next = false.
Proof.
  intros Hinv Hbound Hrun.
  split; [| intros fuel' c w cleared; apply cleared_flag_stops_dequeuing].
  unfold PacketProcessor.stop, PacketProcessor.join_workers.
  rewrite Hrun. cbn [negb].
  match goal with
  | |- context [PacketProcessor.finish_passes _ _ ?cleared] =>
      destruct (finish_passes_spec fuel in_flight cleared Hinv Hbound)
        as (p1 & taken & Hsteps & Ht & Hlive & Hlen & Hc & Hpp & Hen & Hr
            & _ & _ & _ & Hz)
  end.
  rewrite Hsteps.
  pose proof (return_workers_frame p1) as (Hw & Hq & Hr' & _ & _ & Hpp' & _).
  cbn zeta in *.
  cbn [PacketProcessor.queue_ PacketProcessor.watcher_
       PacketProcessor.workers_ PacketProcessor.running_
       PacketProcessor.packets_processed_] in *.
  eexists. exists taken. split; [reflexivity |].
  cbn [PacketProcessor.queue_ PacketProcessor.watcher_
       PacketProcessor.workers_ PacketProcessor.running_
       PacketProcessor.packets_processed_].
  rewrite Hw, Hq, Hr', Hpp'.
  pose proof (live_count_le (PacketProcessor.workers_ p)).
  split; [exact Hr |]. split; [reflexivity |]. split; [exact Ht |].
  split; [lia |]. split; [exact Hlen |]. split; [exact Hc |].
  split; [exact Hpp |]. split; [exact Hen |].
  intros Hzero. destruct (Hz Hzero) as (Ha & Hb & Hd). auto.
Qed.

(** A worker pass on an empty queue, the processor running, changes
    nothing. *)
Lemma work_on_empty_queue fuel c w p :
  PacketQueue.invariant PacketProcessor.QueueCapacity
    (PacketProcessor.queue_ p) ->
  PacketQueue.enqueue_pos_ (PacketProcessor.queue_ p)
    + PacketProcessor.QueueCapacity < 2 ^ 63 ->
  PacketQueue.depth (PacketProcessor.queue_ p) = 0 ->
  PacketProcessor.running_ p = true ->
  PacketProcessor.workerThread_iteration (S fuel) c w p = Some p.
Proof.
  intros Hinv Hbound Hempty Hrun.
  unfold PacketProcessor.workerThread_iteration.
  destruct (PacketProcessor.workers_ p !! w) as [wk |]; [| reflexivity].
  destruct (PacketProcessor.exited wk); [reflexivity |].
  rewrite Hrun. unfold PacketProcessor.workerThread_body.
  destruct (dequeue_when_empty PacketProcessor.QueueCapacity fuel
              (PacketProcessor.queue_ p) Hinv Hbound Hempty) as [Hdeq _].
  rewrite Hdeq. now destruct p.
Qed.

(** X6.  On a processor that is not running, has no worker and holds no
    job, [start] sets [running_] and spawns [num_threads_] workers, all
    in their loop, and a second [start] changes nothing; the passes the
    workers make on the empty queue change nothing; [stop], whichever
    workers it finds in a pass, gives back the processor as it was
    before [start], and a second [stop] changes nothing. *)
Theorem start_then_stop_restores fuel passes in_flight p :
  PacketProcessor.running_ p = false ->
  PacketProcessor.workers_ p = [] ->
  PacketQueue.invariant PacketProcessor.QueueCapacity
    (PacketProcessor.queue_ p) ->
  PacketQueue.enqueue_pos_ (PacketProcessor.queue_ p)
    + PacketProcessor.QueueCapacity < 2 ^ 63 ->
  PacketQueue.depth (PacketProcessor.queue_ p) = 0 ->
  let s := PacketProcessor.start p in
  PacketProcessor.running_ s = true
  /\ length (PacketProcessor.workers_ s) = PacketProcessor.num_threads_ p
  /\ (forall w wk, PacketProcessor.workers_ s !! w = Some wk ->
        PacketProcessor.exited wk = false)
  /\ PacketProcessor.start s = s
  /\ PacketProcessor.steps (S fuel)
       (map (fun cw : Clock * nat => PacketProcessor.Work cw.1 cw.2) passes)
       s = Some s
  /\ PacketProcessor.stop (S fuel) in_flight s = Some p
  /\ PacketProcessor.stop fuel in_flight p = Some p.
Proof.
  intros Hidle Hnone Hinv Hbound Hempty s.
  assert (Hs : s = PacketProcessor.mk (PacketProcessor.watcher_ p)
                 (PacketProcessor.queue_ p)
                 (replicate (PacketProcessor.num_threads_ p)
                    (PacketProcessor.mkWorker PacketJob_default false))
                 true (PacketProcessor.num_threads_ p)
                 (PacketProcessor.packets_queued_ p)
                 (PacketProcessor.packets_processed_ p)
                 (PacketProcessor.packets_dropped_queue_full_ p)).
  { subst s. unfold PacketProcessor.start. now rewrite Hidle, Hnone. }
  clearbody s. subst s.
  split; [reflexivity |].
  split; [simpl; apply length_replicate |].
  split.
  { intros w wk Hw. simpl in Hw.
    apply lookup_replicate in Hw. destruct Hw as [-> _]. reflexivity. }
  split; [reflexivity |].
  split.
  { induction passes as [| [c w] passes IH]; [reflexivity |].
    cbn [map PacketProcessor.steps PacketProcessor.step fst snd].
    rewrite work_on_empty_queue; [exact IH | | | | reflexivity];
      assumption. }
  split.
  - unfold PacketProcessor.stop, PacketProcessor.join_workers.
    cbn [PacketProcessor.running_ negb].
    match goal with
    | |- context [PacketProcessor.finish_passes _ _ ?cleared] =>
        destruct (finish_passes_spec fuel in_flight cleared)
          as (p1 & taken & Hsteps & _ & _ & Hlen & _ & _ & _ & Hr & Hn & Hq
              & Hd & Hz); [exact Hinv | exact Hbound |]
    end.
    rewrite Hsteps.
    cbn [PacketProcessor.queue_ PacketProcessor.watcher_
         PacketProcessor.workers_ PacketProcessor.running_
         PacketProcessor.num_threads_ PacketProcessor.packets_queued_
         PacketProcessor.packets_processed_
         PacketProcessor.packets_dropped_queue_full_] in *.
    assert (Hnojob : PacketQueue.contents PacketProcessor.QueueCapacity
                       (PacketProcessor.queue_ p) = []).
    { now destruct (dequeue_when_empty PacketProcessor.QueueCapacity 0
                      (PacketProcessor.queue_ p) Hinv Hbound Hempty). }
    rewrite Hnojob in Hlen. cbn [length] in Hlen.
    destruct (Hz ltac:(lia)) as (Ha & Hb & Hc).
    pose proof (return_workers_frame p1)
      as (Hw' & Hq' & Hr' & Hn' & Hpq' & Hpp' & Hpd').
    cbn zeta in *.
    rewrite Hw', Hq', Hr', Hn', Hpq', Hpp', Hpd'.
    rewrite Ha, Hb, Hc, Hr, Hn, Hq, Hd.
    destruct p; cbn in *. now subst.
  - unfold PacketProcessor.stop. now rewrite Hidle.
Qed.

End StopFacts.

(** C6, as stated, fails.  The processor is started, one packet is
    submitted and accepted, and [stop] is called while both workers are
    at their loop condition: the workers are joined and gone, the job is
    still in the queue, and neither the processor nor the engine has
    processed a packet.  With three jobs queued and both workers in a
    pass when [stop] is called, each worker ends its pass with one job
    and the third job is left in the queue. *)
Lemma stop_strands_queued_packet :
  PacketProcessor.running_ busy_processor = true
  /\ length (PacketProcessor.workers_ busy_processor) = 2%nat
  /\ PacketQueue.contents PacketProcessor.QueueCapacity
       (PacketProcessor.queue_ busy_processor) = [read_job]
  /\ (fun p' =>
        (PacketQueue.contents PacketProcessor.QueueCapacity
           (PacketProcessor.queue_ p'),
         PacketProcessor.workers_ p',
         PacketProcessor.running_ p',
         PacketProcessor.packets_processed_ p',
         Statistics.packets_processed_
           (GridWatcher.stats_ (PacketProcessor.watcher_ p'))))
     <$> PacketProcessor.stop 1 [] busy_processor
     = Some ([read_job], [], false, 0, 0)
  /\ PacketProcessor.running_ crowded_processor = true
  /\ PacketQueue.contents PacketProcessor.QueueCapacity
       (PacketProcessor.queue_ crowded_processor)
     = [read_job; write_job; third_job]
  /\ (fun p' =>
        (PacketQueue.contents PacketProcessor.QueueCapacity
           (PacketProcessor.queue_ p'),
         PacketProcessor.workers_ p',
         PacketProcessor.running_ p',
         PacketProcessor.packets_processed_ p',
         Statistics.packets_processed_
           (GridWatcher.stats_ (PacketProcessor.watcher_ p'))))
     <$> PacketProcessor.stop 1 [(0%nat, noon); (1%nat, noon)]
           crowded_processor
     = Some ([third_job], [], false, 2, 2).
Proof. vm_compute. auto 10. Qed.

Lemma stop_leaves_queue_undrained_busy :
  (PacketQueue.well_formed PacketProcessor.QueueCapacity
     (PacketProcessor.queue_ crowded_processor) = true
   /\ PacketProcessor.running_ crowded_processor = true)
  /\ exists p' (taken : nat),
       PacketProcessor.stop 1 [(0%nat, noon)] crowded_processor = Some p'
       /\ PacketProcessor.running_ p' = false
       /\ PacketProcessor.workers_ p' = []
       /\ (taken <= 1)%nat
       /\ PacketQueue.contents PacketProcessor.QueueCapacity
            (PacketProcessor.queue_ p')
          = drop taken
              (PacketQueue.contents PacketProcessor.QueueCapacity
                 (PacketProcessor.queue_ crowded_processor))
       /\ U64.wrap (PacketProcessor.packets_processed_ p')
          = U64.wrap (PacketProcessor.packets_processed_ crowded_processor
                      + Z.of_nat taken).
Proof.
  assert (Hwf : PacketQueue.well_formed PacketProcessor.QueueCapacity
                  (PacketProcessor.queue_ crowded_processor) = true)
    by (vm_compute; reflexivity).
  assert (Hrun : PacketProcessor.running_ crowded_processor = true)
    by (vm_compute; reflexivity).
  split; [split; assumption |].
  destruct (stop_leaves_queue_undrained 0 [(0%nat, noon)] crowded_processor)
    as [(p' & taken & Hstop & Hr & Hws & Ht & _ & _ & Hc & Hpp & _) _].
  - apply well_formed_invariant. exact Hwf.
  - vm_compute. reflexivity.
  - exact Hrun.
  - exists p', taken. auto 10.
Defined.

Lemma start_then_stop_restores_fresh :
  (PacketProcessor.running_ fresh_processor = false
   /\ PacketProcessor.workers_ fresh_processor = []
   /\ PacketQueue.well_formed PacketProcessor.QueueCapacity
        (PacketProcessor.queue_ fresh_processor) = true
   /\ PacketQueue.depth (PacketProcessor.queue_ fresh_processor) = 0)
  /\ PacketProcessor.running_ (PacketProcessor.start fresh_processor) = true
  /\ length (PacketProcessor.workers_ (PacketProcessor.start fresh_processor))
     = 2%nat
  /\ PacketProcessor.steps 1
       [PacketProcessor.Work noon 0; PacketProcessor.Work noon 1;
        PacketProcessor.Work noon 0]
       (PacketProcessor.start fresh_processor)
     = Some (PacketProcessor.start fresh_processor)
  /\ PacketProcessor.stop 1 [(1%nat, noon)]
       (PacketProcessor.start fresh_processor)
     = Some fresh_processor.
Proof.
  assert (Hwf : PacketQueue.well_formed PacketProcessor.QueueCapacity
                  (PacketProcessor.queue_ fresh_processor) = true)
    by (vm_compute; reflexivity).
  split; [repeat split; first [reflexivity | exact Hwf] |].
  destruct (start_then_stop_restores 0 [(noon, 0%nat); (noon, 1%nat);
                                        (noon, 0%nat)]
              [(1%nat, noon)] fresh_processor eq_refl eq_refl)
    as (Hrun & Hlen & _ & _ & Hsteps & Hstop & _).
  - apply well_formed_invariant. exact Hwf.
  - vm_compute. reflexivity.
  - reflexivity.
  - auto.
Defined.
